(** * hot-tour-radar: ingest pipeline, dedupe cache, query compiler

    A shallow embedding of the Go services of the repository
    (packages [processing], [dedupe], [elasticsearch], the worker and the
    API handler) together with the properties stated about them.

    Conventions of the embedding.
    - A Go [string] is the sequence of its code points ([gostring]); the
      UTF-8 bytes are produced by [utf8_encode] where the code hashes them.
      Go compares strings bytewise, which on well-formed UTF-8 is the
      lexicographic order of the code points ([strLt]).
    - Go [int] and [time.Duration] are [Z]; instants are nanoseconds since
      the Unix epoch.
    - The standard library's Unicode tables above Latin-1 and its parsers
      ([html.UnescapeString], [time.Parse], [json.Unmarshal]) are left
      abstract as the fields of the class [GoStdlib]. *)

From Stdlib Require Import ZArith List Bool Lia Ascii String.
From stdpp Require Import base option list gmap sorting.

Open Scope Z_scope.

(* ================================================================== *)
(** * Strings as code points *)

Definition rune := Z.
Definition gostring := list rune.

(** A literal of the source, written in ASCII. *)
Definition str (s : string) : gostring :=
  map (fun a => Z.of_N (N_of_ascii a)) (list_ascii_of_string s).

Definition strEq (a b : gostring) : bool := bool_decide (a = b).
Definition isEmpty {A} (a : list A) : bool :=
  match a with [] => true | _ => false end.

(** Go's [<] on strings. *)
Fixpoint strLt (a b : gostring) : bool :=
  match a, b with
  | _, [] => false
  | [], _ :: _ => true
  | x :: a', y :: b' =>
      if x <? y then true else if y <? x then false else strLt a' b'
  end.

(** UTF-8 encoding of one code point (utf8.AppendRune); surrogates and
    values out of range are written as U+FFFD. *)
Definition utf8_rune (r : rune) : list Z :=
  if (r <? 0) || (1114111 <? r) || ((55296 <=? r) && (r <=? 57343)) then
    [239; 191; 189]
  else if r <? 128 then [r]
  else if r <? 2048 then
    [Z.lor 192 (Z.shiftr r 6); Z.lor 128 (Z.land r 63)]
  else if r <? 65536 then
    [Z.lor 224 (Z.shiftr r 12);
     Z.lor 128 (Z.land (Z.shiftr r 6) 63);
     Z.lor 128 (Z.land r 63)]
  else
    [Z.lor 240 (Z.shiftr r 18);
     Z.lor 128 (Z.land (Z.shiftr r 12) 63);
     Z.lor 128 (Z.land (Z.shiftr r 6) 63);
     Z.lor 128 (Z.land r 63)].

Definition utf8_encode (s : gostring) : list Z := flat_map utf8_rune s.

(* ================================================================== *)
(** * package unicode *)

(** unicode.IsSpace: the Latin-1 switch and the White_Space table. *)
Definition unicode_IsSpace (r : rune) : bool :=
  if r <=? 255 then
    ((9 <=? r) && (r <=? 13)) || (r =? 32) || (r =? 133) || (r =? 160)
  else
    (r =? 5760) || ((8192 <=? r) && (r <=? 8202)) || (r =? 8232)
    || (r =? 8233) || (r =? 8239) || (r =? 8287) || (r =? 12288).

(** Letters of Latin-1 (category L below U+0100). *)
Definition latin1_letter (r : rune) : bool :=
  ((65 <=? r) && (r <=? 90)) || ((97 <=? r) && (r <=? 122))
  || (r =? 170) || (r =? 181) || (r =? 186)
  || ((192 <=? r) && (r <=? 214)) || ((216 <=? r) && (r <=? 246))
  || ((248 <=? r) && (r <=? 255)).

(** Numbers of Latin-1 (category N below U+0100). *)
Definition latin1_number (r : rune) : bool :=
  ((48 <=? r) && (r <=? 57)) || (r =? 178) || (r =? 179) || (r =? 185)
  || ((188 <=? r) && (r <=? 190)).

(* ================================================================== *)
(** * package strings *)

(** strings.TrimLeftFunc, TrimRightFunc, TrimFunc. *)
Fixpoint TrimLeftFunc (f : rune -> bool) (s : gostring) : gostring :=
  match s with
  | [] => []
  | c :: t => if f c then TrimLeftFunc f t else s
  end.

Definition TrimRightFunc (f : rune -> bool) (s : gostring) : gostring :=
  rev (TrimLeftFunc f (rev s)).

Definition TrimFunc (f : rune -> bool) (s : gostring) : gostring :=
  TrimRightFunc f (TrimLeftFunc f s).

(** strings.TrimSpace. *)
Definition TrimSpace (s : gostring) : gostring := TrimFunc unicode_IsSpace s.

(** strings.FieldsFunc: [cur] is the field being read, kept reversed. *)
Fixpoint fieldsFrom (f : rune -> bool) (cur : gostring) (s : gostring)
  : list gostring :=
  match s with
  | [] => match cur with [] => [] | _ => [rev cur] end
  | c :: t =>
      if f c then
        match cur with
        | [] => fieldsFrom f [] t
        | _ => rev cur :: fieldsFrom f [] t
        end
      else fieldsFrom f (c :: cur) t
  end.

(** strings.Fields. *)
Definition Fields (s : gostring) : list gostring :=
  fieldsFrom unicode_IsSpace [] s.

(** strings.Join. *)
Fixpoint Join (elems : list gostring) (sep : gostring) : gostring :=
  match elems with
  | [] => []
  | [e] => e
  | e :: rest => e ++ sep ++ Join rest sep
  end.

(** strings.IndexAny: position of the first code point of [s] that occurs
    in [chars], or -1. *)
Fixpoint IndexAny (s chars : gostring) : Z :=
  match s with
  | [] => -1
  | c :: t =>
      if existsb (Z.eqb c) chars then 0
      else let i := IndexAny t chars in if i <? 0 then -1 else i + 1
  end.

(** strings.Split for a separator of one code point. *)
Fixpoint splitFrom (sep : rune) (cur : gostring) (s : gostring)
  : list gostring :=
  match s with
  | [] => [rev cur]
  | c :: t =>
      if c =? sep then rev cur :: splitFrom sep [] t
      else splitFrom sep (c :: cur) t
  end.

Definition Split (s : gostring) (sep : rune) : list gostring :=
  splitFrom sep [] s.

(** The slice expression s[:n]. *)
Definition slicePrefix {A} (s : list A) (n : Z) : list A :=
  firstn (Z.to_nat n) s.

(** len(s) as an int. *)
Definition len {A} (s : list A) : Z := Z.of_nat (length s).

(* ================================================================== *)
(** * package regexp, for the three patterns of the repository

    A pattern is given by its matcher: the length of the leftmost-first
    match that starts at the head of the input, if there is one. None of
    the three patterns matches the empty string. *)

Definition matcher := gostring -> option nat.

(** \s of RE2: [\t\n\f\r ]. *)
Definition re_space (r : rune) : bool :=
  (r =? 9) || (r =? 10) || (r =? 12) || (r =? 13) || (r =? 32).

(** Length of the longest prefix whose code points satisfy [p]. *)
Fixpoint spanLen (p : rune -> bool) (s : gostring) : nat :=
  match s with
  | [] => O
  | c :: t => if p c then S (spanLen p t) else O
  end.

(** A class repeated with [+]. *)
Definition plusClass (p : rune -> bool) : matcher :=
  fun s => match spanLen p s with O => None | n => Some n end.

(** Does [lit] start [s]? Then the rest of [s]. *)
Fixpoint stripPrefix (lit s : gostring) : option gostring :=
  match lit, s with
  | [], _ => Some s
  | _ :: _, [] => None
  | a :: lit', c :: t => if a =? c then stripPrefix lit' t else None
  end.

(** Regexp.ReplaceAllString: [skip] counts the code points of the current
    match that are still to be dropped. *)
Fixpoint replaceAllFrom (m : matcher) (repl : gostring) (skip : nat)
  (s : gostring) : gostring :=
  match s with
  | [] => []
  | c :: t =>
      match skip with
      | S k => replaceAllFrom m repl k t
      | O =>
          match m s with
          | Some (S k) => repl ++ replaceAllFrom m repl k t
          | _ => c :: replaceAllFrom m repl O t
          end
      end
  end.

Definition ReplaceAllString (m : matcher) (s repl : gostring) : gostring :=
  replaceAllFrom m repl O s.

(** Regexp.FindAllString(s, -1). *)
Fixpoint findAllFrom (m : matcher) (skip : nat) (s : gostring)
  : list gostring :=
  match s with
  | [] => []
  | c :: t =>
      match skip with
      | S k => findAllFrom m k t
      | O =>
          match m s with
          | Some (S k) => firstn (S k) s :: findAllFrom m k t
          | _ => findAllFrom m O t
          end
      end
  end.

Definition FindAllString (m : matcher) (s : gostring) : list gostring :=
  findAllFrom m O s.

(** urlRegex = https?://[^\s]+ *)
Definition urlRegex : matcher := fun s =>
  match stripPrefix (str "http") s with
  | None => None
  | Some r1 =>
      let r2 := match r1 with
                | c :: t => if c =? 115 then t else r1
                | [] => r1
                end in
      match stripPrefix (str "://") r2 with
      | None => None
      | Some r3 =>
          match spanLen (fun c => negb (re_space c)) r3 with
          | O => None
          | n => Some (length s - length r3 + n)%nat
          end
      end
  end.

(** whitespace = \s+ *)
Definition whitespace : matcher := plusClass re_space.

(* ================================================================== *)
(** * Data model *)

(** time.Time: an instant and the offset of its location. *)
Record Time := mkTime { unixNano : Z; zoneOffset : Z }.

(** The wire shape read from the log (worker/main.go). *)
Record rawNews := mkRawNews {
  Title : gostring;
  Text : gostring;
  Timestamp : gostring;
  Source : gostring
}.

(** models.NewsDocument. *)
Record NewsDocument := mkDoc {
  doc_ID : gostring;
  doc_Title : gostring;
  doc_Text : gostring;
  doc_Timestamp : Time;
  doc_Keywords : list gostring;
  doc_Source : gostring;
  doc_URLs : list gostring
}.

#[export] Instance Time_eq_dec : EqDecision Time.
Proof. solve_decision. Defined.

#[export] Instance rawNews_eq_dec : EqDecision rawNews.
Proof. solve_decision. Defined.

#[export] Instance NewsDocument_eq_dec : EqDecision NewsDocument.
Proof. solve_decision. Defined.

(** The layouts handed to time.Parse by the repository. *)
Inductive layout := RFC3339Nano | RFC3339 | LegacyLayout.

(** The parts of the Go standard library the code calls and that are kept
    abstract: Unicode tables above Latin-1, case mapping, and parsers. *)
Class GoStdlib := {
  table_L : rune -> bool;
  table_N : rune -> bool;
  unicode_ToLower : rune -> rune;
  html_UnescapeString : gostring -> gostring;
  time_Parse : layout -> gostring -> option Time;
  json_Unmarshal : list Z -> option rawNews
}.

Section Processing.
Context `{GoStdlib}.

(** unicode.IsLetter / \p{L}. *)
Definition unicode_IsLetter (r : rune) : bool :=
  if r <=? 255 then latin1_letter r else table_L r.

(** unicode.IsNumber / \p{N}. *)
Definition unicode_IsNumber (r : rune) : bool :=
  if r <=? 255 then latin1_number r else table_N r.

(** punctuation = [^\p{L}\p{N}\s]+ *)
Definition isPunct (r : rune) : bool :=
  negb (unicode_IsLetter r) && negb (unicode_IsNumber r) && negb (re_space r).

Definition punctuation : matcher := plusClass isPunct.

(** strings.ToLower. *)
Definition ToLower (s : gostring) : gostring := map unicode_ToLower s.

(** The stop-word set of processor.go. *)
Definition stopwords : gset gostring :=
  list_to_set
    [ [1080]; [1074]; [1085; 1072]; [1089]; [1087; 1086]; [1082];
      str "a"; str "an"; str "the"; str "to"; str "in"; str "for";
      [1095; 1090; 1086]; [1082; 1072; 1082]; [1101; 1090; 1086];
      [1080; 1079]; [1086; 1090]; [1076; 1086] ].

(** The loop that drops repeated URLs, keeping first occurrences. *)
Fixpoint dedupeURLs (seen : gset gostring) (matches : list gostring)
  : list gostring :=
  match matches with
  | [] => []
  | url :: rest =>
      if bool_decide (url ∈ seen) then dedupeURLs seen rest
      else url :: dedupeURLs ({[url]} ∪ seen) rest
  end.

(** ExtractURLs extracts all HTTP(S) URLs from the input text. *)
Definition ExtractURLs (input : gostring) : list gostring :=
  if isEmpty input then []
  else
    let matches := FindAllString urlRegex input in
    if isEmpty matches then [] else dedupeURLs ∅ matches.

(** RemoveURLs removes all URLs from the input text. *)
Definition RemoveURLs (input : gostring) : gostring :=
  ReplaceAllString urlRegex input (str " ").

(** CleanText strips HTML entities, punctuation, squeezes whitespace, and
    removes URLs. *)
Definition CleanText (input : gostring) : gostring :=
  if isEmpty input then []
  else
    let decoded := html_UnescapeString input in
    let decoded := RemoveURLs decoded in
    let decoded := ReplaceAllString punctuation decoded (str " ") in
    let decoded := ReplaceAllString whitespace decoded (str " ") in
    TrimSpace decoded.

(** The token as it is counted: trimmed of code points that are neither
    letters nor numbers. *)
Definition trimToken (token : gostring) : gostring :=
  TrimFunc (fun r => negb (unicode_IsLetter r) && negb (unicode_IsNumber r))
    token.

(** The counting loop of ExtractKeywords over the fields of the text. *)
Fixpoint countTokens (minLen : Z) (freq : gmap gostring Z)
  (tokens : list gostring) : gmap gostring Z :=
  match tokens with
  | [] => freq
  | token :: rest =>
      let token := trimToken token in
      if len token <? minLen then countTokens minLen freq rest
      else if bool_decide (token ∈ stopwords) then countTokens minLen freq rest
      else countTokens minLen
             (<[token := default 0 (freq !! token) + 1]> freq) rest
  end.

(** The comparison handed to sort.Slice: count descending, word
    ascending. *)
Definition kvLess (p q : gostring * Z) : bool :=
  if p.2 =? q.2 then strLt p.1 q.1 else p.2 >? q.2.

(** The order sort.Slice establishes: no element is followed by one that
    is less than it. The keys of a map are distinct, so [kvLess] is total
    on the pairs and the sorted sequence does not depend on the iteration
    order of the map. *)
Definition kvOrder (p q : gostring * Z) : Prop := kvLess q p = false.

#[export] Instance kvOrder_dec p q : Decision (kvOrder p q).
Proof. unfold kvOrder. apply _. Defined.

(** ExtractKeywords returns the most frequent words that are not
    stop-words. *)
Definition ExtractKeywords (text : gostring) (limit minLen : Z)
  : list gostring :=
  let clean := ToLower (CleanText text) in
  if isEmpty clean then []
  else
    let freq := countTokens minLen ∅ (Fields clean) in
    if Z.of_nat (size freq) =? 0 then []
    else
      let pairs := merge_sort kvOrder (map_to_list freq) in
      let max := if (limit <=? 0) || (limit >? len pairs)
                 then len pairs else limit in
      map fst (slicePrefix pairs max).

(** GenerateTitleFromText creates a title from the first sentence or
    first N words of text. *)
Definition GenerateTitleFromText (text : gostring) (maxWords : Z)
  : gostring :=
  if isEmpty text then []
  else
    let textWithoutURLs := RemoveURLs text in
    let sentenceEnd := IndexAny textWithoutURLs (str ".!?") in
    let firstSentence :=
      if sentenceEnd >? 0
      then TrimSpace (slicePrefix textWithoutURLs sentenceEnd)
      else textWithoutURLs in
    let words := Fields firstSentence in
    if len words =? 0 then []
    else if (maxWords >? 0) && (len words >? maxWords)
    then Join (slicePrefix words maxWords) (str " ") ++ str "..."
    else Join words (str " ").

End Processing.

(* ================================================================== *)
(** * package time *)

Definition Nanosecond : Z := 1.
Definition Second : Z := 1000000000.
Definition Hour : Z := 3600 * Second.

(** time.Time{}: January 1, year 1, 00:00:00 UTC. *)
Definition zeroTime : Time := mkTime (-62135596800 * Second) 0.

Definition Time_IsZero (t : Time) : bool :=
  unixNano t =? -62135596800 * Second.

Definition Time_UTC (t : Time) : Time := mkTime (unixNano t) 0.

(** Year, month and day of a day number counted from 1970-01-01. *)
Definition civilFromDays (days : Z) : Z * Z * Z :=
  let z := days + 719468 in
  let era := z / 146097 in
  let doe := z - era * 146097 in
  let yoe := (doe - doe / 1460 + doe / 36524 - doe / 146096) / 365 in
  let doy := doe - (365 * yoe + yoe / 4 - yoe / 100) in
  let mp := (5 * doy + 2) / 153 in
  let d := doy - (153 * mp + 2) / 5 + 1 in
  let m := if mp <? 10 then mp + 3 else mp - 9 in
  (yoe + era * 400 + (if m <=? 2 then 1 else 0), m, d).

Definition daysFromCivil (y m d : Z) : Z :=
  let y := if m <=? 2 then y - 1 else y in
  let era := y / 400 in
  let yoe := y - era * 400 in
  let doy := (153 * (if m >? 2 then m - 3 else m + 9) + 2) / 5 + d - 1 in
  let doe := yoe * 365 + yoe / 4 - yoe / 100 + doy in
  era * 146097 + doe - 719468.

(** Decimal digits of a natural number, most significant first. *)
Fixpoint decimalFrom (fuel : nat) (n : Z) (acc : gostring) : gostring :=
  match fuel with
  | O => acc
  | S f =>
      if n <? 10 then (48 + n) :: acc
      else decimalFrom f (n / 10) ((48 + n mod 10) :: acc)
  end.

Definition decimal (n : Z) : gostring :=
  decimalFrom (S (Z.to_nat (Z.log2 n))) n [].

(** appendInt of package time: sign, then zero padding to [width]. *)
Definition appendInt (x : Z) (width : nat) : gostring :=
  let digits := decimal (Z.abs x) in
  (if x <? 0 then str "-" else [])
  ++ repeat 48 (width - length digits) ++ digits.

(** t.Format(time.RFC3339). *)
Definition Format_RFC3339 (t : Time) : gostring :=
  let sec := unixNano t / Second + zoneOffset t in
  let days := sec / 86400 in
  let rem := sec mod 86400 in
  let '(y, m, d) := civilFromDays days in
  let zone :=
    if zoneOffset t =? 0 then str "Z"
    else
      let off := Z.abs (zoneOffset t) / 60 in
      (if zoneOffset t <? 0 then str "-" else str "+")
      ++ appendInt (off / 60) 2 ++ str ":" ++ appendInt (off mod 60) 2 in
  appendInt y 4 ++ str "-" ++ appendInt m 2 ++ str "-" ++ appendInt d 2
  ++ str "T" ++ appendInt (rem / 3600) 2 ++ str ":"
  ++ appendInt (rem mod 3600 / 60) 2 ++ str ":" ++ appendInt (rem mod 60) 2
  ++ zone.

(* ================================================================== *)
(** * crypto/sha1 and encoding/hex *)

Definition mask32 (x : Z) : Z := Z.land x 4294967295.

Definition rotl32 (n : Z) (x : Z) : Z :=
  Z.lor (mask32 (Z.shiftl x n)) (Z.shiftr x (32 - n)).

(** Big-endian word of four bytes, and back. *)
Definition wordOfBytes (b : list Z) : Z :=
  fold_left (fun acc x => Z.lor (Z.shiftl acc 8) x) b 0.

Definition bytesOfWord (w : Z) : list Z :=
  [Z.land (Z.shiftr w 24) 255; Z.land (Z.shiftr w 16) 255;
   Z.land (Z.shiftr w 8) 255; Z.land w 255].

(** The message followed by 0x80, zeros, and its length in bits as eight
    bytes, to a multiple of 64 bytes. *)
Definition sha1_pad (msg : list Z) : list Z :=
  let n := len msg in
  let zeros := (55 - n) mod 64 in
  msg ++ [128] ++ repeat 0 (Z.to_nat zeros)
  ++ bytesOfWord (Z.shiftr (8 * n) 32) ++ bytesOfWord (mask32 (8 * n)).

(** Cut into pieces of [n] elements; [k] bounds the number of pieces. *)
Fixpoint chunks {A} (k : nat) (n : nat) (l : list A) : list (list A) :=
  match k with
  | O => []
  | S k' =>
      match l with
      | [] => []
      | _ => firstn n l :: chunks k' n (skipn n l)
      end
  end.

(** The message schedule: [k] more words after those of [w]. *)
Fixpoint sha1_schedule (k : nat) (w : list Z) : list Z :=
  match k with
  | O => w
  | S k' =>
      let n := length w in
      let g i := nth (n - i) w 0 in
      sha1_schedule k'
        (w ++ [rotl32 1 (Z.lxor (Z.lxor (g 3%nat) (g 8%nat))
                           (Z.lxor (g 14%nat) (g 16%nat)))])
  end.

Definition sha1_state : Type := Z * Z * Z * Z * Z.

Definition sha1_round (st : sha1_state) (iw : nat * Z) : sha1_state :=
  let '(a, b, c, d, e) := st in
  let '(i, w) := iw in
  let '(f, k) :=
    if (i <? 20)%nat then
      (Z.lor (Z.land b c) (Z.land (Z.lxor b 4294967295) d), 1518500249)
    else if (i <? 40)%nat then (Z.lxor (Z.lxor b c) d, 1859775393)
    else if (i <? 60)%nat then
      (Z.lor (Z.lor (Z.land b c) (Z.land b d)) (Z.land c d), 2400959708)
    else (Z.lxor (Z.lxor b c) d, 3395469782) in
  (mask32 (rotl32 5 a + f + e + k + w), a, rotl32 30 b, c, d).

Definition sha1_block (h : sha1_state) (block : list Z) : sha1_state :=
  let w := sha1_schedule 64 (map wordOfBytes (chunks 16 4 block)) in
  let '(a, b, c, d, e) := fold_left sha1_round (combine (seq 0 80) w) h in
  let '(h0, h1, h2, h3, h4) := h in
  (mask32 (h0 + a), mask32 (h1 + b), mask32 (h2 + c), mask32 (h3 + d),
   mask32 (h4 + e)).

(** sha1.Sum. *)
Definition sha1_Sum (data : list Z) : list Z :=
  let padded := sha1_pad data in
  let '(h0, h1, h2, h3, h4) :=
    fold_left sha1_block (chunks (length padded) 64 padded)
      (1732584193, 4023233417, 2562383102, 271733878, 3285377520) in
  bytesOfWord h0 ++ bytesOfWord h1 ++ bytesOfWord h2 ++ bytesOfWord h3
  ++ bytesOfWord h4.

Definition hextable : gostring := str "0123456789abcdef".

(** hex.EncodeToString. *)
Definition hex_EncodeToString (src : list Z) : gostring :=
  flat_map (fun v => [nth (Z.to_nat (Z.shiftr v 4)) hextable 48;
                      nth (Z.to_nat (Z.land v 15)) hextable 48]) src.

(** BuildDocumentID hashes the most stable fields to form deterministic
    IDs. *)
Definition BuildDocumentID (title text : gostring) (ts : Time) : gostring :=
  let s := sha1_Sum (utf8_encode (title ++ str "|" ++ text ++ str "|"
                                  ++ Format_RFC3339 (Time_UTC ts))) in
  hex_EncodeToString s.

(* ================================================================== *)
(** * package dedupe *)

(** An entry of the history: the key and the instant it was marked. *)
Record entry := mkEntry { key : gostring; ts : Z }.

#[export] Instance entry_eq_dec : EqDecision entry.
Proof. solve_decision. Defined.

(** Cache keeps a fixed-size set of recently processed document hashes. *)
Record Cache := mkCache {
  items : gmap gostring Z;
  order : list entry;
  capacity : Z;
  ttl : Z
}.

(** NewCache creates a cache with the provided capacity and ttl. *)
Definition NewCache (capacity ttl : Z) : Cache :=
  let capacity := if capacity <=? 0 then 1 else capacity in
  let ttl := if ttl <=? 0 then Hour else ttl in
  mkCache ∅ [] capacity ttl.

(** IsSeen returns true when the key has already been observed inside
    the ttl window; [now] is the reading of time.Now(). *)
Definition IsSeen (c : Cache) (now : Z) (k : gostring) : bool :=
  match items c !! k with
  | Some t => if now - t <=? ttl c then true else false
  | None => false
  end.

(** The loop of compact: drop the oldest history entry while the map is
    over capacity or that entry is older than the cutoff. *)
Fixpoint compactLoop (capacity cutoff : Z) (items : gmap gostring Z)
  (order : list entry) : gmap gostring Z * list entry :=
  match order with
  | [] => (items, [])
  | oldest :: rest =>
      if (Z.of_nat (size items) >? capacity) || (ts oldest <? cutoff) then
        let items' :=
          match items !! key oldest with
          | Some t =>
              if t =? ts oldest then delete (key oldest) items else items
          | None => items
          end in
        compactLoop capacity cutoff items' rest
      else (items, order)
  end.

Definition compact (c : Cache) (now : Z) : Cache :=
  let cutoff := now - ttl c in
  let '(items', order') := compactLoop (capacity c) cutoff (items c) (order c) in
  mkCache items' order' (capacity c) (ttl c).

(** MarkSeen records that a key has been processed. *)
Definition MarkSeen (c : Cache) (now : Z) (k : gostring) : Cache :=
  let c1 := mkCache (<[k := now]> (items c))
                    (order c ++ [mkEntry k now]) (capacity c) (ttl c) in
  compact c1 now.

(** A call on the cache, and a run of calls against the successive
    readings of the clock. *)
Inductive call := CallMarkSeen (k : gostring) | CallIsSeen (k : gostring).

Definition stepCache (c : Cache) (now : Z) (op : call) : Cache :=
  match op with
  | CallMarkSeen k => MarkSeen c now k
  | CallIsSeen _ => c
  end.

Fixpoint runCache (clock : nat -> Z) (tick : nat) (c : Cache)
  (ops : list call) : Cache :=
  match ops with
  | [] => c
  | op :: rest => runCache clock (S tick) (stepCache c (clock tick) op) rest
  end.

(* ================================================================== *)
(** * The worker *)

(** config.Worker, the fields processMessage reads. *)
Record Worker := mkWorker {
  KeywordLimit : Z;
  KeywordMinLength : Z
}.

(** The errors processMessage returns. *)
Inductive error :=
| ErrUnmarshal
| ErrEmptyPayload
| ErrIndex (reason : gostring).

(** The capability the worker consumes from the index client. *)
Class newsIndexer (I : Type) := IndexNews : I -> NewsDocument -> I * option error.

(** The test double of the worker's tests: it records the documents. *)
#[export] Instance stubIndexer : newsIndexer (list NewsDocument) :=
  fun s doc => (s ++ [doc], None).

(** What a run of the worker touches: the clock and the UUID source (the
    number of readings taken from each), the dedupe cache, the index
    client, and the trace of IndexNews calls made. *)
Record World (I : Type) := mkWorld {
  ticks : nat;
  uuidsDrawn : nat;
  cache : Cache;
  es : I;
  indexCalls : list NewsDocument
}.
Arguments mkWorld {I}.
Arguments ticks {I}.
Arguments uuidsDrawn {I}.
Arguments cache {I}.
Arguments es {I}.
Arguments indexCalls {I}.

(** Computations over the world. *)
Definition M (I A : Type) : Type := World I -> A * World I.

Definition ret {I A} (a : A) : M I A := fun w => (a, w).

Definition bind {I A B} (m : M I A) (k : A -> M I B) : M I B :=
  fun w => let '(a, w') := m w in k a w'.

Notation "'let*' x ':=' m 'in' k" := (bind m (fun x => k))
  (at level 10, x name, m at level 100, k at level 200).

Section Worker.
Context `{GoStdlib}.
Context {I : Type} `{newsIndexer I}.

(** The readings of time.Now() and the values of uuid.NewString(), in
    the order they are taken. *)
Variable clock : nat -> Z.
Variable uuids : nat -> gostring.

Definition time_Now : M I Z := fun w =>
  (clock (ticks w),
   mkWorld (S (ticks w)) (uuidsDrawn w) (cache w) (es w) (indexCalls w)).

Definition uuid_NewString : M I gostring := fun w =>
  (uuids (uuidsDrawn w),
   mkWorld (ticks w) (S (uuidsDrawn w)) (cache w) (es w) (indexCalls w)).

Definition cache_IsSeen (k : gostring) : M I bool :=
  let* now := time_Now in
  fun w => (IsSeen (cache w) now k, w).

Definition cache_MarkSeen (k : gostring) : M I unit :=
  let* now := time_Now in
  fun w => (tt, mkWorld (ticks w) (uuidsDrawn w) (MarkSeen (cache w) now k)
                  (es w) (indexCalls w)).

Definition esClient_IndexNews (doc : NewsDocument) : M I (option error) :=
  fun w =>
    let '(es', err) := IndexNews (es w) doc in
    (err, mkWorld (ticks w) (uuidsDrawn w) (cache w) es'
            (indexCalls w ++ [doc])).

(** The loop of parseTimestamp over the layouts. *)
Fixpoint parseFormats (formats : list layout) (raw : gostring) : Time :=
  match formats with
  | [] => zeroTime
  | f :: rest =>
      match time_Parse f raw with
      | Some t => t
      | None => parseFormats rest raw
      end
  end.

Definition parseTimestamp (raw : gostring) : Time :=
  let raw := TrimSpace raw in
  if isEmpty raw then zeroTime
  else parseFormats [RFC3339Nano; RFC3339; LegacyLayout] raw.

(** processMessage, from the decoded payload on. *)
Definition processPayload (cfg : Worker) (payload : rawNews)
  : M I (option error) :=
  let title := TrimSpace (Title payload) in
  let text := TrimSpace (Text payload) in
  let urls := ExtractURLs text in
  if isEmpty title && isEmpty text then ret (Some ErrEmptyPayload)
  else
    let title :=
      if isEmpty title && negb (isEmpty text)
      then GenerateTitleFromText text 10 else title in
    let ts := parseTimestamp (Timestamp payload) in
    let* ts := (if Time_IsZero ts
                then let* now := time_Now in ret (Time_UTC (mkTime now 0))
                else ret ts) in
    let cleanedText := CleanText text in
    let keywords :=
      ExtractKeywords (title ++ str " " ++ cleanedText)
        (KeywordLimit cfg) (KeywordMinLength cfg) in
    let source := TrimSpace (Source payload) in
    let source := if isEmpty source then str "unknown" else source in
    let doc := mkDoc (BuildDocumentID title cleanedText ts) title text ts
                 keywords source urls in
    let* doc := (if isEmpty (doc_ID doc)
                 then let* id := uuid_NewString in
                      ret (mkDoc id title text ts keywords source urls)
                 else ret doc) in
    let* seen := cache_IsSeen (doc_ID doc) in
    if seen then ret None
    else
      let* err := esClient_IndexNews doc in
      match err with
      | Some e => ret (Some e)
      | None => let* _ := cache_MarkSeen (doc_ID doc) in ret None
      end.

(** processMessage on the value of a Kafka message. *)
Definition processMessage (cfg : Worker) (value : list Z)
  : M I (option error) :=
  match json_Unmarshal value with
  | None => ret (Some ErrUnmarshal)
  | Some payload => processPayload cfg payload
  end.

End Worker.

(* ================================================================== *)
(** * package elasticsearch: the query compiler *)

(** The values the request body is built from: [map[string]any] and the
    slices and scalars stored in it. *)
#[warnings="-register-all"]
Inductive any :=
| AInt (n : Z)
| ABool (b : bool)
| AString (s : gostring)
| AStrings (l : list gostring)
| AMap (m : gmap gostring any)
| AMaps (l : list (gmap gostring any)).

(** SearchParams narrow the search endpoint query. *)
Record SearchParams := mkParams {
  Query : gostring;
  Keywords : list gostring;
  Source_ : gostring;
  From : Z;
  Size : Z;
  Sort : gostring;
  Start : option Time;
  End_ : option Time
}.

(** SearchResult bundles hits and total count. *)
Record SearchResult := mkResult {
  Total : Z;
  Items : list NewsDocument
}.

Definition normSize (size : Z) : Z :=
  let size := if size <=? 0 then 20 else size in
  if size >? 200 then 200 else size.

Definition normFrom (from : Z) : Z := if from <? 0 then 0 else from.

Definition mustClauses (params : SearchParams) : list (gmap gostring any) :=
  if negb (isEmpty (Query params)) then
    [ {[ str "multi_match" :=
           AMap (<[ str "query" := AString (Query params) ]>
                 {[ str "fields" := AStrings [str "title^2"; str "text"] ]}) ]} ]
  else [].

Definition rangeQuery (params : SearchParams) : gmap gostring any :=
  let rq : gmap gostring any := ∅ in
  let rq := match Start params with
            | Some t => <[ str "gte" := AString (Format_RFC3339 (Time_UTC t)) ]> rq
            | None => rq
            end in
  match End_ params with
  | Some t => <[ str "lte" := AString (Format_RFC3339 (Time_UTC t)) ]> rq
  | None => rq
  end.

Definition filterClauses (params : SearchParams) : list (gmap gostring any) :=
  let filters : list (gmap gostring any) := [] in
  let filters :=
    if len (Keywords params) >? 0 then
      filters ++ [ {[ str "terms" :=
                        AMap {[ str "keywords" := AStrings (Keywords params) ]} ]} ]
    else filters in
  let filters :=
    if negb (isEmpty (Source_ params)) then
      filters ++ [ {[ str "term" :=
                        AMap {[ str "source" := AString (Source_ params) ]} ]} ]
    else filters in
  if bool_decide (Start params ≠ None) || bool_decide (End_ params ≠ None) then
    filters ++ [ {[ str "range" :=
                      AMap {[ str "timestamp" := AMap (rangeQuery params) ]} ]} ]
  else filters.

Definition boolQuery (params : SearchParams) : gmap gostring any :=
  let must := mustClauses params in
  let filters := filterClauses params in
  let bq : gmap gostring any := ∅ in
  let bq := if len must >? 0 then <[ str "must" := AMaps must ]> bq else bq in
  let bq := if len filters >? 0
            then <[ str "filter" := AMaps filters ]> bq else bq in
  if (len must =? 0) && (len filters =? 0)
  then <[ str "must" := AMaps [ {[ str "match_all" := AMap ∅ ]} ] ]> bq
  else bq.

Definition sortDescriptor (sort : gostring) : gmap gostring any :=
  let sortField := if isEmpty sort then str "timestamp:desc" else sort in
  let parts := Split sortField 58 in
  let field := nth 0 parts [] in
  let field := if isEmpty field then str "timestamp" else field in
  let order :=
    if (len parts >? 1) && negb (isEmpty (nth 1 parts []))
    then nth 1 parts [] else str "desc" in
  {[ field := AMap {[ str "order" := AString order ]} ]}.

(** The request body SearchNews marshals and sends. *)
Definition searchBody (params : SearchParams) : gmap gostring any :=
  let body : gmap gostring any :=
    <[ str "from" := AInt (normFrom (From params)) ]>
    (<[ str "size" := AInt (normSize (Size params)) ]>
    (<[ str "track_total_hits" := ABool true ]>
    {[ str "query" := AMap {[ str "bool" := AMap (boolQuery params) ]} ]})) in
  <[ str "sort" := AMaps [sortDescriptor (Sort params)] ]> body.

(** The response of the index to a search request. *)
Record esResponse := mkResponse {
  resp_IsError : bool;
  resp_Body : list Z
}.

(** The failures SearchNews reports. *)
Inductive searchError :=
| ErrSearch
| ErrSearchFailed (body : list Z)
| ErrDecode.

Section Search.

(** The index behind the client: the transport ([None] when the request
    fails) and the decoding of a response body into total and items. *)
Variable es_Search : gmap gostring any -> option esResponse.
Variable decodeHits : list Z -> option SearchResult.

(** SearchNews executes a bool query with optional filters. *)
Definition SearchNews (params : SearchParams) : searchError + SearchResult :=
  match es_Search (searchBody params) with
  | None => inl ErrSearch
  | Some res =>
      if resp_IsError res then inl (ErrSearchFailed (resp_Body res))
      else match decodeHits (resp_Body res) with
           | None => inl ErrDecode
           | Some result => inr result
           end
  end.

(* ================================================================== *)
(** * The API handler *)

(** strconv.Atoi: an optional sign and decimal digits, within int64. *)
Definition isDigit (c : rune) : bool := (48 <=? c) && (c <=? 57).

Definition Atoi (s : gostring) : option Z :=
  let '(neg, digits) :=
    match s with
    | c :: t => if c =? 45 then (true, t)
                else if c =? 43 then (false, t) else (false, s)
    | [] => (false, [])
    end in
  if isEmpty digits || negb (forallb isDigit digits) then None
  else
    let v := fold_left (fun acc d => acc * 10 + (d - 48)) digits 0 in
    let v := if neg then - v else v in
    if (v <? - 2 ^ 63) || (v >? 2 ^ 63 - 1) then None else Some v.

Definition clampInt (raw : gostring) (fallback max : Z) : Z :=
  if isEmpty raw then fallback
  else match Atoi raw with
       | None => fallback
       | Some value =>
           if value <=? 0 then fallback
           else if value >? max then max
           else value
       end.

(** The loop of parseCSV over the parts. *)
Fixpoint keepTrimmed (parts : list gostring) : list gostring :=
  match parts with
  | [] => []
  | part :: rest =>
      let trimmed := TrimSpace part in
      if negb (isEmpty trimmed) then trimmed :: keepTrimmed rest
      else keepTrimmed rest
  end.

Definition parseCSV (raw : gostring) : list gostring :=
  if isEmpty raw then [] else keepTrimmed (Split raw 44).

(** config.API, the fields the handler reads. *)
Record API := mkAPI {
  DefaultPage : Z;
  MaxPage : Z
}.

(** url.Values.Get: the first value of the key, or the empty string. *)
Fixpoint Get (query : list (gostring * gostring)) (name : gostring)
  : gostring :=
  match query with
  | [] => []
  | (k, v) :: rest => if strEq k name then v else Get rest name
  end.

Definition StatusOK : Z := 200.
Definition StatusInternalServerError : Z := 500.

Context `{GoStdlib}.

Definition parseTime (raw : gostring) : option Time :=
  let raw := TrimSpace raw in
  if isEmpty raw then None
  else time_Parse RFC3339 raw.

(** The SearchParams handleSearch builds from the query string. *)
Definition searchParams (cfg : API) (query : list (gostring * gostring))
  : SearchParams :=
  let q := TrimSpace (Get query (str "q")) in
  let keywords := parseCSV (Get query (str "keywords")) in
  let source := TrimSpace (Get query (str "source")) in
  let from := clampInt (Get query (str "from")) 0 10000 in
  let size := clampInt (Get query (str "size")) (DefaultPage cfg) (MaxPage cfg) in
  let sort := TrimSpace (Get query (str "sort")) in
  let start := parseTime (Get query (str "start")) in
  let end_ := parseTime (Get query (str "end")) in
  mkParams q keywords source from size sort start end_.

(** handleSearch: the status written and the payload encoded. *)
Definition handleSearch (cfg : API) (query : list (gostring * gostring))
  : Z * (searchError + SearchResult) :=
  match SearchNews (searchParams cfg query) with
  | inl err => (StatusInternalServerError, inl err)
  | inr result => (StatusOK, inr result)
  end.

End Search.

(* ================================================================== *)
(** * The worker: the consumer loop *)

(** kafka.Header and the fields of kafka.Message the worker touches. *)
Record Header := mkHeader { hdr_Key : gostring; hdr_Value : list Z }.

Record Message := mkMessage {
  msg_Value : list Z;
  msg_Headers : list Header;
  msg_Partition : Z;
  msg_Offset : Z
}.

(** fmt.Sprintf("%d", n). *)
Definition Sprintf_d (n : Z) : gostring :=
  (if n <? 0 then str "-" else []) ++ decimal (Z.abs n).

(** The message handed to the dead-letter writer: the value as it came,
    and four headers after those of the message. *)
Definition dlqMessage (msg : Message) (errText : gostring) (now : Z)
  : Message :=
  mkMessage (msg_Value msg)
    (msg_Headers msg
     ++ [mkHeader (str "original_partition")
           (utf8_encode (Sprintf_d (msg_Partition msg)));
         mkHeader (str "original_offset")
           (utf8_encode (Sprintf_d (msg_Offset msg)));
         mkHeader (str "error") (utf8_encode errText);
         mkHeader (str "timestamp")
           (utf8_encode (Format_RFC3339 (Time_UTC (mkTime now 0))))])
    0 0.

(** How the retry loop over the dead-letter writer ends. *)
Inductive dlqOutcome := DlqDelivered | DlqExhausted | DlqCancelled.

Record dlqRun := mkDlqRun {
  dlq_writes : nat;
  dlq_sleeps : list Z;
  dlq_outcome : dlqOutcome
}.

(** The loop [for attempt := range 5]: [writeOk attempt] tells whether
    WriteMessages succeeds at that attempt, [cancelled attempt] whether
    the context is done before the backoff after it has elapsed. *)
Fixpoint dlqRetry (writeOk cancelled : nat -> bool) (attempts : list nat)
  : dlqRun :=
  match attempts with
  | [] => mkDlqRun 0 [] DlqExhausted
  | attempt :: rest =>
      if writeOk attempt then mkDlqRun 1 [] DlqDelivered
      else
        let backoff := Z.shiftl 1 (Z.of_nat attempt) * Second in
        if cancelled attempt then mkDlqRun 1 [] DlqCancelled
        else
          let run := dlqRetry writeOk cancelled rest in
          mkDlqRun (S (dlq_writes run)) (backoff :: dlq_sleeps run)
            (dlq_outcome run)
  end.

(** What reader.FetchMessage comes back with: a message, the error
    context.Canceled, or another error. *)
Inductive fetched :=
| Fetched (msg : Message)
| FetchCanceled
| FetchFailed.

(** What one turn of the consumer loop does: the dead-letter message and
    the run of its writes if there were any, whether CommitMessages is
    called, and whether the loop goes on. *)
Record turn := mkTurn {
  turn_dlq : option (Message * dlqRun);
  turn_commit : bool;
  turn_continue : bool
}.

Section ConsumerLoop.
Context `{GoStdlib}.
Context {I : Type} `{newsIndexer I}.
Variable clock : nat -> Z.
Variable uuids : nat -> gostring.

(** err.Error() of the errors processMessage returns. *)
Variable errorText : error -> gostring.

(** The body of the loop of main: one turn, from FetchMessage on. *)
Definition consumerTurn (cfg : Worker) (fetch : fetched)
  (writeOk cancelled : nat -> bool) : M I turn :=
  match fetch with
  | FetchCanceled => ret (mkTurn None false false)
  | FetchFailed => ret (mkTurn None false true)
  | Fetched msg =>
      let* err := processMessage clock uuids cfg (msg_Value msg) in
      match err with
      | None => ret (mkTurn None true true)
      | Some e =>
          let* now := time_Now clock in
          let dlqMsg := dlqMessage msg (errorText e) now in
          let run := dlqRetry writeOk cancelled (seq 0 5) in
          match dlq_outcome run with
          | DlqDelivered => ret (mkTurn (Some (dlqMsg, run)) true true)
          | DlqExhausted => ret (mkTurn (Some (dlqMsg, run)) false true)
          | DlqCancelled => ret (mkTurn (Some (dlqMsg, run)) false false)
          end
      end
  end.

End ConsumerLoop.

(* ================================================================== *)
(** * package elasticsearch: DeleteOlderThan *)

(** What one delete_by_query round comes back with. *)
Inductive deleteReply :=
| DeleteTransportError
| DeleteErrorResponse (body : list Z)
| DeleteUndecodable
| Deleted (n : Z).

(** The body of a delete_by_query request. *)
Definition deleteBody (cutoff : gostring) : gmap gostring any :=
  {[ str "query" :=
       AMap {[ str "range" :=
                 AMap {[ str "timestamp" :=
                           AMap {[ str "lte" := AString cutoff ]} ]} ]} ]}.

(** An int64 with its wrap-around, and the values of the type. *)
Definition int64 (z : Z) : Z := (z + 2 ^ 63) mod 2 ^ 64 - 2 ^ 63.

Definition isInt64 (z : Z) : Prop := - 2 ^ 63 <= z < 2 ^ 63.

(** -d for a time.Duration d, an int64: the negation wraps, so the
    minimum is its own negation. *)
Definition negDuration (d : Z) : Z := if d =? - 2 ^ 63 then d else - d.

(** time.Now().Add(-maxAge).UTC().Format(time.RFC3339). *)
Definition deleteCutoff (now maxAge : Z) : gostring :=
  Format_RFC3339 (Time_UTC (mkTime (now + negDuration maxAge) 0)).

(** The result of DeleteOlderThan: the total, the error if any, and the
    number of requests made. *)
Record deleteResult := mkDeleteResult {
  del_total : Z;
  del_error : option deleteReply;
  del_requests : nat
}.

Section DeleteOlderThan.

(** The index: what the request of a round, with its body and scroll
    size, comes back with. *)
Variable es_DeleteByQuery : nat -> gmap gostring any -> Z -> deleteReply.

(** The loop of DeleteOlderThan; it has no bound of its own, [fuel]
    bounds the rounds. [totalDeleted] is an int64 and [deleted] the int64
    the response decodes to: the sum wraps. *)
Fixpoint deleteLoop (fuel : nat) (cutoff : gostring) (batchSize : Z)
  (round : nat) (totalDeleted : Z) : option deleteResult :=
  match fuel with
  | O => None
  | S fuel' =>
      match es_DeleteByQuery round (deleteBody cutoff) batchSize with
      | Deleted deleted =>
          let totalDeleted := int64 (totalDeleted + deleted) in
          if deleted <? batchSize
          then Some (mkDeleteResult totalDeleted None (S round))
          else deleteLoop fuel' cutoff batchSize (S round) totalDeleted
      | failure =>
          Some (mkDeleteResult totalDeleted (Some failure) (S round))
      end
  end.

(** DeleteOlderThan removes documents older than ttl using batched
    delete-by-query; [now] is the reading of time.Now(). *)
Definition DeleteOlderThan (fuel : nat) (now : Z) (maxAge : Z)
  (batchSize : Z) : option deleteResult :=
  let batchSize := if batchSize <=? 0 then 1000 else batchSize in
  let cutoff := deleteCutoff now maxAge in
  deleteLoop fuel cutoff batchSize 0 0.

End DeleteOlderThan.

(* ================================================================== *)
(** * package config *)

(** The environment: os.LookupEnv. *)
Definition environ := gostring -> option gostring.

Definition getEnv (env : environ) (key fallback : gostring) : gostring :=
  match env key with
  | Some v => if negb (isEmpty v) then v else fallback
  | None => fallback
  end.

Definition getInt (env : environ) (key : gostring) (fallback : Z) : Z :=
  match env key with
  | Some v =>
      if negb (isEmpty v) then
        match Atoi v with
        | Some parsed => parsed
        | None => fallback
        end
      else fallback
  | None => fallback
  end.

Definition splitAndTrim (raw : gostring) : list gostring :=
  keepTrimmed (Split raw 44).

(** The errors the loaders return. *)
Inductive configError :=
| ErrNoBrokers
| ErrBatchSize
| ErrDedupeCapacity
| ErrKeywordLimit
| ErrKeywordMinLen
| ErrPageSize
| ErrMaxPageSize
| ErrPageExceedsMax
| ErrMaxAge
| ErrInterval
| ErrRetentionBatchSize.

(** LoadAPI builds an API config from environment variables. *)
Definition LoadAPI (env : environ) : configError + API :=
  let c := mkAPI (getInt env (str "API_PAGE_SIZE") 20)
                 (getInt env (str "API_MAX_PAGE_SIZE") 100) in
  if DefaultPage c <=? 0 then inl ErrPageSize
  else if MaxPage c <=? 0 then inl ErrMaxPageSize
  else if DefaultPage c >? MaxPage c then inl ErrPageExceedsMax
  else inr c.

(** config.Worker in full: the fields processMessage reads, and those
    main reads. *)
Record WorkerSettings := mkWorkerSettings {
  ElasticsearchAddr : gostring;
  ElasticsearchIndex : gostring;
  KafkaBrokers : list gostring;
  KafkaTopic : gostring;
  KafkaConsumer : gostring;
  processing : Worker;
  DedupeCapacity : Z;
  DedupeTTL : Z;
  BatchSize : Z;
  CommitInterval : Z
}.

(** config.Retention. *)
Record Retention := mkRetention {
  Interval : Z;
  MaxAge : Z;
  RetentionBatchSize : Z
}.

Section Durations.

(** time.ParseDuration. *)
Variable time_ParseDuration : gostring -> option Z.

(** getDuration; [None] is the panic on a fallback that does not
    parse. *)
Definition getDuration (env : environ) (key fallback : gostring)
  : option Z :=
  match time_ParseDuration (getEnv env key fallback) with
  | Some d => Some d
  | None => time_ParseDuration fallback
  end.

(** LoadWorker builds a Worker config from environment variables. *)
Definition LoadWorker (env : environ)
  : option (configError + WorkerSettings) :=
  ttl ← getDuration env (str "WORKER_DEDUPE_TTL") (str "24h");
  commit ← getDuration env (str "WORKER_COMMIT_INTERVAL") (str "2s");
  let c :=
    mkWorkerSettings
      (getEnv env (str "ELASTICSEARCH_ADDR") (str "http://elasticsearch:9200"))
      (getEnv env (str "ELASTICSEARCH_INDEX") (str "news"))
      (splitAndTrim (getEnv env (str "KAFKA_BROKERS") (str "kafka:9092")))
      (getEnv env (str "KAFKA_TOPIC") (str "news_raw"))
      (getEnv env (str "KAFKA_CONSUMER_GROUP") (str "news-worker"))
      (mkWorker (getInt env (str "WORKER_KEYWORD_LIMIT") 8)
                (getInt env (str "WORKER_KEYWORD_MIN_LEN") 4))
      (getInt env (str "WORKER_DEDUPE_CAPACITY") 20000)
      ttl
      (getInt env (str "WORKER_BATCH_SIZE") 10)
      commit in
  Some (if len (KafkaBrokers c) =? 0 then inl ErrNoBrokers
        else if BatchSize c <=? 0 then inl ErrBatchSize
        else if DedupeCapacity c <=? 0 then inl ErrDedupeCapacity
        else if KeywordLimit (processing c) <=? 0 then inl ErrKeywordLimit
        else if KeywordMinLength (processing c) <? 0 then inl ErrKeywordMinLen
        else inr c).

(** LoadRetention builds a Retention config from environment
    variables. *)
Definition LoadRetention (env : environ) : option (configError + Retention) :=
  interval ← getDuration env (str "RETENTION_CRON") (str "24h");
  maxAge ← getDuration env (str "RETENTION_MAX_AGE") (str "168h");
  let c := mkRetention interval maxAge
             (getInt env (str "RETENTION_BATCH_SIZE") 500) in
  Some (if MaxAge c <=? 0 then inl ErrMaxAge
        else if Interval c <=? 0 then inl ErrInterval
        else if RetentionBatchSize c <=? 0 then inl ErrRetentionBatchSize
        else inr c).

End Durations.

(* ================================================================== *)
(** * The retention service: connecting at startup *)

(** How the startup of the retention service ends. *)
Inductive startup := Connected | ExitShutdown | ExitUnreachable.

Record connectRun := mkConnectRun {
  conn_attempts : nat;
  conn_sleeps : list Z;
  conn_client : option bool
}.

(** The retry loop of main: [newOk i] tells whether elasticsearch.New
    succeeds at attempt i, [pingOk i] whether the ping of that attempt
    does, [cancelled i] whether the shutdown signal arrives during the
    wait after it. [conn_client] is [None] when the process exits on the
    signal, else whether a client is held when the loop is left. *)
Fixpoint connectLoop (newOk pingOk cancelled : nat -> bool)
  (attempts : list nat) (retryDelay : Z) (client : bool) : connectRun :=
  match attempts with
  | [] => mkConnectRun 0 [] (Some client)
  | i :: rest =>
      let client := newOk i in
      if client && pingOk i then mkConnectRun 1 [] (Some true)
      else if cancelled i then mkConnectRun 1 [] None
      else
        let next := retryDelay * 2 in
        let next := if next >? 30 * Second then 30 * Second else next in
        let run := connectLoop newOk pingOk cancelled rest next client in
        mkConnectRun (S (conn_attempts run)) (retryDelay :: conn_sleeps run)
          (conn_client run)
  end.

(** The startup of main up to "connected to elasticsearch";
    [finalPingOk] is the outcome of the final check. *)
Definition connect (newOk pingOk cancelled : nat -> bool)
  (finalPingOk : bool) : connectRun * startup :=
  let run := connectLoop newOk pingOk cancelled (seq 0 10) (2 * Second)
               false in
  (run,
   match conn_client run with
   | None => ExitShutdown
   | Some client => if negb client || negb finalPingOk
                    then ExitUnreachable else Connected
   end).

(* ================================================================== *)
(** * A reference instance of the standard library

    An instance of [GoStdlib] that agrees with Go on ASCII and on the
    Cyrillic block, on the five predefined entities, on timestamps written
    with four-digit years and no fraction, and on payloads written in the
    compact form [sampleMarshal] produces. It serves to run the functions
    above on the inputs of the repository's tests. *)

(** U+0400..U+0481 and U+048A..U+04FF are letters. *)
Definition sample_L (r : rune) : bool :=
  ((1024 <=? r) && (r <=? 1153)) || ((1162 <=? r) && (r <=? 1279)).

Definition sample_ToLower (r : rune) : rune :=
  if ((65 <=? r) && (r <=? 90)) || ((1040 <=? r) && (r <=? 1071)) then r + 32
  else if (1024 <=? r) && (r <=? 1039) then r + 80
  else r.

(** A pattern that is one literal. *)
Definition literal (lit : gostring) : matcher := fun s =>
  match stripPrefix lit s with
  | Some _ => Some (length lit)
  | None => None
  end.

Definition sample_Unescape (s : gostring) : gostring :=
  let s := ReplaceAllString (literal (str "&lt;")) s (str "<") in
  let s := ReplaceAllString (literal (str "&gt;")) s (str ">") in
  let s := ReplaceAllString (literal (str "&quot;")) s [34] in
  let s := ReplaceAllString (literal (str "&#39;")) s (str "'") in
  ReplaceAllString (literal (str "&amp;")) s (str "&").

Definition digitsValue (s : gostring) : option Z :=
  if isEmpty s || negb (forallb isDigit s) then None
  else Some (fold_left (fun acc d => acc * 10 + (d - 48)) s 0).

Definition daysIn (y m : Z) : Z :=
  if m =? 2 then
    if ((y mod 4 =? 0) && negb (y mod 100 =? 0)) || (y mod 400 =? 0)
    then 29 else 28
  else if (m =? 4) || (m =? 6) || (m =? 9) || (m =? 11) then 30 else 31.

(** YYYY-MM-DD, a separator, HH:MM:SS, and a suffix. *)
Definition sample_parseCivil (sep suffix : gostring) (raw : gostring)
  : option Time :=
  let num off n := digitsValue (firstn n (skipn off raw)) in
  let lit off l := bool_decide (firstn (length l) (skipn off raw) = l) in
  y ← num 0%nat 4%nat; m ← num 5%nat 2%nat; d ← num 8%nat 2%nat;
  hh ← num 11%nat 2%nat; mi ← num 14%nat 2%nat; ss ← num 17%nat 2%nat;
  if lit 4%nat (str "-") && lit 7%nat (str "-") && lit 10%nat sep
     && lit 13%nat (str ":") && lit 16%nat (str ":")
     && bool_decide (skipn 19 raw = suffix)
     && (1 <=? m) && (m <=? 12) && (1 <=? d) && (d <=? daysIn y m)
     && (hh <? 24) && (mi <? 60) && (ss <? 60)
  then Some (mkTime ((daysFromCivil y m d * 86400 + hh * 3600 + mi * 60 + ss)
                     * Second) 0)
  else None.

Definition sample_Parse (l : layout) (raw : gostring) : option Time :=
  match l with
  | RFC3339Nano | RFC3339 => sample_parseCivil (str "T") (str "Z") raw
  | LegacyLayout => sample_parseCivil (str " ") [] raw
  end.

(** One member of a JSON object, for values that need no escaping. *)
Definition jsonMember (name : string) (v : gostring) : list Z :=
  [34] ++ str name ++ [34; 58; 34] ++ v ++ [34].

Definition sampleMarshal (p : rawNews) : list Z :=
  [123] ++ jsonMember "title" (Title p) ++ [44]
  ++ jsonMember "text" (Text p) ++ [44]
  ++ jsonMember "timestamp" (Timestamp p) ++ [44]
  ++ jsonMember "source" (Source p) ++ [125].

Definition plainByte (c : Z) : bool :=
  (32 <=? c) && (c <? 127) && negb (c =? 34) && negb (c =? 92).

Definition readMember (name : string) (close : Z) (s : list Z)
  : option (gostring * list Z) :=
  r ← stripPrefix ([34] ++ str name ++ [34; 58; 34]) s;
  let v := firstn (spanLen plainByte r) r in
  match skipn (length v) r with
  | q :: c :: rest => if (q =? 34) && (c =? close) then Some (v, rest) else None
  | _ => None
  end.

Definition sample_Unmarshal (value : list Z) : option rawNews :=
  match value with
  | 123 :: r0 =>
      '(title, r1) ← readMember "title" 44 r0;
      '(text, r2) ← readMember "text" 44 r1;
      '(timestamp, r3) ← readMember "timestamp" 44 r2;
      '(source, r4) ← readMember "source" 125 r3;
      if isEmpty r4 then Some (mkRawNews title text timestamp source) else None
  | _ => None
  end.

Definition sampleStdlib : GoStdlib := {|
  table_L := sample_L;
  table_N := fun _ => false;
  unicode_ToLower := sample_ToLower;
  html_UnescapeString := sample_Unescape;
  time_Parse := sample_Parse;
  json_Unmarshal := sample_Unmarshal
|}.

(** A world as the worker's tests set it up: a new cache of capacity 100
    and ttl one hour, the recording indexer, nothing indexed yet. *)
Definition testWorld : World (list NewsDocument) :=
  mkWorld 0 0 (NewCache 100 Hour) [] [].

Definition testConfig : Worker := mkWorker 5 3.

(** A clock that starts one microsecond before 2024-01-02T15:04:06Z and
    advances by a microsecond from reading to reading. *)
Definition microClock (n : nat) : Z :=
  1704207845 * Second + 999999000 + Z.of_nat n * 1000.

(** A clock that starts at 2024-01-02T15:04:05Z and advances by forty
    minutes from reading to reading. *)
Definition slowClock (n : nat) : Z :=
  1704207845 * Second + Z.of_nat n * (2400 * Second).

Definition stampedPayload : rawNews :=
  mkRawNews (str "Hot tour") (str "<b>Sea and sun</b> wait")
    (str "2024-01-02T15:04:05Z") (str "rss").

Definition unstampedPayload : rawNews :=
  mkRawNews (str "Hot tour") (str "<b>Sea and sun</b> wait") [] (str "rss").

Definition urlOnlyPayload : rawNews :=
  mkRawNews [] (str "https://example.com") (str "2024-01-02T15:04:05Z")
    (str "telegram").

(** The worker on the reference instance, with the recording indexer. *)
Definition runWorker (clock : nat -> Z) (payload : rawNews)
  (w : World (list NewsDocument)) : option error * World (list NewsDocument) :=
  processMessage (H := sampleStdlib) clock (fun _ => []) testConfig
    (sampleMarshal payload) w.

(** A clock that starts at 2024-01-02T15:04:05Z and advances by a
    microsecond from reading to reading, and a world whose cache has a
    ttl of two microseconds. *)
Definition secondClock (n : nat) : Z :=
  1704207845 * Second + Z.of_nat n * 1000.

Definition briefWorld : World (list NewsDocument) :=
  mkWorld 0 0 (NewCache 100 2000) [] [].

(** An index client that is down: every IndexNews call fails. *)
Definition downIndexer : newsIndexer unit :=
  fun s _ => (s, Some (ErrIndex (str "connection refused"))).

Definition downWorld : World unit := mkWorld 0 0 (NewCache 100 Hour) tt [].

(** time.ParseDuration for a decimal integer and one of the units h, m
    and s. *)
Definition sample_ParseDuration (s : gostring) : option Z :=
  match rev s with
  | unit :: digits =>
      match Atoi (rev digits) with
      | Some n =>
          if unit =? 104 then Some (n * Hour)
          else if unit =? 109 then Some (n * (60 * Second))
          else if unit =? 115 then Some (n * Second)
          else None
      | None => None
      end
  | [] => None
  end.

(** The environment with no variable set, and the configurations the
    loaders build from it. *)
Definition emptyEnv : environ := fun _ => None.

Definition defaultWorkerSettings : WorkerSettings :=
  mkWorkerSettings (str "http://elasticsearch:9200") (str "news")
    [str "kafka:9092"] (str "news_raw") (str "news-worker") (mkWorker 8 4)
    20000 (24 * Hour) 10 (2 * Second).

Definition defaultRetention : Retention :=
  mkRetention (24 * Hour) (168 * Hour) 500.

(* ================================================================== *)
(** * Notions used in the statements *)

(** Title synthesis as the design document words it: the prefix before
    the first of [. ! ?] wherever it stands, else the whole string. *)
Definition specTitle (text : gostring) (maxWords : Z) : gostring :=
  let s := RemoveURLs text in
  let i := IndexAny s (str ".!?") in
  let words := Fields (TrimSpace (if i >=? 0 then slicePrefix s i else s)) in
  if (maxWords >? 0) && (len words >? maxWords)
  then Join (slicePrefix words maxWords) (str " ") ++ str "..."
  else Join words (str " ").

(** Title synthesis as the code has it: the prefix rule applies from
    position 1 on. *)
Definition codeTitle (text : gostring) (maxWords : Z) : gostring :=
  let s := RemoveURLs text in
  let i := IndexAny s (str ".!?") in
  let words := Fields (TrimSpace (if i >? 0 then slicePrefix s i else s)) in
  if (maxWords >? 0) && (len words >? maxWords)
  then Join (slicePrefix words maxWords) (str " ") ++ str "..."
  else Join words (str " ").

Definition isLowerHex (c : rune) : bool :=
  ((48 <=? c) && (c <=? 57)) || ((97 <=? c) && (c <=? 102)).

(** Every entry of the map has its history entry. *)
Definition historyCovers (items : gmap gostring Z) (order : list entry)
  : Prop :=
  forall k t, items !! k = Some t -> mkEntry k t ∈ order.

(** The history is in the order of the instants. *)
Definition historySorted (order : list entry) : Prop :=
  StronglySorted (fun a b => ts a <= ts b) order.

(** The bounds the design document states for the cache at the instant
    [now]: at most [capacity] entries in the map, each within [ttl]. *)
Definition cacheBounds (c : Cache) (now : Z) : Prop :=
  Z.of_nat (size (items c)) <= capacity c
  /\ forall k t, items c !! k = Some t -> now - t <= ttl c.

(** What the calls maintain: the map is covered by the history, the
    history is in the order of the instants and holds none later than
    [now], and the parameters are those NewCache admits. *)
Definition cacheInv (c : Cache) (now : Z) : Prop :=
  historyCovers (items c) (order c)
  /\ historySorted (order c)
  /\ List.Forall (fun e => ts e <= now) (order c)
  /\ 1 <= capacity c /\ 0 < ttl c.

(** The clauses of a group ("must" or "filter") of the bool query of a
    request body. *)
Definition clausesOf (group : string) (body : gmap gostring any)
  : list (gmap gostring any) :=
  match body !! str "query" with
  | Some (AMap q) =>
      match q !! str "bool" with
      | Some (AMap b) =>
          match b !! str group with
          | Some (AMaps l) => l
          | _ => []
          end
      | _ => []
      end
  | _ => []
  end.

(** The clauses of that name among some clauses. *)
Definition clauseNamed (name : string) (clauses : list (gmap gostring any))
  : list any :=
  omap (fun c : gmap gostring any => c !! str name) clauses.

(** Every white space code point is one space, and no two are adjacent;
    [prev] tells that the code point before was a space. *)
Fixpoint singleSpaced (prev : bool) (s : gostring) : bool :=
  match s with
  | [] => true
  | c :: t =>
      if re_space c then (c =? 32) && negb prev && singleSpaced true t
      else singleSpaced false t
  end.

Section KeywordNotions.
Context `{GoStdlib}.

(** Does a token pass the length and stop-word filters? *)
Definition qualifies (minLen : Z) (token : gostring) : bool :=
  negb (len token <? minLen) && negb (bool_decide (token ∈ stopwords)).

(** The tokens ExtractKeywords counts: the fields of the lowercased clean
    text, trimmed, that pass the filters; with repetitions, in order. *)
Definition keywordTokens (text : gostring) (minLen : Z) : list gostring :=
  List.filter (qualifies minLen)
    (map trimToken (Fields (ToLower (CleanText text)))).

End KeywordNotions.

(** How often a word occurs among some tokens. *)
Definition frequency (w : gostring) (tokens : list gostring) : Z :=
  Z.of_nat (length (List.filter (fun t => bool_decide (t = w)) tokens)).

(** The ranking of the keywords: more frequent first, and among equally
    frequent words the lexicographically smaller first. *)
Definition ranksBefore (tokens : list gostring) (w1 w2 : gostring) : Prop :=
  frequency w1 tokens > frequency w2 tokens
  \/ (frequency w1 tokens = frequency w2 tokens /\ strLt w1 w2 = true).

Section WorkerNotions.
Context `{GoStdlib}.

(** A payload whose title and text are both blank is rejected. *)
Definition isBlank (payload : rawNews) : bool :=
  isEmpty (TrimSpace (Title payload)) && isEmpty (TrimSpace (Text payload)).

(** Does the payload carry a timestamp the worker can parse? *)
Definition hasTimestamp (payload : rawNews) : bool :=
  negb (Time_IsZero (parseTimestamp (Timestamp payload))).

(** The document the worker builds for a payload; [now] is the reading
    of the clock that stands in for a missing timestamp. *)
Definition documentOf (cfg : Worker) (payload : rawNews) (now : Z)
  : NewsDocument :=
  let title := TrimSpace (Title payload) in
  let text := TrimSpace (Text payload) in
  let title := if isEmpty title && negb (isEmpty text)
               then GenerateTitleFromText text 10 else title in
  let ts := if hasTimestamp payload then parseTimestamp (Timestamp payload)
            else Time_UTC (mkTime now 0) in
  let source := TrimSpace (Source payload) in
  mkDoc (BuildDocumentID title (CleanText text) ts) title text ts
    (ExtractKeywords (title ++ str " " ++ CleanText text)
       (KeywordLimit cfg) (KeywordMinLength cfg))
    (if isEmpty source then str "unknown" else source)
    (ExtractURLs text).

End WorkerNotions.

(** The history entries of marking the keys [ks] one after the other,
    the first at reading [tick] of the clock. *)
Fixpoint marksFrom (clock : nat -> Z) (tick : nat) (ks : list gostring)
  : list entry :=
  match ks with
  | [] => []
  | k :: rest => mkEntry k (clock tick) :: marksFrom clock (S tick) rest
  end.

(** What a round of DeleteOlderThan adds to the total, whether it makes
    the loop go on, and the failure it stands for. *)
Definition deletedCount (r : deleteReply) : Z :=
  match r with Deleted n => n | _ => 0 end.

Definition fullBatch (batchSize : Z) (r : deleteReply) : bool :=
  match r with Deleted n => negb (n <? batchSize) | _ => false end.

Definition failureOf (r : deleteReply) : option deleteReply :=
  match r with Deleted _ => None | failure => Some failure end.

(** The documents deleted in [rounds] rounds from round [round] on. *)
Fixpoint deletedIn (reply : nat -> deleteReply) (round rounds : nat) : Z :=
  match rounds with
  | O => 0
  | S k => deletedCount (reply round) + deletedIn reply (S round) k
  end.

(** The waits of the startup loop of the retention service: [k] waits
    from the delay [d] on, doubled each time up to thirty seconds. *)
Fixpoint backoffs (d : Z) (k : nat) : list Z :=
  match k with
  | O => []
  | S k' => d :: backoffs (Z.min (d * 2) (30 * Second)) k'
  end.

(* ================================================================== *)
(** * package strings: lemmas *)

Lemma fieldsFrom_all_space f cur sp :
  Forall (fun c => f c = true) sp ->
  fieldsFrom f cur sp = match cur with [] => [] | _ => [rev cur] end.
Proof.
  intros Hsp. revert cur. induction Hsp as [|c sp Hc _ IH]; intros cur.
  - reflexivity.
  - simpl. rewrite Hc. destruct cur; rewrite IH; reflexivity.
Qed.

Lemma fieldsFrom_app_space f sp :
  Forall (fun c => f c = true) sp ->
  forall s cur, fieldsFrom f cur (s ++ sp) = fieldsFrom f cur s.
Proof.
  intros Hsp. induction s as [|c s IH]; intros cur; simpl.
  - apply fieldsFrom_all_space, Hsp.
  - destruct (f c); [destruct cur|]; rewrite ?IH; reflexivity.
Qed.

Lemma fieldsFrom_TrimLeftFunc f s :
  fieldsFrom f [] (TrimLeftFunc f s) = fieldsFrom f [] s.
Proof.
  induction s as [|c s IH]; simpl; [reflexivity|].
  destruct (f c) eqn:Hc; [exact IH|]. simpl. rewrite Hc. reflexivity.
Qed.

(** What TrimLeftFunc removes satisfies the predicate. *)
Lemma TrimLeftFunc_split f s :
  exists sp, s = sp ++ TrimLeftFunc f s /\ Forall (fun c => f c = true) sp.
Proof.
  induction s as [|c s (sp & Hs & Hsp)]; simpl.
  - exists []. split; [reflexivity|constructor].
  - destruct (f c) eqn:Hc.
    + exists (c :: sp). split; [simpl; congruence|constructor; assumption].
    + exists []. split; [reflexivity|constructor].
Qed.

Lemma TrimRightFunc_split f s :
  exists sp, s = TrimRightFunc f s ++ sp /\ Forall (fun c => f c = true) sp.
Proof.
  unfold TrimRightFunc.
  destruct (TrimLeftFunc_split f (rev s)) as (sp & Hs & Hsp).
  exists (rev sp). split.
  - rewrite <- rev_app_distr, <- Hs, rev_involutive. reflexivity.
  - apply List.Forall_rev, Hsp.
Qed.

Lemma fieldsFrom_TrimRightFunc f s cur :
  fieldsFrom f cur (TrimRightFunc f s) = fieldsFrom f cur s.
Proof.
  destruct (TrimRightFunc_split f s) as (sp & Hs & Hsp).
  rewrite Hs at 2. symmetry. apply fieldsFrom_app_space, Hsp.
Qed.

(** Trimming white space does not change the words of a string. *)
Lemma Fields_TrimSpace s : Fields (TrimSpace s) = Fields s.
Proof.
  unfold Fields, TrimSpace, TrimFunc.
  rewrite fieldsFrom_TrimRightFunc. apply fieldsFrom_TrimLeftFunc.
Qed.

(* ================================================================== *)
(** * Title synthesis *)

Lemma no_words_not_truncated (maxWords : Z) :
  (maxWords >? 0) && (len (@nil gostring) >? maxWords) = false.
Proof.
  unfold len. simpl length. change (Z.of_nat 0) with 0.
  rewrite !Z.gtb_ltb.
  destruct (Z.ltb_spec 0 maxWords), (Z.ltb_spec maxWords 0);
    try reflexivity; lia.
Qed.

(** C7 (as amended). For every text and maxWords, GenerateTitleFromText
    strips the URLs, takes the prefix before the first of [. ! ?] when it
    stands at a position greater than 0 (and the whole string when there
    is none or when it stands at position 0), trims, splits into words,
    and returns the first maxWords joined by spaces and followed by "..."
    when maxWords > 0 and there are more words, else the words joined by
    spaces, which is the empty string when there are none. *)
Theorem GenerateTitleFromText_codeTitle (text : gostring) (maxWords : Z) :
  GenerateTitleFromText text maxWords = codeTitle text maxWords.
Proof.
  unfold GenerateTitleFromText, codeTitle.
  destruct text as [|c text].
  { change (Fields _) with (@nil gostring).
    rewrite no_words_not_truncated. reflexivity. }
  cbn [isEmpty].
  set (s := RemoveURLs (c :: text)).
  destruct (IndexAny s (str ".!?") >? 0) eqn:Hi; rewrite ?Fields_TrimSpace.
  - generalize (Fields (slicePrefix s (IndexAny s (str ".!?")))).
    intros [|w words]; [|reflexivity].
    rewrite no_words_not_truncated. reflexivity.
  - generalize (Fields s).
    intros [|w words]; [|reflexivity].
    rewrite no_words_not_truncated. reflexivity.
Qed.

(** C7 (as stated) fails: on ".abc" the terminator stands at position 0;
    the prefix before it is empty, yet the code keeps the whole string. *)
Lemma GenerateTitleFromText_terminator_at_0 :
  GenerateTitleFromText (str ".abc") 10 = str ".abc"
  /\ specTitle (str ".abc") 10 = []
  /\ GenerateTitleFromText (str ".abc") 10 <> specTitle (str ".abc") 10.
Proof. vm_compute. repeat split; discriminate. Qed.

(* ================================================================== *)
(** * Document identity *)

(** The digests of FIPS 180 for "abc" and for a two-block message. *)
Example sha1_abc :
  hex_EncodeToString (sha1_Sum (utf8_encode (str "abc")))
  = str "a9993e364706816aba3e25717850c26c9cd0d89d".
Proof. vm_compute. reflexivity. Qed.

Example sha1_two_blocks :
  hex_EncodeToString
    (sha1_Sum (utf8_encode
       (str "abcdbcdecdefdefgefghfghighijhijkijkljklmklmnlmnomnopnopq")))
  = str "84983e441c3bd26ebaae4aa1f95129e5e54670f1".
Proof. vm_compute. reflexivity. Qed.

Example Format_RFC3339_sample :
  Format_RFC3339 (Time_UTC (mkTime (1704207845 * Second) 10800))
  = str "2024-01-02T15:04:05Z".
Proof. vm_compute. reflexivity. Qed.

Lemma sha1_Sum_length (data : list Z) : length (sha1_Sum data) = 20%nat.
Proof.
  unfold sha1_Sum.
  destruct (fold_left sha1_block _ _) as [[[[h0 h1] h2] h3] h4].
  reflexivity.
Qed.

Lemma hex_EncodeToString_length (src : list Z) :
  length (hex_EncodeToString src) = (2 * length src)%nat.
Proof.
  unfold hex_EncodeToString.
  induction src as [|v src IH]; [reflexivity|].
  cbn [flat_map app length]. rewrite IH. simpl. lia.
Qed.

Lemma hextable_digit (i : nat) : isLowerHex (nth i hextable 48) = true.
Proof.
  destruct (nth_in_or_default i hextable 48) as [Hin | ->]; [|reflexivity].
  revert Hin. generalize (nth i hextable 48). intros c Hin.
  vm_compute in Hin.
  repeat (destruct Hin as [<- | Hin]; [reflexivity|]). destruct Hin.
Qed.

Lemma hex_EncodeToString_digits (src : list Z) :
  List.Forall (fun c => isLowerHex c = true) (hex_EncodeToString src).
Proof.
  unfold hex_EncodeToString.
  induction src as [|v src IH]; [constructor|].
  cbn [flat_map app].
  constructor; [apply hextable_digit|].
  constructor; [apply hextable_digit|exact IH].
Qed.

Lemma BuildDocumentID_length title text t :
  length (BuildDocumentID title text t) = 40%nat.
Proof.
  unfold BuildDocumentID.
  rewrite hex_EncodeToString_length, sha1_Sum_length. reflexivity.
Qed.

Lemma BuildDocumentID_not_empty title text t :
  isEmpty (BuildDocumentID title text t) = false.
Proof.
  pose proof (BuildDocumentID_length title text t) as Hlen.
  destruct (BuildDocumentID title text t); [discriminate|reflexivity].
Qed.

(* ================================================================== *)
(** * The worker: one message *)

Section WorkerFacts.
Context `{GoStdlib}.
Context {I : Type} `{newsIndexer I}.
Variable clock : nat -> Z.
Variable uuids : nat -> gostring.

(** processMessage step by step: which readings of the clock it takes
    and what it leaves behind. *)
Lemma processPayload_run (cfg : Worker) (payload : rawNews) (w : World I) :
  processPayload clock uuids cfg payload w =
  if isBlank payload then (Some ErrEmptyPayload, w)
  else
    let n0 := ticks w in
    let n1 := if hasTimestamp payload then n0 else S n0 in
    let doc := documentOf cfg payload (clock n0) in
    if IsSeen (cache w) (clock n1) (doc_ID doc) then
      (None, mkWorld (S n1) (uuidsDrawn w) (cache w) (es w) (indexCalls w))
    else
      match IndexNews (es w) doc with
      | (es', Some e) =>
          (Some e, mkWorld (S n1) (uuidsDrawn w) (cache w) es'
                     (indexCalls w ++ [doc]))
      | (es', None) =>
          (None, mkWorld (S (S n1)) (uuidsDrawn w)
                   (MarkSeen (cache w) (clock (S n1)) (doc_ID doc)) es'
                   (indexCalls w ++ [doc]))
      end.
Proof.
  unfold processPayload, isBlank, documentOf, hasTimestamp.
  destruct (isEmpty (TrimSpace (Title payload))
            && isEmpty (TrimSpace (Text payload))); [reflexivity|].
  destruct w as [n0 u c e calls].
  unfold bind, ret, cache_IsSeen, cache_MarkSeen, esClient_IndexNews,
    time_Now, uuid_NewString, bind, ret.
  destruct (Time_IsZero (parseTimestamp (Timestamp payload)));
    cbv beta iota delta [negb ticks uuidsDrawn cache es indexCalls doc_ID];
    rewrite BuildDocumentID_not_empty;
    cbv beta iota delta [negb ticks uuidsDrawn cache es indexCalls doc_ID];
    (destruct (IsSeen c _ _); [reflexivity|]);
    (destruct (IndexNews e _) as [es' [err|]]; reflexivity).
Qed.

End WorkerFacts.

(* ================================================================== *)
(** * The dedupe cache *)

Lemma historyCovers_drop items oldest rest :
  historyCovers items (oldest :: rest) ->
  historyCovers
    (match items !! key oldest with
     | Some t => if t =? ts oldest then delete (key oldest) items else items
     | None => items
     end) rest.
Proof.
  intros Hcov k t Hk.
  assert (items !! k = Some t /\ mkEntry k t <> oldest) as [Hk' Hne].
  { destruct (items !! key oldest) as [t0|] eqn:Hold.
    - destruct (Z.eqb_spec t0 (ts oldest)) as [-> | Hts].
      + destruct (decide (k = key oldest)) as [-> | Hkne].
        * rewrite lookup_delete_eq in Hk. discriminate.
        * rewrite lookup_delete_ne in Hk by congruence.
          split; [exact Hk|]. intros <-. apply Hkne. reflexivity.
      + split; [exact Hk|]. intros <-. simpl in *. congruence.
    - split; [exact Hk|]. intros <-. simpl in *. congruence. }
  apply Hcov in Hk'. apply elem_of_cons in Hk' as [Heq | Hin]; [|exact Hin].
  contradiction.
Qed.

Lemma historyCovers_nil items : historyCovers items [] -> items = ∅.
Proof.
  intros Hcov. apply map_empty. intros k.
  destruct (items !! k) as [t|] eqn:Hk; [|reflexivity].
  apply Hcov in Hk. inversion Hk.
Qed.

(** compact leaves a covered map within capacity. *)
Lemma compactLoop_size cap cutoff order : forall items,
  0 <= cap ->
  historyCovers items order ->
  let r := compactLoop cap cutoff items order in
  historyCovers r.1 r.2 /\ Z.of_nat (size r.1) <= cap.
Proof.
  induction order as [|oldest rest IH]; intros items Hcap Hcov; simpl.
  - split; [exact Hcov|].
    rewrite (historyCovers_nil _ Hcov), map_size_empty. exact Hcap.
  - destruct ((Z.of_nat (size items) >? cap) || (ts oldest <? cutoff)) eqn:Hgo.
    + apply IH; [exact Hcap|]. apply historyCovers_drop, Hcov.
    + simpl. split; [exact Hcov|].
      apply orb_false_iff in Hgo as [Hsz _].
      rewrite Z.gtb_ltb in Hsz. apply Z.ltb_ge in Hsz. exact Hsz.
Qed.

(** On a history in the order of the instants, compact leaves no entry
    older than the cutoff. *)
Lemma compactLoop_fresh cap cutoff order : forall items,
  historySorted order ->
  let r := compactLoop cap cutoff items order in
  historySorted r.2 /\ List.Forall (fun e => cutoff <= ts e) r.2.
Proof.
  induction order as [|oldest rest IH]; intros items Hsorted; simpl.
  - split; constructor.
  - inversion Hsorted as [|? ? Hrest Hall]; subst.
    destruct ((Z.of_nat (size items) >? cap) || (ts oldest <? cutoff)) eqn:Hgo.
    + apply IH, Hrest.
    + simpl. split; [exact Hsorted|].
      apply orb_false_iff in Hgo as [_ Hts]. apply Z.ltb_ge in Hts.
      constructor; [exact Hts|].
      eapply List.Forall_impl; [|exact Hall]. simpl. intros e He. lia.
Qed.

(** What stays in the history was there, and what stays in the map was
    there with the same instant. *)
Lemma compactLoop_sub cap cutoff order : forall items,
  let r := compactLoop cap cutoff items order in
  (forall e, e ∈ r.2 -> e ∈ order)
  /\ (forall k t, r.1 !! k = Some t -> items !! k = Some t).
Proof.
  induction order as [|oldest rest IH]; intros items; simpl.
  - split; intros; assumption.
  - destruct ((Z.of_nat (size items) >? cap) || (ts oldest <? cutoff)).
    + destruct (IH (match items !! key oldest with
                    | Some t => if t =? ts oldest
                                then delete (key oldest) items else items
                    | None => items
                    end)) as [Ho Hi].
      split.
      * intros e He. apply elem_of_cons. right. apply Ho, He.
      * intros k t Hk. apply Hi in Hk.
        destruct (items !! key oldest) as [t0|]; [|exact Hk].
        destruct (t0 =? ts oldest); [|exact Hk].
        apply lookup_delete_Some in Hk as [_ Hk]. exact Hk.
    + simpl. split; intros; assumption.
Qed.

(** The key just marked survives compaction, provided the history does
    not already hold an entry for it with the same instant. *)
Lemma compactLoop_keeps cap cutoff k now order : forall items,
  1 <= cap -> cutoff <= now ->
  items !! k = Some now ->
  mkEntry k now ∉ order ->
  historyCovers items (order ++ [mkEntry k now]) ->
  (compactLoop cap cutoff items (order ++ [mkEntry k now])).1 !! k
  = Some now.
Proof.
  induction order as [|oldest rest IH];
    intros items Hcap Hcut Hk Hnotin Hcov; simpl.
  - assert (items = {[k := now]}) as ->.
    { apply map_eq. intros k'. destruct (decide (k' = k)) as [-> | Hne].
      - rewrite lookup_singleton_eq. exact Hk.
      - rewrite lookup_singleton_ne by congruence.
        destruct (items !! k') as [t'|] eqn:Hk'; [|reflexivity].
        apply Hcov in Hk'. apply list_elem_of_singleton in Hk'.
        congruence. }
    rewrite map_size_singleton.
    replace (Z.of_nat 1 >? cap) with false
      by (symmetry; rewrite Z.gtb_ltb; apply Z.ltb_ge; lia).
    replace (now <? cutoff) with false by (symmetry; apply Z.ltb_ge; lia).
    simpl. apply lookup_singleton_eq.
  - destruct ((Z.of_nat (size items) >? cap) || (ts oldest <? cutoff));
      [|exact Hk].
    apply not_elem_of_cons in Hnotin as [Hne Hnotin].
    apply IH; try assumption.
    + destruct (items !! key oldest) as [t0|] eqn:Hold; [|exact Hk].
      destruct (Z.eqb_spec t0 (ts oldest)) as [-> | Hts]; [|exact Hk].
      rewrite lookup_delete_ne; [exact Hk|].
      intros Heq. apply Hne. destruct oldest as [k0 t0]. simpl in *.
      subst k0. congruence.
    + apply (historyCovers_drop items oldest (rest ++ [mkEntry k now])), Hcov.
Qed.

Lemma historyCovers_mark (c : Cache) now k :
  historyCovers (items c) (order c) ->
  historyCovers (<[k := now]> (items c)) (order c ++ [mkEntry k now]).
Proof.
  intros Hcov k' t Hk'. apply elem_of_app.
  destruct (decide (k = k')) as [<- | Hne].
  - rewrite lookup_insert_eq in Hk'. injection Hk' as <-.
    right. apply list_elem_of_singleton. reflexivity.
  - rewrite lookup_insert_ne in Hk' by exact Hne. left. apply Hcov, Hk'.
Qed.

(** After MarkSeen the key is in the map with the instant of the call. *)
Lemma MarkSeen_lookup (c : Cache) now k :
  1 <= capacity c -> 0 <= ttl c ->
  historyCovers (items c) (order c) ->
  mkEntry k now ∉ order c ->
  items (MarkSeen c now k) !! k = Some now.
Proof.
  intros Hcap Httl Hcov Hnotin. unfold MarkSeen, compact. simpl.
  pose proof (compactLoop_keeps (capacity c) (now - ttl c) k now (order c)
                (<[k := now]> (items c))) as Hkeep.
  destruct (compactLoop _ _ _ _) as [items' order']. simpl in *.
  apply Hkeep; try assumption; try lia.
  - apply lookup_insert_eq.
  - apply historyCovers_mark, Hcov.
Qed.

Lemma MarkSeen_params (c : Cache) now k :
  capacity (MarkSeen c now k) = capacity c /\ ttl (MarkSeen c now k) = ttl c.
Proof.
  unfold MarkSeen, compact. simpl.
  destruct (compactLoop _ _ _ _). split; reflexivity.
Qed.

Lemma NewCache_inv capacity ttl now : cacheInv (NewCache capacity ttl) now.
Proof.
  unfold cacheInv, NewCache. simpl. repeat split.
  - intros k t Hk. rewrite lookup_empty in Hk. discriminate.
  - constructor.
  - constructor.
  - destruct (Z.leb_spec capacity 0); lia.
  - destruct (Z.leb_spec ttl 0); [reflexivity|lia].
Qed.

Lemma cacheInv_later (c : Cache) now now' :
  now <= now' -> cacheInv c now -> cacheInv c now'.
Proof.
  intros Hle (Hcov & Hsorted & Hall & Hcap & Httl). repeat split; try assumption.
  eapply List.Forall_impl; [|exact Hall]. simpl. intros e He. lia.
Qed.

Lemma historySorted_snoc order e :
  historySorted order -> List.Forall (fun a => ts a <= ts e) order ->
  historySorted (order ++ [e]).
Proof.
  intros Hsorted Hall. induction Hsorted as [|a l Hl IH Ha]; simpl.
  - repeat constructor.
  - inversion Hall; subst. constructor; [apply IH; assumption|].
    apply Forall_app. split; [exact Ha|]. repeat constructor. assumption.
Qed.

(** MarkSeen re-establishes the invariant and both bounds. *)
Lemma MarkSeen_inv (c : Cache) now k :
  cacheInv c now ->
  cacheInv (MarkSeen c now k) now /\ cacheBounds (MarkSeen c now k) now.
Proof.
  intros (Hcov & Hsorted & Hall & Hcap & Httl).
  unfold MarkSeen, compact, cacheInv, cacheBounds. simpl.
  pose proof (historyCovers_mark c now k Hcov) as Hcov1.
  assert (historySorted (order c ++ [mkEntry k now])) as Hsorted1
    by (apply historySorted_snoc; assumption).
  pose proof (compactLoop_size (capacity c) (now - ttl c) _ _
                ltac:(lia) Hcov1) as [Hcov2 Hsize].
  pose proof (compactLoop_fresh (capacity c) (now - ttl c) _
                (<[k := now]> (items c)) Hsorted1) as [Hsorted2 Hfresh].
  pose proof (compactLoop_sub (capacity c) (now - ttl c)
                (order c ++ [mkEntry k now]) (<[k := now]> (items c)))
    as [Hsub _].
  destruct (compactLoop _ _ _ _) as [items' order']. simpl in *.
  assert (List.Forall (fun e => ts e <= now) order') as Hall2.
  { apply List.Forall_forall. intros e He.
    apply list_elem_of_In, Hsub, elem_of_app in He as [He | He].
    - apply list_elem_of_In in He.
      revert e He. apply List.Forall_forall. exact Hall.
    - apply list_elem_of_singleton in He. subst e. simpl. lia. }
  repeat split; try assumption.
  intros k' t Hk'. apply Hcov2, list_elem_of_In in Hk'.
  pose proof (proj1 (List.Forall_forall _ _) Hfresh _ Hk') as Hts.
  simpl in Hts. lia.
Qed.

Lemma runCache_snoc clock ops : forall tick c op,
  runCache clock tick c (ops ++ [op])
  = stepCache (runCache clock tick c ops) (clock (tick + length ops)%nat) op.
Proof.
  induction ops as [|o ops IH]; intros tick c op; simpl.
  - rewrite Nat.add_0_r. reflexivity.
  - rewrite IH.
    replace (tick + S (length ops))%nat with (S tick + length ops)%nat by lia.
    reflexivity.
Qed.

Lemma stepCache_inv (c : Cache) now op :
  cacheInv c now -> Z.of_nat (size (items c)) <= capacity c ->
  cacheInv (stepCache c now op) now
  /\ Z.of_nat (size (items (stepCache c now op)))
     <= capacity (stepCache c now op).
Proof.
  intros Hinv Hsize. destruct op as [k|k]; simpl.
  - destruct (MarkSeen_inv c now k Hinv) as [Hinv' [Hsize' _]].
    split; assumption.
  - split; assumption.
Qed.

Lemma runCache_inv clock :
  (forall n, clock n <= clock (S n)) ->
  forall ops tick c,
  cacheInv c (clock tick) -> Z.of_nat (size (items c)) <= capacity c ->
  cacheInv (runCache clock tick c ops) (clock (tick + length ops)%nat)
  /\ Z.of_nat (size (items (runCache clock tick c ops)))
     <= capacity (runCache clock tick c ops).
Proof.
  intros Hmono. induction ops as [|op ops IH]; intros tick c Hinv Hsize; simpl.
  - rewrite Nat.add_0_r. split; assumption.
  - destruct (stepCache_inv c (clock tick) op Hinv Hsize) as [Hinv' Hsize'].
    replace (tick + S (length ops))%nat with (S tick + length ops)%nat by lia.
    apply IH; [|exact Hsize'].
    eapply cacheInv_later; [apply Hmono|exact Hinv'].
Qed.

(** C3 (as amended). For every capacity and ttl and every sequence of
    MarkSeen/IsSeen calls against a clock that does not run backwards:
    after any call the map holds at most capacity entries (capacity as
    NewCache admits it); immediately after a MarkSeen call every entry of
    the map carries an instant within ttl of the instant of that call,
    stale history entries of re-marked keys notwithstanding; an IsSeen
    call leaves the cache as it was, so an entry older than ttl stays in
    the map until the next MarkSeen, and IsSeen reports a key only when
    its entry is within ttl. *)
Theorem cache_bounds_after_call (capacity0 ttl0 : Z) (clock : nat -> Z)
  (ops : list call) (op : call) :
  (forall n, clock n <= clock (S n)) ->
  let before := runCache clock 0 (NewCache capacity0 ttl0) ops in
  let after := runCache clock 0 (NewCache capacity0 ttl0) (ops ++ [op]) in
  let now := clock (length ops) in
  Z.of_nat (size (items after)) <= capacity after
  /\ capacity after = (if capacity0 <=? 0 then 1 else capacity0)
  /\ match op with
     | CallMarkSeen _ => cacheBounds after now
     | CallIsSeen k =>
         after = before
         /\ (IsSeen after now k = true ->
             exists t, items after !! k = Some t /\ now - t <= ttl after)
     end.
Proof.
  intros Hmono before after now.
  assert (capacity before = (if capacity0 <=? 0 then 1 else capacity0)) as Hcapeq.
  { subst before. generalize 0%nat.
    assert (capacity (NewCache capacity0 ttl0)
            = (if capacity0 <=? 0 then 1 else capacity0)) as Hnew
      by reflexivity.
    revert Hnew. generalize (NewCache capacity0 ttl0).
    induction ops as [|o ops IH]; intros c Hc tick; simpl; [exact Hc|].
    apply IH. destruct o; simpl; [|exact Hc].
    rewrite (proj1 (MarkSeen_params c (clock tick) k)). exact Hc. }
  destruct (runCache_inv clock Hmono ops 0%nat (NewCache capacity0 ttl0))
    as [Hinv Hsize].
  { apply NewCache_inv. }
  { unfold NewCache. simpl. rewrite map_size_empty.
    destruct (Z.leb_spec capacity0 0); lia. }
  fold before in Hinv, Hsize. simpl in Hinv. fold now in Hinv.
  assert (after = stepCache before now op) as Hafter
    by (subst after before now; apply runCache_snoc).
  rewrite Hafter. destruct op as [k|k]; simpl.
  - destruct (MarkSeen_inv before now k Hinv) as [_ Hb].
    split; [exact (proj1 Hb)|]. split; [|exact Hb].
    rewrite (proj1 (MarkSeen_params before now k)). exact Hcapeq.
  - split; [exact Hsize|]. split; [exact Hcapeq|]. split; [reflexivity|].
    unfold IsSeen. destruct (items before !! k) as [t|]; [|discriminate].
    destruct (Z.leb_spec (now - t) (ttl before)); [|discriminate].
    intros _. exists t. split; [reflexivity|assumption].
Qed.

(** The theorem at a clock that ticks every ten nanoseconds. *)
Lemma cache_bounds_after_call_witness :
  cacheBounds
    (runCache (fun n => Z.of_nat n * 10) 0 (NewCache 1 5)
       ([CallMarkSeen (str "first")] ++ [CallMarkSeen (str "second")]))
    10.
Proof.
  exact (proj2 (proj2
    (cache_bounds_after_call 1 5 (fun n => Z.of_nat n * 10)
       [CallMarkSeen (str "first")] (CallMarkSeen (str "second"))
       ltac:(intros n; cbv beta; lia)))).
Defined.

(** C3 (as stated) fails after an IsSeen call: "a" is marked at instant
    0 with a ttl of 5; the IsSeen call at instant 10 reports false and
    leaves the entry, whose age is 10, in the map. *)
Lemma cache_bounds_fail_after_IsSeen :
  let clock := fun n => Z.of_nat n * 10 in
  let c := runCache clock 0 (NewCache 10 5)
             [CallMarkSeen (str "a"); CallIsSeen (str "a")] in
  IsSeen c (clock 1%nat) (str "a") = false
  /\ ~ cacheBounds c (clock 1%nat).
Proof.
  split; [vm_compute; reflexivity|].
  intros [_ Hage]. specialize (Hage (str "a") 0).
  assert (10 - 0 <= 5) as Habs; [|lia].
  apply Hage. vm_compute. reflexivity.
Qed.

(* ================================================================== *)
(** * The worker: duplicates *)

Section WorkerClaims.
Context `{GoStdlib}.
Context {I : Type} `{newsIndexer I}.
Variable clock : nat -> Z.
Variable uuids : nat -> gostring.

Lemma processMessage_decoded cfg value payload (w : World I) :
  json_Unmarshal value = Some payload ->
  processMessage clock uuids cfg value w
  = processPayload clock uuids cfg payload w.
Proof. intros Hdec. unfold processMessage. rewrite Hdec. reflexivity. Qed.

(** With a timestamp that parses the document does not depend on the
    clock. *)
Lemma documentOf_stamped cfg payload now now' :
  hasTimestamp payload = true ->
  documentOf cfg payload now = documentOf cfg payload now'.
Proof. intros Hts. unfold documentOf. rewrite Hts. reflexivity. Qed.

(** A message that is rejected makes no IndexNews call. *)
Lemma processMessage_rejected cfg value (w : World I) :
  json_Unmarshal value = None
  \/ (exists payload, json_Unmarshal value = Some payload
                      /\ isBlank payload = true) ->
  exists e, processMessage clock uuids cfg value w = (Some e, w).
Proof.
  intros [Hdec | (payload & Hdec & Hblank)].
  - exists ErrUnmarshal. unfold processMessage. rewrite Hdec. reflexivity.
  - exists ErrEmptyPayload.
    rewrite (processMessage_decoded _ _ _ _ Hdec), processPayload_run, Hblank.
    reflexivity.
Qed.

(** C1 (as amended). For every message that decodes to a payload with a
    title or a text and with a timestamp that parses: when the indexer
    succeeds, the id is not yet in the cache, the cache's history is
    older than the instant MarkSeen reads, and the second call checks the
    cache within ttl of that instant, calling processMessage twice in
    succession makes exactly one IndexNews call and the second call
    drops the message as a duplicate. A message that does not decode, or
    whose title and text are both blank, is returned as an error and
    makes no IndexNews call. *)
Theorem processMessage_twice cfg value (w : World I) :
  (forall payload,
     json_Unmarshal value = Some payload ->
     isBlank payload = false ->
     hasTimestamp payload = true ->
     (forall s d, (IndexNews s d).2 = None) ->
     historyCovers (items (cache w)) (order (cache w)) ->
     1 <= capacity (cache w) -> 0 <= ttl (cache w) ->
     List.Forall (fun e => ts e < clock (S (ticks w))) (order (cache w)) ->
     IsSeen (cache w) (clock (ticks w)) (doc_ID (documentOf cfg payload 0))
     = false ->
     clock (S (S (ticks w))) - clock (S (ticks w)) <= ttl (cache w) ->
     let r1 := processMessage clock uuids cfg value w in
     let r2 := processMessage clock uuids cfg value r1.2 in
     r1.1 = None /\ r2.1 = None
     /\ indexCalls r1.2 = indexCalls w ++ [documentOf cfg payload 0]
     /\ indexCalls r2.2 = indexCalls r1.2
     /\ cache r2.2 = cache r1.2)
  /\ (json_Unmarshal value = None
      \/ (exists payload, json_Unmarshal value = Some payload
                          /\ isBlank payload = true) ->
      exists e, processMessage clock uuids cfg value w = (Some e, w)).
Proof.
  split; [|apply processMessage_rejected].
  intros payload Hdec Hblank Hts Hok Hcov Hcap Httl Hold Hnew Hnear r1 r2.
  subst r2 r1.
  rewrite (processMessage_decoded _ _ _ w Hdec), processPayload_run.
  rewrite Hblank, Hts. cbv zeta.
  rewrite (documentOf_stamped cfg payload _ 0 Hts), Hnew.
  set (doc := documentOf cfg payload 0).
  pose proof (Hok (es w) doc) as Hidx.
  destruct (IndexNews (es w) doc) as [es' err]. simpl in Hidx. subst err.
  cbn [fst snd].
  rewrite (processMessage_decoded _ _ _ _ Hdec), processPayload_run.
  rewrite Hblank, Hts. cbv zeta. cbn [ticks cache es indexCalls uuidsDrawn].
  rewrite (documentOf_stamped cfg payload _ 0 Hts). fold doc.
  assert (IsSeen (MarkSeen (cache w) (clock (S (ticks w))) (doc_ID doc))
            (clock (S (S (ticks w)))) (doc_ID doc) = true) as Hseen.
  { unfold IsSeen. rewrite MarkSeen_lookup; try assumption.
    - rewrite (proj2 (MarkSeen_params _ _ _)).
      destruct (Z.leb_spec (clock (S (S (ticks w))) - clock (S (ticks w)))
                  (ttl (cache w))); [reflexivity|lia].
    - intros Hin. apply list_elem_of_In in Hin.
      pose proof (proj1 (List.Forall_forall _ _) Hold _ Hin) as Hlt.
      simpl in Hlt. lia. }
  rewrite Hseen. cbn [fst snd ticks cache es indexCalls uuidsDrawn].
  repeat split; reflexivity.
Qed.

(** C9. When processMessage finds the id in the cache it returns
    success, makes no IndexNews call and leaves the cache as it was,
    whether the payload carries a timestamp or the instant is read from
    the clock. Hence the window of an id runs from the instant of its
    last successful index: a duplicate within ttl of that instant is
    dropped without renewing the entry, and any later message with the
    same id is dropped while it is checked within ttl of that instant and
    is indexed again when it is checked more than ttl after it. *)
Theorem duplicate_does_not_extend_window cfg value payload (w : World I)
  (t0 : Z) :
  json_Unmarshal value = Some payload ->
  isBlank payload = false ->
  let seenAt := if hasTimestamp payload then ticks w else S (ticks w) in
  let doc := documentOf cfg payload (clock (ticks w)) in
  items (cache w) !! doc_ID doc = Some t0 ->
  clock seenAt - t0 <= ttl (cache w) ->
  let r1 := processMessage clock uuids cfg value w in
  (r1.1 = None /\ cache r1.2 = cache w /\ es r1.2 = es w
   /\ indexCalls r1.2 = indexCalls w)
  /\ forall value' payload',
       json_Unmarshal value' = Some payload' ->
       isBlank payload' = false ->
       let seenAt' := if hasTimestamp payload' then ticks r1.2
                      else S (ticks r1.2) in
       let doc' := documentOf cfg payload' (clock (ticks r1.2)) in
       doc_ID doc' = doc_ID doc ->
       let r2 := processMessage clock uuids cfg value' r1.2 in
       (clock seenAt' - t0 <= ttl (cache w) ->
        r2.1 = None /\ cache r2.2 = cache w
        /\ indexCalls r2.2 = indexCalls w)
       /\ (ttl (cache w) < clock seenAt' - t0 ->
           indexCalls r2.2 = indexCalls w ++ [doc']).
Proof.
  intros Hdec Hblank seenAt doc Hitem Hin r1.
  assert (forall now, IsSeen (cache w) now (doc_ID doc)
                      = (now - t0 <=? ttl (cache w))) as Hseen.
  { intros now. unfold IsSeen. rewrite Hitem.
    destruct (now - t0 <=? ttl (cache w)); reflexivity. }
  assert (r1 = (None, mkWorld (S seenAt) (uuidsDrawn w) (cache w) (es w)
                        (indexCalls w))) as Hr1.
  { subst r1.
    rewrite (processMessage_decoded _ _ _ w Hdec), processPayload_run.
    rewrite Hblank. cbv zeta. fold seenAt. fold doc. rewrite Hseen.
    destruct (Z.leb_spec (clock seenAt - t0) (ttl (cache w)));
      [reflexivity|lia]. }
  clearbody r1. subst r1.
  split; [cbn [fst snd cache es indexCalls]; repeat split; reflexivity|].
  intros value' payload' Hdec' Hblank' seenAt' doc' Hsame r2. subst r2.
  cbn [fst snd ticks] in seenAt', doc'.
  rewrite (processMessage_decoded _ _ _ _ Hdec'), processPayload_run.
  rewrite Hblank'. cbv zeta.
  cbn [fst snd ticks cache es indexCalls uuidsDrawn].
  fold seenAt'. fold doc'. rewrite Hsame, Hseen.
  split.
  - intros Hnear.
    destruct (Z.leb_spec (clock seenAt' - t0) (ttl (cache w))); [|lia].
    repeat split; reflexivity.
  - intros Hout.
    destruct (Z.leb_spec (clock seenAt' - t0) (ttl (cache w))); [lia|].
    destruct (IndexNews (es w) doc') as [es' [e|]]; reflexivity.
Qed.

(** processMessage never draws a UUID, and every document it hands to
    IndexNews carries the id computed from its own fields. *)
Lemma processMessage_no_uuid cfg value (w : World I) :
  let r := processMessage clock uuids cfg value w in
  uuidsDrawn r.2 = uuidsDrawn w
  /\ (indexCalls r.2 = indexCalls w
      \/ exists doc, indexCalls r.2 = indexCalls w ++ [doc]
           /\ doc_ID doc = BuildDocumentID (doc_Title doc)
                             (CleanText (doc_Text doc)) (doc_Timestamp doc)).
Proof.
  unfold processMessage.
  destruct (json_Unmarshal value) as [payload|];
    [|split; [reflexivity|left; reflexivity]].
  rewrite processPayload_run.
  destruct (isBlank payload); [split; [reflexivity|left; reflexivity]|].
  cbv zeta.
  destruct (IsSeen _ _ _); [split; [reflexivity|left; reflexivity]|].
  destruct (IndexNews _ _) as [es' [e|]]; (split; [reflexivity|]);
    right; eexists; (split; [reflexivity|]); reflexivity.
Qed.

End WorkerClaims.

(* ================================================================== *)
(** * The worker on the reference instance *)

(** The amended C1 on the message of the worker's test, processed twice
    within microseconds. *)
Lemma processMessage_twice_witness :
  let r1 := runWorker microClock stampedPayload testWorld in
  let r2 := runWorker microClock stampedPayload r1.2 in
  r1.1 = None /\ r2.1 = None
  /\ indexCalls r1.2
     = indexCalls testWorld
       ++ [documentOf (H := sampleStdlib) testConfig stampedPayload 0]
  /\ indexCalls r2.2 = indexCalls r1.2
  /\ cache r2.2 = cache r1.2.
Proof.
  pose proof (proj1 (processMessage_twice (H := sampleStdlib) microClock
                       (fun _ => []) testConfig (sampleMarshal stampedPayload)
                       testWorld) stampedPayload) as Hthm.
  specialize (Hthm ltac:(vm_compute; reflexivity)).
  specialize (Hthm ltac:(vm_compute; reflexivity)).
  specialize (Hthm ltac:(vm_compute; reflexivity)).
  specialize (Hthm ltac:(intros s d; reflexivity)).
  specialize (Hthm (proj1 (NewCache_inv 100 Hour 0))).
  specialize (Hthm ltac:(vm_compute; discriminate)).
  specialize (Hthm ltac:(vm_compute; discriminate)).
  specialize (Hthm ltac:(constructor)).
  specialize (Hthm ltac:(vm_compute; reflexivity)).
  specialize (Hthm ltac:(vm_compute; discriminate)).
  exact Hthm.
Defined.

(** C1 (as stated) fails on a message without timestamp: the two calls
    are three microseconds apart, the instant substituted by the first
    falls in second 15:04:05 and the one substituted by the second in
    15:04:06, the ids differ, and IndexNews is called twice. *)
Lemma processMessage_twice_unstamped :
  let r1 := runWorker microClock unstampedPayload testWorld in
  let r2 := runWorker microClock unstampedPayload r1.2 in
  r1.1 = None /\ r2.1 = None
  /\ length (indexCalls r2.2) = 2%nat
  /\ map doc_Timestamp (indexCalls r2.2)
     = [mkTime (1704207845 * Second + 999999000) 0;
        mkTime (1704207846 * Second + 2000) 0]
  /\ length (indexCalls r2.2) <> 1%nat.
Proof. vm_compute. repeat split; discriminate. Qed.

(** The scenario of C9 on the reference instance, for a message without
    timestamp and a ttl of two microseconds: the message is indexed and
    marked at the third reading of the clock; its duplicate, which takes
    its instant from the clock within the same second, is checked two
    microseconds after the mark and dropped; the next one is checked four
    microseconds after the mark and is indexed again. *)
Lemma duplicate_does_not_extend_window_witness :
  let w1 := (runWorker secondClock unstampedPayload briefWorld).2 in
  let r1 := runWorker secondClock unstampedPayload w1 in
  let r2 := runWorker secondClock unstampedPayload r1.2 in
  (r1.1 = None /\ cache r1.2 = cache w1 /\ es r1.2 = es w1
   /\ indexCalls r1.2 = indexCalls w1)
  /\ indexCalls r2.2
     = indexCalls w1
       ++ [documentOf (H := sampleStdlib) testConfig unstampedPayload
             (secondClock (ticks r1.2))].
Proof.
  pose proof (duplicate_does_not_extend_window (H := sampleStdlib)
                secondClock (fun _ => []) testConfig
                (sampleMarshal unstampedPayload) unstampedPayload
                (runWorker secondClock unstampedPayload briefWorld).2
                (secondClock 2)) as Hthm.
  cbv zeta in Hthm.
  specialize (Hthm ltac:(vm_compute; reflexivity)).
  specialize (Hthm ltac:(vm_compute; reflexivity)).
  specialize (Hthm ltac:(vm_compute; reflexivity)).
  specialize (Hthm ltac:(vm_compute; discriminate)).
  destruct Hthm as [Hfirst Hnext].
  specialize (Hnext (sampleMarshal unstampedPayload) unstampedPayload).
  specialize (Hnext ltac:(vm_compute; reflexivity)).
  specialize (Hnext ltac:(vm_compute; reflexivity)).
  specialize (Hnext ltac:(vm_compute; reflexivity)).
  exact (conj Hfirst (proj2 Hnext ltac:(vm_compute; reflexivity))).
Defined.

(** What the worker does with a text that is one URL and no title (C2):
    title synthesis strips the URL and finds no word, and the document is
    indexed with an empty title although its text is not empty. *)
Theorem processMessage_url_only_text :
  GenerateTitleFromText (str "https://example.com") 10 = []
  /\ let r := runWorker microClock urlOnlyPayload testWorld in
     r.1 = None
     /\ map doc_Title (indexCalls r.2) = [[]]
     /\ map doc_Text (indexCalls r.2) = [str "https://example.com"].
Proof. vm_compute. repeat split. Qed.

(** C8. BuildDocumentID is a function of the title, the cleaned text and
    the instant: two timestamps that denote the same instant in different
    locations give the same id. The id is always 40 characters long, all
    of them lowercase hexadecimal digits, hence never the empty string;
    and processMessage never takes the branch that draws a random UUID:
    every document it indexes carries the id computed from its fields. *)
Theorem BuildDocumentID_identity :
  (forall title text n z1 z2,
     BuildDocumentID title text (mkTime n z1)
     = BuildDocumentID title text (mkTime n z2))
  /\ (forall title text t,
        length (BuildDocumentID title text t) = 40%nat
        /\ List.Forall (fun c => isLowerHex c = true)
             (BuildDocumentID title text t)
        /\ BuildDocumentID title text t <> [])
  /\ (forall (S : GoStdlib) (I : Type) (ix : newsIndexer I) clock uuids cfg
        value (w : World I),
        let r := processMessage clock uuids cfg value w in
        uuidsDrawn r.2 = uuidsDrawn w
        /\ (indexCalls r.2 = indexCalls w
            \/ exists doc, indexCalls r.2 = indexCalls w ++ [doc]
                 /\ doc_ID doc
                    = BuildDocumentID (doc_Title doc)
                        (CleanText (doc_Text doc)) (doc_Timestamp doc))).
Proof.
  split; [reflexivity|]. split.
  - intros title text t. split; [apply BuildDocumentID_length|].
    split; [apply hex_EncodeToString_digits|].
    pose proof (BuildDocumentID_length title text t) as Hlen.
    intros Hnil. rewrite Hnil in Hlen. discriminate.
  - intros. apply processMessage_no_uuid.
Qed.

(* ================================================================== *)
(** * The query compiler *)

(** Lookups in a map built by inserting under literal keys. *)
Ltac lookup_key :=
  repeat first
    [ rewrite lookup_insert_eq
    | rewrite lookup_insert_ne by (vm_compute; discriminate)
    | rewrite lookup_singleton_eq
    | rewrite lookup_singleton_ne by (vm_compute; discriminate) ].

(** C5. For every SearchParams the request body built by SearchNews
    carries Size clamped into [1, 200] (20 when it is not positive) and
    From with negative values replaced by 0; a multi_match must clause
    over title^2 and text exactly when Query is not empty; a terms filter
    on keywords, a term filter on source and a range clause on timestamp,
    each exactly when its parameter is present, the range with gte and
    lte only for the bounds that are present; a match_all clause exactly
    when both groups are empty; track_total_hits = true; and exactly one
    sort descriptor, which is timestamp descending when Sort is empty. *)
Theorem searchBody_postcondition (params : SearchParams) :
  let body := searchBody params in
  let must := clausesOf "must" body in
  let filter := clausesOf "filter" body in
  (body !! str "size"
   = Some (AInt (if Size params <=? 0 then 20
                 else if Size params >? 200 then 200 else Size params))
   /\ 1 <= normSize (Size params) <= 200)
  /\ body !! str "from" = Some (AInt (Z.max 0 (From params)))
  /\ body !! str "track_total_hits" = Some (ABool true)
  /\ clauseNamed "multi_match" must
     = (if isEmpty (Query params) then []
        else [AMap (<[ str "query" := AString (Query params) ]>
                    {[ str "fields" := AStrings [str "title^2"; str "text"] ]})])
  /\ clauseNamed "terms" filter
     = (if isEmpty (Keywords params) then []
        else [AMap {[ str "keywords" := AStrings (Keywords params) ]}])
  /\ clauseNamed "term" filter
     = (if isEmpty (Source_ params) then []
        else [AMap {[ str "source" := AString (Source_ params) ]}])
  /\ (exists rq : gmap gostring any,
        clauseNamed "range" filter
        = (if bool_decide (Start params = None /\ End_ params = None)
           then [] else [AMap {[ str "timestamp" := AMap rq ]}])
        /\ rq !! str "gte"
           = (fun t => AString (Format_RFC3339 (Time_UTC t))) <$> Start params
        /\ rq !! str "lte"
           = (fun t => AString (Format_RFC3339 (Time_UTC t))) <$> End_ params
        /\ size rq = length (option_list (Start params)
                             ++ option_list (End_ params)))
  /\ clauseNamed "match_all" must
     = (if isEmpty (Query params) && isEmpty filter then [AMap ∅] else [])
  /\ length must
     = (if isEmpty (Query params) && isEmpty filter then 1%nat
        else length (clauseNamed "multi_match" must))
  /\ length filter
     = length (clauseNamed "terms" filter ++ clauseNamed "term" filter
               ++ clauseNamed "range" filter)
  /\ (exists field order,
        body !! str "sort"
        = Some (AMaps [ {[ field := AMap {[ str "order" := AString order ]} ]} ])
        /\ (Sort params = [] ->
            field = str "timestamp" /\ order = str "desc")).
Proof.
  destruct params as [q kws src from size sort start end_].
  cbv zeta. cbn [Size From Query Keywords Source_ Start End_ Sort].
  split.
  { split.
    { unfold searchBody. cbn [Size]. lookup_key. unfold normSize.
      destruct (size <=? 0); reflexivity. }
    unfold normSize. rewrite Z.gtb_ltb.
    destruct (Z.leb_spec size 0);
      [vm_compute; split; discriminate|].
    destruct (Z.ltb_spec 200 size); lia. }
  split.
  { unfold searchBody, normFrom. cbn [From]. lookup_key.
    destruct (Z.ltb_spec from 0); do 2 f_equal; lia. }
  split; [unfold searchBody; lookup_key; reflexivity|].
  assert (exists field order,
            sortDescriptor sort
            = {[ field := AMap {[ str "order" := AString order ]} ]}
            /\ (sort = [] -> field = str "timestamp" /\ order = str "desc"))
    as (field & order & Hsort & Hdefault).
  { unfold sortDescriptor. eexists _, _. split; [reflexivity|].
    intros ->. vm_compute. split; reflexivity. }
  assert (forall group, group = "must"%string \/ group = "filter"%string ->
            clausesOf group
              (searchBody (mkParams q kws src from size sort start end_))
            = match boolQuery (mkParams q kws src from size sort start end_)
                    !! str group with
              | Some (AMaps l) => l
              | _ => []
              end) as Hgroup.
  { intros group [-> | ->]; unfold clausesOf, searchBody; lookup_key;
      reflexivity. }
  rewrite !Hgroup by (left + right; reflexivity). clear Hgroup.
  repeat match goal with |- _ /\ _ => split end;
    try (exists field, order; split; [|exact Hdefault];
         unfold searchBody; cbn [Sort]; lookup_key; rewrite Hsort;
         reflexivity);
    try (exists (rangeQuery (mkParams q kws src from size sort start end_)));
    clear Hsort Hdefault;
    destruct start as [t1|], end_ as [t2|];
    unfold clauseNamed, boolQuery, filterClauses, mustClauses, rangeQuery;
    cbv beta iota
      delta [Size From Query Keywords Source_ Start End_ Sort
             fmap option_fmap option_map];
    try generalize (Format_RFC3339 (Time_UTC t1));
    try generalize (Format_RFC3339 (Time_UTC t2)); intros;
    destruct q as [|c q], kws as [|kw kws], src as [|sc src];
    vm_compute; repeat split; reflexivity.
Qed.

(* ================================================================== *)
(** * The search endpoint *)

Lemma clampInt_fallback (raw : gostring) (fallback max : Z) :
  raw = [] \/ Atoi raw = None \/ (exists v, Atoi raw = Some v /\ v <= 0) ->
  clampInt raw fallback max = fallback.
Proof.
  unfold clampInt. intros [-> | [Herr | (v & Hv & Hle)]].
  - reflexivity.
  - rewrite Herr. destruct (isEmpty raw); reflexivity.
  - rewrite Hv. destruct (isEmpty raw); [reflexivity|].
    destruct (Z.leb_spec v 0); [reflexivity|lia].
Qed.

Lemma clampInt_value (raw : gostring) (fallback max v : Z) :
  Atoi raw = Some v -> 0 < v ->
  clampInt raw fallback max = (if v >? max then max else v).
Proof.
  unfold clampInt. intros Hv Hpos. rewrite Hv.
  destruct raw as [|c raw]; [discriminate|]. cbn [isEmpty].
  destruct (Z.leb_spec v 0); [lia|reflexivity].
Qed.

(** C10. Parsing the parameters of GET /news never yields a client
    error. For every request: [from] falls back to 0 and [size] to the
    configured default page size when the parameter is missing, is not a
    number or is not positive, and a value above the maximum is clamped
    to it; a [start] or [end] that time.Parse rejects is dropped, leaving
    the bound absent; and the status written is 200, or 500 exactly when
    the search on the index fails (transport failure, error response, or
    a body that does not decode). *)
Theorem handleSearch_no_client_error `{GoStdlib}
  (es_Search : gmap gostring any -> option esResponse)
  (decodeHits : list Z -> option SearchResult)
  (cfg : API) (query : list (gostring * gostring)) :
  let params := searchParams cfg query in
  let r := handleSearch es_Search decodeHits cfg query in
  let rawFrom := Get query (str "from") in
  let rawSize := Get query (str "size") in
  (rawFrom = [] \/ Atoi rawFrom = None
   \/ (exists v, Atoi rawFrom = Some v /\ v <= 0) -> From params = 0)
  /\ (forall v, Atoi rawFrom = Some v -> 0 < v ->
      From params = (if v >? 10000 then 10000 else v))
  /\ (rawSize = [] \/ Atoi rawSize = None
      \/ (exists v, Atoi rawSize = Some v /\ v <= 0) ->
      Size params = DefaultPage cfg)
  /\ (forall v, Atoi rawSize = Some v -> 0 < v ->
      Size params = (if v >? MaxPage cfg then MaxPage cfg else v))
  /\ (time_Parse RFC3339 (TrimSpace (Get query (str "start"))) = None ->
      Start params = None)
  /\ (time_Parse RFC3339 (TrimSpace (Get query (str "end"))) = None ->
      End_ params = None)
  /\ (r.1 = StatusOK \/ r.1 = StatusInternalServerError)
  /\ (r.1 = StatusInternalServerError <->
      es_Search (searchBody params) = None
      \/ exists res, es_Search (searchBody params) = Some res
           /\ (resp_IsError res = true
               \/ decodeHits (resp_Body res) = None)).
Proof.
  intros params r rawFrom rawSize.
  split; [apply clampInt_fallback|].
  split; [intros v; apply clampInt_value|].
  split; [apply clampInt_fallback|].
  split; [intros v; apply clampInt_value|].
  split.
  { intros Hbad. subst params. unfold searchParams, parseTime. cbn [Start].
    rewrite Hbad. destruct (isEmpty _); reflexivity. }
  split.
  { intros Hbad. subst params. unfold searchParams, parseTime. cbn [End_].
    rewrite Hbad. destruct (isEmpty _); reflexivity. }
  subst r. unfold handleSearch, SearchNews. fold params.
  destruct (es_Search (searchBody params)) as [res|] eqn:Hsearch.
  - destruct (resp_IsError res) eqn:Herr.
    + split; [right; reflexivity|]. split; [|reflexivity].
      intros _. right. exists res. auto.
    + destruct (decodeHits (resp_Body res)) eqn:Hdec.
      * split; [left; reflexivity|]. split; [discriminate|].
        intros [Hnone | (res' & Hres & [Hbad | Hbad])]; [discriminate| |].
        -- injection Hres as <-. congruence.
        -- injection Hres as <-. congruence.
      * split; [right; reflexivity|]. split; [|reflexivity].
        intros _. right. exists res. auto.
  - split; [right; reflexivity|]. split; [|reflexivity].
    intros _. left. reflexivity.
Qed.

(** The theorem on a request with a negative offset, an oversized page
    and a start that is not a timestamp, against an index that is down. *)
Lemma handleSearch_no_client_error_witness :
  let query := [(str "from", str "-5"); (str "size", str "1000");
                (str "start", str "yesterday")] in
  let params := searchParams (H := sampleStdlib) (mkAPI 20 100) query in
  From params = 0
  /\ Size params = 100
  /\ Start params = None
  /\ (handleSearch (H := sampleStdlib) (fun _ => None) (fun _ => None)
        (mkAPI 20 100) query).1 = StatusInternalServerError.
Proof.
  pose proof (handleSearch_no_client_error (H := sampleStdlib)
                (fun _ => None) (fun _ => None) (mkAPI 20 100)
                [(str "from", str "-5"); (str "size", str "1000");
                 (str "start", str "yesterday")]) as Hthm.
  cbv zeta in Hthm.
  destruct Hthm as (Hfrom & _ & _ & Hsize & Hstart & _ & _ & Hstatus).
  split.
  { apply Hfrom. right. right. exists (-5).
    split; [vm_compute; reflexivity|lia]. }
  split.
  { apply (Hsize 1000); [vm_compute; reflexivity|lia]. }
  split.
  { apply Hstart. vm_compute. reflexivity. }
  apply Hstatus. left. reflexivity.
Defined.

(* ================================================================== *)
(** * CleanText *)

(** A replacement leaves a string alone when the pattern matches at none
    of its positions. *)
Lemma replaceAllFrom_fixed (m : matcher) (repl s : gostring) :
  (forall s1 s2, s = s1 ++ s2 -> m s2 = None) ->
  replaceAllFrom m repl O s = s.
Proof.
  induction s as [|c t IH]; intros Hnone; simpl; [reflexivity|].
  rewrite (Hnone [] (c :: t) eq_refl). f_equal. apply IH.
  intros s1 s2 ->. apply (Hnone (c :: s1) s2). reflexivity.
Qed.

Lemma stripPrefix_app (lit s r : gostring) :
  stripPrefix lit s = Some r -> s = lit ++ r.
Proof.
  revert s. induction lit as [|a lit IH]; intros s Hs; simpl in *.
  - congruence.
  - destruct s as [|c s]; [discriminate|].
    destruct (Z.eqb_spec a c) as [-> | _]; [|discriminate].
    simpl. f_equal. apply IH, Hs.
Qed.

(** A URL holds a colon. *)
Lemma urlRegex_colon (s : gostring) (n : nat) :
  urlRegex s = Some n -> In 58 s.
Proof.
  unfold urlRegex. intros Hm.
  destruct (stripPrefix (str "http") s) as [r1|] eqn:H1; [|discriminate].
  apply stripPrefix_app in H1. subst s.
  set (r2 := match r1 with
             | c :: t => if c =? 115 then t else r1
             | [] => r1
             end) in *.
  destruct (stripPrefix (str "://") r2) as [r3|] eqn:H3; [|discriminate].
  apply stripPrefix_app in H3.
  assert (In 58 r2) as Hin2 by (rewrite H3; left; reflexivity).
  apply in_or_app. right. subst r2.
  destruct r1 as [|c t]; [exact Hin2|].
  destruct (c =? 115); [right|]; exact Hin2.
Qed.

Lemma plusClass_None (p : rune -> bool) (s : gostring) :
  match s with [] => True | c :: _ => p c = false end ->
  plusClass p s = None.
Proof.
  unfold plusClass. destruct s as [|c t]; [reflexivity|].
  simpl. intros ->. reflexivity.
Qed.

(** What a replacement of a repeated class by one space leaves: the
    code points outside the class, and spaces. *)
Lemma replaceAllFrom_plusClass (p : rune -> bool) (s : gostring) :
  forall skip,
  List.Forall (fun c => p c = false \/ c = 32)
    (replaceAllFrom (plusClass p) (str " ") skip s).
Proof.
  induction s as [|c t IH]; intros skip; simpl; [constructor|].
  destruct skip as [|k]; [|apply IH].
  unfold plusClass at 1. simpl. destruct (p c) eqn:Hc.
  - constructor; [right; reflexivity|apply IH].
  - constructor; [left; exact Hc|apply IH].
Qed.

Lemma singleSpaced_weaken (s : gostring) :
  singleSpaced true s = true -> singleSpaced false s = true.
Proof.
  destruct s as [|c t]; simpl; [reflexivity|].
  destruct (re_space c); [|trivial].
  rewrite andb_false_r. discriminate.
Qed.

Lemma whitespace_output (s : gostring) :
  singleSpaced true
    (replaceAllFrom whitespace (str " ") (spanLen re_space s) s) = true
  /\ singleSpaced false (replaceAllFrom whitespace (str " ") O s) = true.
Proof.
  induction s as [|c t [IHrun IHout]]; [split; reflexivity|].
  assert (singleSpaced false (replaceAllFrom whitespace (str " ") O (c :: t))
          = true) as Hout.
  { simpl. unfold whitespace, plusClass. simpl.
    destruct (re_space c) eqn:Hc.
    - simpl. exact IHrun.
    - simpl. rewrite Hc. exact IHout. }
  split; [|exact Hout].
  simpl spanLen. destruct (re_space c) eqn:Hc.
  - simpl. exact IHrun.
  - revert Hout. simpl. unfold whitespace, plusClass. simpl. rewrite Hc.
    simpl. rewrite Hc. trivial.
Qed.

Lemma whitespace_fixed (s : gostring) : forall prev,
  singleSpaced prev s = true ->
  replaceAllFrom whitespace (str " ") O s = s.
Proof.
  induction s as [|c t IH]; intros prev Hs; [reflexivity|].
  simpl in Hs. simpl. unfold whitespace, plusClass. simpl.
  destruct (re_space c) eqn:Hc.
  - apply andb_prop in Hs as [Hs Ht]. apply andb_prop in Hs as [Hc32 _].
    apply Z.eqb_eq in Hc32. subst c.
    assert (spanLen re_space t = O) as ->.
    { destruct t as [|d t]; [reflexivity|].
      simpl in Ht. simpl. destruct (re_space d); [|reflexivity].
      rewrite andb_false_r in Ht. discriminate. }
    simpl. f_equal. apply (IH true), Ht.
  - f_equal. apply (IH false), Hs.
Qed.

Lemma singleSpaced_tail (s1 s2 : gostring) : forall prev,
  singleSpaced prev (s1 ++ s2) = true -> singleSpaced false s2 = true.
Proof.
  induction s1 as [|c t IH]; intros prev Hs; simpl in *.
  - destruct prev; [apply singleSpaced_weaken|]; exact Hs.
  - destruct (re_space c).
    + apply andb_prop in Hs as [_ Ht]. apply (IH true), Ht.
    + apply (IH false), Hs.
Qed.

Lemma singleSpaced_init (s1 s2 : gostring) : forall prev,
  singleSpaced prev (s1 ++ s2) = true -> singleSpaced prev s1 = true.
Proof.
  induction s1 as [|c t IH]; intros prev Hs; simpl in *; [reflexivity|].
  destruct (re_space c).
  - apply andb_prop in Hs as [Hc Ht]. rewrite Hc. apply (IH true), Ht.
  - apply (IH false), Hs.
Qed.

(** TrimFunc returns a piece of its argument, and trimming it again
    changes nothing. *)
Lemma TrimFunc_split (f : rune -> bool) (s : gostring) :
  exists s1 s2, s = s1 ++ TrimFunc f s ++ s2.
Proof.
  unfold TrimFunc.
  destruct (TrimLeftFunc_split f s) as (s1 & Hs1 & _).
  destruct (TrimRightFunc_split f (TrimLeftFunc f s)) as (s2 & Hs2 & _).
  exists s1, s2. rewrite <- Hs2. exact Hs1.
Qed.

Lemma TrimLeftFunc_head (f : rune -> bool) (s : gostring) :
  match TrimLeftFunc f s with [] => True | c :: _ => f c = false end.
Proof.
  induction s as [|c t IH]; simpl; [exact Logic.I|].
  destruct (f c) eqn:Hc; [exact IH|exact Hc].
Qed.

Lemma TrimLeftFunc_fixed (f : rune -> bool) (s : gostring) :
  match s with [] => True | c :: _ => f c = false end ->
  TrimLeftFunc f s = s.
Proof. destruct s as [|c t]; simpl; [reflexivity|]. intros ->. reflexivity. Qed.

Lemma TrimFunc_idempotent (f : rune -> bool) (s : gostring) :
  TrimFunc f (TrimFunc f s) = TrimFunc f s.
Proof.
  unfold TrimFunc.
  set (a := TrimLeftFunc f s).
  set (b := TrimRightFunc f a).
  assert (TrimLeftFunc f b = b) as ->.
  { apply TrimLeftFunc_fixed.
    destruct (TrimRightFunc_split f a) as (sp & Ha & _). fold b in Ha.
    pose proof (TrimLeftFunc_head f s) as Hhead. fold a in Hhead.
    destruct b as [|c b']; [exact Logic.I|].
    rewrite Ha in Hhead. exact Hhead. }
  subst b. unfold TrimRightFunc. rewrite rev_involutive.
  rewrite (TrimLeftFunc_fixed f (TrimLeftFunc f (rev a))); [reflexivity|].
  apply TrimLeftFunc_head.
Qed.

(** A replacement by one space yields code points of the input, and
    spaces. *)
Lemma replaceAllFrom_elements (m : matcher) (P : rune -> Prop)
  (s : gostring) :
  P 32 -> List.Forall P s ->
  forall skip, List.Forall P (replaceAllFrom m (str " ") skip s).
Proof.
  intros Hsp Hs. induction Hs as [|c t Hc _ IH]; intros skip; simpl;
    [constructor|].
  destruct skip as [|k]; [|apply IH].
  destruct (m (c :: t)) as [[|k]|]; try (constructor; [exact Hc|apply IH]).
  constructor; [exact Hsp|apply IH].
Qed.

Lemma Forall_piece {A} (P : A -> Prop) (s1 s s2 : list A) :
  List.Forall P (s1 ++ s ++ s2) -> List.Forall P s.
Proof.
  intros Hall. apply List.Forall_app in Hall as [_ Hall].
  apply List.Forall_app in Hall as [Hall _]. exact Hall.
Qed.

Section CleanTextFacts.
Context `{GoStdlib}.

Lemma isPunct_space : isPunct 32 = false.
Proof. reflexivity. Qed.

(** What CleanText returns: letters, numbers and single spaces, with no
    white space at either end. *)
Lemma CleanText_shape (x : gostring) :
  List.Forall (fun c => isPunct c = false) (CleanText x)
  /\ singleSpaced false (CleanText x) = true
  /\ TrimSpace (CleanText x) = CleanText x.
Proof.
  unfold CleanText. destruct x as [|c0 x]; [repeat split; constructor|].
  cbn [isEmpty].
  set (y1 := RemoveURLs (html_UnescapeString (c0 :: x))).
  set (y2 := ReplaceAllString punctuation y1 (str " ")).
  set (y3 := ReplaceAllString whitespace y2 (str " ")).
  assert (List.Forall (fun c => isPunct c = false) y3) as Hclass.
  { apply replaceAllFrom_elements; [apply isPunct_space|].
    eapply List.Forall_impl;
      [|apply (replaceAllFrom_plusClass isPunct y1 O)].
    simpl. intros c [Hc | ->]; [exact Hc|apply isPunct_space]. }
  destruct (TrimFunc_split unicode_IsSpace y3) as (s1 & s2 & Hy3).
  fold (TrimSpace y3) in Hy3.
  split; [|split].
  - rewrite Hy3 in Hclass. apply Forall_piece in Hclass. exact Hclass.
  - pose proof (proj2 (whitespace_output y2)) as Hsingle.
    change (replaceAllFrom whitespace (str " ") O y2) with y3 in Hsingle.
    rewrite Hy3 in Hsingle. apply singleSpaced_tail in Hsingle.
    eapply singleSpaced_init, Hsingle.
  - apply TrimFunc_idempotent.
Qed.

(** C6. CleanText is idempotent: for every string x,
    CleanText(CleanText(x)) = CleanText(x), given that
    html.UnescapeString returns a string without ampersand unchanged.
    The output holds only letters, numbers and single spaces, so entity
    decoding, URL removal, punctuation replacement, whitespace collapsing
    and trimming all leave it fixed. *)
Theorem CleanText_idempotent (x : gostring) :
  (forall s, ~ In 38 s -> html_UnescapeString s = s) ->
  CleanText (CleanText x) = CleanText x.
Proof.
  intros Hplain.
  destruct (CleanText_shape x) as (Hclass & Hsingle & Htrim).
  set (y := CleanText x) in *.
  assert (forall c, isPunct c = true -> ~ In c y) as Habsent.
  { intros c Hc Hin.
    pose proof (proj1 (List.Forall_forall _ _) Hclass c Hin) as Hnot.
    simpl in Hnot. congruence. }
  unfold CleanText at 1. destruct (isEmpty y) eqn:Hy.
  { destruct y; [reflexivity|discriminate]. }
  rewrite Hplain by (apply Habsent; reflexivity).
  assert (RemoveURLs y = y) as ->.
  { apply replaceAllFrom_fixed. intros s1 s2 Hs.
    destruct (urlRegex s2) as [n|] eqn:Hurl; [|reflexivity].
    exfalso. apply (Habsent 58); [reflexivity|].
    rewrite Hs. apply in_or_app. right. eapply urlRegex_colon, Hurl. }
  assert (ReplaceAllString punctuation y (str " ") = y) as ->.
  { apply replaceAllFrom_fixed. intros s1 s2 Hs. apply plusClass_None.
    destruct s2 as [|c s2]; [exact Logic.I|].
    rewrite Hs in Hclass. apply List.Forall_app in Hclass as [_ Hclass].
    inversion Hclass; assumption. }
  assert (ReplaceAllString whitespace y (str " ") = y) as ->
    by (eapply whitespace_fixed, Hsingle).
  exact Htrim.
Qed.

End CleanTextFacts.

(** The reference decoder looks for an ampersand before it changes
    anything. *)
Lemma sample_Unescape_plain (s : gostring) :
  ~ In 38 s -> sample_Unescape s = s.
Proof.
  intros Hno. unfold sample_Unescape, ReplaceAllString.
  assert (forall lit repl, In 38 (firstn 1 lit) ->
            replaceAllFrom (literal lit) repl O s = s) as Hfix.
  { intros lit repl Hlit. apply replaceAllFrom_fixed. intros s1 s2 Hs.
    unfold literal. destruct (stripPrefix lit s2) as [r|] eqn:Hr;
      [|reflexivity].
    exfalso. apply Hno. apply stripPrefix_app in Hr.
    rewrite Hs, Hr. apply in_or_app. right. apply in_or_app. left.
    destruct lit as [|a lit]; [destruct Hlit|].
    destruct Hlit as [<- | []]. left. reflexivity. }
  rewrite !Hfix by (left; reflexivity). reflexivity.
Qed.

(** The theorem on a text with an entity, punctuation, a URL and runs
    of white space. *)
Lemma CleanText_idempotent_witness :
  let x := str "Hot &amp; cold!!!   tours: https://example.com/a?b=1 now " in
  CleanText (H := sampleStdlib) x = str "Hot cold tours now"
  /\ CleanText (H := sampleStdlib) (CleanText (H := sampleStdlib) x)
     = CleanText (H := sampleStdlib) x.
Proof.
  split; [vm_compute; reflexivity|].
  apply (CleanText_idempotent (H := sampleStdlib)).
  exact sample_Unescape_plain.
Defined.

(* ================================================================== *)
(** * Keyword extraction *)

(** [strLt] is a strict total order. *)
Lemma strLt_irrefl (a : gostring) : strLt a a = false.
Proof.
  induction a as [|x a IH]; simpl; [reflexivity|].
  rewrite Z.ltb_irrefl. exact IH.
Qed.

Lemma strLt_total (a : gostring) : forall b,
  strLt a b = false -> strLt b a = false -> a = b.
Proof.
  induction a as [|x a IH]; intros [|y b] Hab Hba; simpl in *;
    try discriminate; [reflexivity|].
  destruct (Z.ltb_spec x y); [discriminate|].
  destruct (Z.ltb_spec y x); [discriminate|].
  assert (x = y) as -> by lia. f_equal. apply IH; assumption.
Qed.

Lemma strLt_false_trans (a : gostring) : forall b c,
  strLt b a = false -> strLt c b = false -> strLt c a = false.
Proof.
  induction a as [|x a IH]; intros b c Hba Hcb.
  - destruct c; reflexivity.
  - destruct b as [|y b]; [discriminate|].
    destruct c as [|z c]; [discriminate|].
    simpl in *.
    destruct (Z.ltb_spec y x); [discriminate|].
    destruct (Z.ltb_spec z y); [discriminate|].
    destruct (Z.ltb_spec z x); [lia|].
    destruct (Z.ltb_spec x z); [reflexivity|].
    destruct (Z.ltb_spec x y); [lia|].
    destruct (Z.ltb_spec y z); [lia|].
    eapply IH; eassumption.
Qed.

(** [kvLess] read as a proposition. *)
Lemma kvLess_true (p q : gostring * Z) :
  kvLess p q = true <->
  p.2 > q.2 \/ (p.2 = q.2 /\ strLt p.1 q.1 = true).
Proof.
  unfold kvLess. destruct (Z.eqb_spec p.2 q.2) as [Heq | Hne].
  - split; [intros Hlt; right; auto|]. intros [Hgt | [_ Hlt]]; [lia|exact Hlt].
  - rewrite Z.gtb_ltb. split.
    + intros Hlt. apply Z.ltb_lt in Hlt. left. lia.
    + intros [Hgt | [Heq _]]; [apply Z.ltb_lt; lia|contradiction].
Qed.

Lemma kvLess_false (p q : gostring * Z) :
  kvLess p q = false <->
  p.2 < q.2 \/ (p.2 = q.2 /\ strLt p.1 q.1 = false).
Proof.
  unfold kvLess. destruct (Z.eqb_spec p.2 q.2) as [Heq | Hne].
  - split; [intros Hlt; right; auto|]. intros [Hgt | [_ Hlt]]; [lia|exact Hlt].
  - rewrite Z.gtb_ltb. split.
    + intros Hlt. apply Z.ltb_ge in Hlt. left. lia.
    + intros [Hgt | [Heq _]]; [apply Z.ltb_ge; lia|contradiction].
Qed.

Lemma strLt_asym (a : gostring) : forall b,
  strLt a b = true -> strLt b a = false.
Proof.
  induction a as [|x a IH]; intros [|y b]; simpl; try discriminate;
    [reflexivity|].
  destruct (Z.ltb_spec x y), (Z.ltb_spec y x); try lia; try discriminate;
    try reflexivity.
  apply IH.
Qed.

#[export] Instance kvOrder_total : base.Total kvOrder.
Proof.
  intros p q. unfold kvOrder.
  destruct (kvLess q p) eqn:Hqp; [|left; reflexivity].
  right. apply kvLess_true in Hqp. apply kvLess_false.
  destruct Hqp as [Hgt | [Heq Hlt]]; [left; lia|].
  right. split; [lia|]. apply strLt_asym, Hlt.
Qed.

#[export] Instance kvOrder_trans : Transitive kvOrder.
Proof.
  intros p q r Hpq Hqr. unfold kvOrder in *.
  apply kvLess_false in Hpq, Hqr. apply kvLess_false.
  destruct Hpq as [Hpq | [Hpq Hspq]], Hqr as [Hqr | [Hqr Hsqr]];
    try (left; lia).
  right. split; [lia|]. eapply strLt_false_trans; eassumption.
Qed.

(** On pairs with distinct words the order of sort.Slice is strict. *)
Lemma kvOrder_strict (p q : gostring * Z) :
  kvOrder p q -> p.1 <> q.1 -> kvLess p q = true.
Proof.
  unfold kvOrder. intros Hqp Hne. apply kvLess_false in Hqp.
  apply kvLess_true. destruct Hqp as [Hlt | [Heq Hs]]; [left; lia|].
  right. split; [lia|].
  destruct (strLt p.1 q.1) eqn:Hpq; [reflexivity|].
  exfalso. apply Hne. apply strLt_total; assumption.
Qed.

Lemma frequency_cons (w t : gostring) (tokens : list gostring) :
  frequency w (t :: tokens)
  = (if bool_decide (t = w) then 1 else 0) + frequency w tokens.
Proof.
  unfold frequency. simpl. destruct (bool_decide (t = w)); simpl; lia.
Qed.

Lemma frequency_nonneg (w : gostring) (tokens : list gostring) :
  0 <= frequency w tokens.
Proof. unfold frequency. lia. Qed.

Lemma frequency_pos (w : gostring) (tokens : list gostring) :
  w ∈ tokens <-> 0 < frequency w tokens.
Proof.
  induction tokens as [|t tokens IH].
  - split; [intros Hin; inversion Hin|]. unfold frequency. simpl. lia.
  - rewrite frequency_cons, elem_of_cons.
    pose proof (frequency_nonneg w tokens).
    destruct (bool_decide_reflect (t = w)) as [-> | Hne].
    + split; [lia|]. intros _. left. reflexivity.
    + split.
      * intros [-> | Hin]; [contradiction|]. apply IH in Hin. lia.
      * intros Hpos. right. apply IH. lia.
Qed.

Section KeywordFacts.
Context `{GoStdlib}.

(** The map the counting loop builds holds, for every word, the number
    of its occurrences among the qualifying tokens. *)
Lemma countTokens_lookup (minLen : Z) (toks : list gostring) :
  forall (freq : gmap gostring Z) (w : gostring),
  countTokens minLen freq toks !! w
  = let n := frequency w (List.filter (qualifies minLen)
                            (map trimToken toks)) in
    if n =? 0 then freq !! w else Some (default 0 (freq !! w) + n).
Proof.
  induction toks as [|tok toks IH]; intros freq w; [reflexivity|].
  cbn [countTokens map List.filter]. cbv zeta.
  destruct (qualifies minLen (trimToken tok)) eqn:Hq; unfold qualifies in Hq;
    destruct (len (trimToken tok) <? minLen);
    destruct (bool_decide (trimToken tok ∈ stopwords));
    try discriminate Hq; try apply IH.
  rewrite IH. cbv zeta. rewrite frequency_cons.
  pose proof (frequency_nonneg w
    (List.filter (qualifies minLen) (map trimToken toks))) as Hn.
  revert Hn.
  generalize (frequency w
    (List.filter (qualifies minLen) (map trimToken toks))).
  intros n Hn.
  destruct (bool_decide_reflect (trimToken tok = w)) as [-> | Hne].
  - rewrite lookup_insert_eq. simpl default.
    destruct (Z.eqb_spec n 0) as [Hz | Hn0];
      destruct (Z.eqb_spec (1 + n) 0); try lia; f_equal; lia.
  - rewrite lookup_insert_ne by exact Hne.
    replace (0 + n) with n by lia. reflexivity.
Qed.

(** The pairs of the map are the words that occur among the tokens, each
    with its frequency. *)
Lemma countTokens_pairs (text : gostring) (minLen : Z) (w : gostring)
  (n : Z) :
  (w, n) ∈ map_to_list
             (countTokens minLen ∅ (Fields (ToLower (CleanText text))))
  <-> w ∈ keywordTokens text minLen
      /\ n = frequency w (keywordTokens text minLen).
Proof.
  rewrite elem_of_map_to_list, countTokens_lookup. cbv zeta.
  fold (keywordTokens text minLen). rewrite lookup_empty.
  rewrite frequency_pos. simpl default.
  destruct (Z.eqb_spec (frequency w (keywordTokens text minLen)) 0)
    as [Hz | Hnz].
  - split; [discriminate|]. intros [Hpos _]. lia.
  - pose proof (frequency_nonneg w (keywordTokens text minLen)).
    split.
    + intros Heq. injection Heq as <-. split; lia.
    + intros [_ ->]. reflexivity.
Qed.

(** ExtractKeywords without its early returns: both return what the
    general path computes. *)
Lemma ExtractKeywords_eq (text : gostring) (limit minLen : Z) :
  ExtractKeywords text limit minLen
  = let pairs :=
      merge_sort kvOrder
        (map_to_list
           (countTokens minLen ∅ (Fields (ToLower (CleanText text))))) in
    let max := if (limit <=? 0) || (limit >? len pairs)
               then len pairs else limit in
    map fst (slicePrefix pairs max).
Proof.
  unfold ExtractKeywords. cbv zeta.
  destruct (ToLower (CleanText text)) as [|c clean] eqn:Hclean.
  - simpl. rewrite map_to_list_empty. unfold slicePrefix.
    rewrite firstn_nil. reflexivity.
  - cbn [isEmpty].
    set (freq := countTokens minLen ∅ (Fields (c :: clean))).
    destruct (Z.eqb_spec (Z.of_nat (size freq)) 0) as [Hz | _];
      [|reflexivity].
    assert (freq = ∅) as -> by (apply map_size_empty_inv; lia).
    rewrite map_to_list_empty. unfold slicePrefix. simpl merge_sort.
    rewrite firstn_nil. reflexivity.
Qed.

End KeywordFacts.

(** A list sorted for the order of sort.Slice whose words are distinct
    is strictly sorted. *)
Lemma StronglySorted_strict (l : list (gostring * Z)) :
  StronglySorted kvOrder l -> NoDup (map fst l) ->
  StronglySorted (fun p q => kvLess p q = true) l.
Proof.
  induction 1 as [|p l Hl IH Hp]; intros Hnd; [constructor|].
  inversion Hnd as [|? ? Hnotin Hnd']; subst.
  constructor; [apply IH, Hnd'|].
  apply List.Forall_forall. intros q Hq.
  apply kvOrder_strict.
  - exact (proj1 (List.Forall_forall _ _) Hp q Hq).
  - intros Heq. apply Hnotin. rewrite Heq.
    apply list_elem_of_In, in_map, Hq.
Qed.

(** The order of sort.Slice is antisymmetric, so the sorted sequence of
    some pairs is the same whatever order the map hands them over in and
    whatever sorting algorithm arranges them. *)
Lemma kvOrder_antisym (p q : gostring * Z) :
  kvOrder p q -> kvOrder q p -> p = q.
Proof.
  unfold kvOrder. intros Hqp Hpq.
  apply kvLess_false in Hqp, Hpq.
  destruct p as [w1 n1], q as [w2 n2]. simpl in *.
  destruct Hqp as [Hlt | [Heq Hs1]], Hpq as [Hlt' | [Heq' Hs2]]; try lia.
  f_equal; [|lia]. apply strLt_total; assumption.
Qed.

Lemma sort_Slice_determined (pairs sorted : list (gostring * Z)) :
  sorted ≡ₚ pairs -> StronglySorted kvOrder sorted ->
  sorted = merge_sort kvOrder pairs.
Proof.
  intros Hperm Hsorted.
  apply (StronglySorted_unique_strong kvOrder).
  - intros p q _ _. apply kvOrder_antisym.
  - exact Hsorted.
  - apply StronglySorted_merge_sort; apply _.
  - rewrite Hperm. symmetry. apply merge_sort_Permutation.
Qed.

Lemma StronglySorted_firstn {A} (R : A -> A -> Prop) (l : list A) :
  StronglySorted R l -> forall n, StronglySorted R (firstn n l).
Proof.
  induction 1 as [|x l Hl IH Hx]; intros [|n]; simpl; try constructor.
  - apply IH.
  - apply List.Forall_forall. intros y Hy.
    apply (proj1 (List.Forall_forall _ _) Hx).
    apply list_elem_of_In, (subseteq_take n l), list_elem_of_In, Hy.
Qed.

Lemma ranks_of_pairs (tokens : list gostring) (l : list (gostring * Z)) :
  (forall p, In p l -> p.2 = frequency p.1 tokens) ->
  StronglySorted (fun p q => kvLess p q = true) l ->
  StronglySorted (ranksBefore tokens) (map fst l).
Proof.
  intros Hfreq Hsorted.
  induction Hsorted as [|p l Hl IH Hp]; simpl; [constructor|].
  constructor.
  - apply IH. intros q Hq. apply Hfreq. right. exact Hq.
  - apply List.Forall_forall. intros w Hw.
    apply in_map_iff in Hw as (q & <- & Hq).
    pose proof (proj1 (List.Forall_forall _ _) Hp q Hq) as Hless.
    apply kvLess_true in Hless. unfold ranksBefore.
    rewrite <- (Hfreq p (or_introl eq_refl)), <- (Hfreq q (or_intror Hq)).
    exact Hless.
Qed.

Section KeywordClaim.
Context `{GoStdlib}.

(** The full ranking: every word of the tokens once, best first. *)
Lemma ExtractKeywords_all (text : gostring) (minLen : Z) :
  let tokens := keywordTokens text minLen in
  let all := ExtractKeywords text 0 minLen in
  (forall w, w ∈ all <-> w ∈ tokens)
  /\ NoDup all
  /\ StronglySorted (ranksBefore tokens) all
  /\ all = map fst
             (merge_sort kvOrder
                (map_to_list
                   (countTokens minLen ∅
                      (Fields (ToLower (CleanText text)))))).
Proof.
  intros tokens all. subst all. rewrite ExtractKeywords_eq. cbv zeta.
  set (freq := countTokens minLen ∅ (Fields (ToLower (CleanText text)))).
  set (pairs := merge_sort kvOrder (map_to_list freq)).
  assert (pairs ≡ₚ map_to_list freq) as Hperm
    by apply merge_sort_Permutation.
  assert (slicePrefix pairs (len pairs) = pairs) as Hall.
  { unfold slicePrefix, len. rewrite Nat2Z.id. apply firstn_all. }
  cbn [Z.leb Z.compare orb]. rewrite Hall.
  assert (forall p, p ∈ pairs <->
                    p.1 ∈ tokens /\ p.2 = frequency p.1 tokens) as Hpairs.
  { intros [w n]. rewrite Hperm. apply countTokens_pairs. }
  split; [|split; [|split; [|reflexivity]]].
  - intros w. split.
    + intros Hw. apply list_elem_of_In, in_map_iff in Hw as (p & <- & Hp).
      apply list_elem_of_In, Hpairs in Hp. exact (proj1 Hp).
    + intros Hw. apply list_elem_of_In, in_map_iff.
      exists (w, frequency w tokens). split; [reflexivity|].
      apply list_elem_of_In, Hpairs. split; [exact Hw|reflexivity].
  - change (map fst pairs) with (pairs.*1). rewrite Hperm.
    apply NoDup_fst_map_to_list.
  - apply ranks_of_pairs.
    + intros p Hp. apply list_elem_of_In, Hpairs in Hp. exact (proj2 Hp).
    + apply StronglySorted_strict.
      * apply StronglySorted_merge_sort; apply _.
      * change (map fst pairs) with (pairs.*1). rewrite Hperm.
        apply NoDup_fst_map_to_list.
Qed.

(** C4. For every text, limit and minLen (in particular for minLen >= 0):
    no keyword returned has fewer than minLen code points, none is a
    stop-word, and each is one of the tokens of the text; no keyword is
    returned twice; the keywords are ordered by descending frequency,
    ties broken by ascending lexicographic order; there are at most
    limit of them when limit > 0; with limit <= 0 or limit greater than
    the number of distinct qualifying tokens all of these are returned,
    and otherwise the first limit of that ranking. *)
Theorem ExtractKeywords_postcondition (text : gostring) (limit minLen : Z) :
  let tokens := keywordTokens text minLen in
  let kws := ExtractKeywords text limit minLen in
  let all := ExtractKeywords text 0 minLen in
  (forall w, w ∈ kws ->
     minLen <= len w /\ (w ∉ stopwords) /\ (w ∈ tokens))
  /\ NoDup kws
  /\ StronglySorted (ranksBefore tokens) kws
  /\ (0 < limit -> len kws <= limit)
  /\ (forall w, w ∈ all <-> w ∈ tokens)
  /\ length all = size (list_to_set tokens : gset gostring)
  /\ kws = (if (limit <=? 0) || (limit >? len all) then all
            else slicePrefix all limit).
Proof.
  intros tokens kws all.
  destruct (ExtractKeywords_all text minLen) as (Hmem & Hnd & Hsorted & Hall).
  fold tokens all in Hmem, Hnd, Hsorted, Hall.
  assert (kws = firstn (Z.to_nat (if (limit <=? 0) || (limit >? len all)
                                  then len all else limit)) all) as Hkws.
  { subst kws. rewrite ExtractKeywords_eq. cbv zeta.
    unfold slicePrefix. rewrite <- firstn_map, <- Hall.
    replace (len (merge_sort kvOrder _)) with (len all); [reflexivity|].
    rewrite Hall. unfold len. rewrite length_map. reflexivity. }
  assert (forall w, w ∈ kws -> w ∈ all) as Hsub.
  { intros w. rewrite Hkws. apply subseteq_take. }
  split; [|split; [|split; [|split; [|split; [exact Hmem|split]]]]].
  - intros w Hw. apply Hsub, Hmem in Hw.
    split; [|split; [|exact Hw]].
    + apply list_elem_of_In, filter_In in Hw as [_ Hq].
      unfold qualifies in Hq. apply andb_prop in Hq as [Hlen _].
      destruct (Z.ltb_spec (len w) minLen); [discriminate|lia].
    + apply list_elem_of_In, filter_In in Hw as [_ Hq].
      unfold qualifies in Hq. apply andb_prop in Hq as [_ Hstop].
      intros Hin. rewrite (bool_decide_eq_true_2 _ Hin) in Hstop.
      discriminate.
  - rewrite Hkws. eapply sublist_NoDup; [exact Hnd|apply sublist_take].
  - rewrite Hkws. apply StronglySorted_firstn, Hsorted.
  - intros Hpos. rewrite Hkws. unfold len. rewrite length_take, Z.gtb_ltb.
    destruct (Z.leb_spec limit 0); [lia|]. cbn [orb].
    destruct (Z.ltb_spec (Z.of_nat (length all)) limit); lia.
  - rewrite <- (size_list_to_set (C := gset gostring) all Hnd).
    f_equal. apply set_eq. intros w.
    rewrite !elem_of_list_to_set. apply Hmem.
  - rewrite Hkws. unfold slicePrefix.
    destruct ((limit <=? 0) || (limit >? len all)); [|reflexivity].
    unfold len. rewrite Nat2Z.id. apply firstn_all.
Qed.

End KeywordClaim.

(** The theorem on the text of the repository's keyword test. *)
Lemma ExtractKeywords_postcondition_witness :
  let text :=
    [1058; 1091; 1088; 32; 1058; 1091; 1088; 32; 1087; 1086; 1077; 1079;
     1076; 1082; 1072; 32; 1087; 1086; 1077; 1079; 1076; 1082; 1072; 32;
     1087; 1086; 1077; 1079; 1076; 1082; 1072; 32; 1084; 1086; 1088; 1077;
     32; 1080; 32; 1080; 32; 1089; 1086; 1083; 1085; 1094; 1077] in
  ExtractKeywords (H := sampleStdlib) text 3 3
  = [[1087; 1086; 1077; 1079; 1076; 1082; 1072]; [1090; 1091; 1088];
     [1084; 1086; 1088; 1077]]
  /\ len (ExtractKeywords (H := sampleStdlib) text 3 3) <= 3.
Proof.
  split; [vm_compute; reflexivity|].
  apply (ExtractKeywords_postcondition (H := sampleStdlib)). lia.
Defined.

(* ================================================================== *)
(** * The dedupe cache: what IsSeen reports *)

Lemma NewCache_params capacity0 ttl0 :
  1 <= capacity (NewCache capacity0 ttl0) /\ 0 < ttl (NewCache capacity0 ttl0).
Proof.
  unfold NewCache. simpl. split.
  - destruct (Z.leb_spec capacity0 0); lia.
  - destruct (Z.leb_spec ttl0 0); [reflexivity|lia].
Qed.

Lemma runCache_params clock ops : forall tick c,
  capacity (runCache clock tick c ops) = capacity c
  /\ ttl (runCache clock tick c ops) = ttl c.
Proof.
  induction ops as [|op ops IH]; intros tick c; simpl; [split; reflexivity|].
  destruct (IH (S tick) (stepCache c (clock tick) op)) as [-> ->].
  destruct op; simpl; [apply MarkSeen_params|split; reflexivity].
Qed.

(** Every entry of the history of a cache built by calls was put there
    by a MarkSeen call for its key, at the reading of that call; and the
    map is covered by the history. *)
Lemma runCache_history clock capacity0 ttl0 ops :
  let c := runCache clock 0 (NewCache capacity0 ttl0) ops in
  historyCovers (items c) (order c)
  /\ forall e, e ∈ order c ->
       exists i, ops !! i = Some (CallMarkSeen (key e)) /\ ts e = clock i.
Proof.
  induction ops as [|op ops IH] using rev_ind; cbv zeta.
  - simpl. split; [intros k t Hk; rewrite lookup_empty in Hk; discriminate|].
    intros e He. inversion He.
  - rewrite runCache_snoc. destruct IH as [Hcov Hmarks].
    set (c := runCache clock 0 (NewCache capacity0 ttl0) ops) in *.
    destruct op as [k|k]; simpl.
    + unfold MarkSeen, compact. simpl.
      pose proof (historyCovers_mark c (clock (length ops)) k Hcov) as Hcov1.
      assert (0 <= capacity c) as Hcap.
      { subst c. rewrite (proj1 (runCache_params _ _ _ _)).
        pose proof (NewCache_params capacity0 ttl0). lia. }
      pose proof (compactLoop_size (capacity c)
                    (clock (length ops) - ttl c) _ _ Hcap Hcov1) as [Hcov2 _].
      pose proof (compactLoop_sub (capacity c) (clock (length ops) - ttl c)
                    (order c ++ [mkEntry k (clock (length ops))])
                    (<[k := clock (length ops)]> (items c))) as [Hsub _].
      destruct (compactLoop _ _ _ _) as [items' order']. simpl in *.
      split; [exact Hcov2|].
      intros e He. apply Hsub, elem_of_app in He as [He | He].
      * destruct (Hmarks e He) as (i & Hi & Hts). exists i.
        split; [|exact Hts]. apply lookup_app_l_Some, Hi.
      * apply list_elem_of_singleton in He. subst e. simpl.
        exists (length ops). split; [|reflexivity].
        rewrite lookup_app_r by lia. rewrite Nat.sub_diag. reflexivity.
    + split; [exact Hcov|]. intros e He.
      destruct (Hmarks e He) as (i & Hi & Hts). exists i.
      split; [|exact Hts]. apply lookup_app_l_Some, Hi.
Qed.

(** X1. IsSeen reports no key that was not marked: in a cache built by
    any sequence of calls, IsSeen(k) at the instant [now] is true only
    if some MarkSeen(k) of the sequence was made within ttl of [now]. *)
Theorem IsSeen_sound (capacity0 ttl0 : Z) (clock : nat -> Z)
  (ops : list call) (k : gostring) (now : Z) :
  let c := runCache clock 0 (NewCache capacity0 ttl0) ops in
  IsSeen c now k = true ->
  exists i, ops !! i = Some (CallMarkSeen k) /\ now - clock i <= ttl c.
Proof.
  intros c Hseen.
  destruct (runCache_history clock capacity0 ttl0 ops) as [Hcov Hmarks].
  fold c in Hcov, Hmarks. unfold IsSeen in Hseen.
  destruct (items c !! k) as [t|] eqn:Hk; [|discriminate].
  destruct (Z.leb_spec (now - t) (ttl c)); [|discriminate].
  destruct (Hmarks _ (Hcov k t Hk)) as (i & Hi & Hts). simpl in *.
  exists i. split; [exact Hi|]. lia.
Qed.

Lemma IsSeen_sound_witness :
  exists i, [CallMarkSeen (str "first"); CallMarkSeen (str "second")] !! i
            = Some (CallMarkSeen (str "second"))
            /\ 15 - (fun n => Z.of_nat n * 10) i <= 60.
Proof.
  apply (IsSeen_sound 1 60 (fun n => Z.of_nat n * 10)
           [CallMarkSeen (str "first"); CallMarkSeen (str "second")]
           (str "second") 15).
  vm_compute. reflexivity.
Defined.

Lemma strictly_increasing (clock : nat -> Z) :
  (forall n, clock n < clock (S n)) ->
  forall i j, (i < j)%nat -> clock i < clock j.
Proof.
  intros Hstep i j Hij. induction Hij as [|j Hij IH]; [apply Hstep|].
  pose proof (Hstep j). lia.
Qed.

(** X2. After MarkSeen(k) the key is seen for exactly ttl: on a clock
    that advances from reading to reading, whatever calls came before,
    IsSeen(k) at an instant [now] after a MarkSeen(k) made at [t] is true
    when now - t <= ttl and false beyond; the compaction that follows the
    mark never drops the key just marked. *)
Theorem MarkSeen_then_IsSeen (capacity0 ttl0 : Z) (clock : nat -> Z)
  (ops : list call) (k : gostring) (now : Z) :
  (forall n, clock n < clock (S n)) ->
  let c := runCache clock 0 (NewCache capacity0 ttl0)
             (ops ++ [CallMarkSeen k]) in
  items c !! k = Some (clock (length ops))
  /\ IsSeen c now k = (now - clock (length ops) <=? ttl c).
Proof.
  intros Hstep c.
  assert (items c !! k = Some (clock (length ops))) as Hk.
  { subst c. rewrite runCache_snoc. simpl.
    destruct (runCache_history clock capacity0 ttl0 ops) as [Hcov Hmarks].
    pose proof (runCache_params clock ops 0%nat (NewCache capacity0 ttl0))
      as [Hcap Httl].
    pose proof (NewCache_params capacity0 ttl0) as [Hcap0 Httl0].
    apply MarkSeen_lookup; try lia; [exact Hcov|].
    intros Hin. destruct (Hmarks _ Hin) as (i & Hi & Hts). simpl in Hts.
    apply lookup_lt_Some in Hi.
    pose proof (strictly_increasing clock Hstep i (length ops) Hi). lia. }
  split; [exact Hk|]. unfold IsSeen. rewrite Hk.
  destruct (now - clock (length ops) <=? ttl c); reflexivity.
Qed.

Lemma MarkSeen_then_IsSeen_witness :
  let c := runCache (fun n => Z.of_nat n * 10) 0 (NewCache 1 25)
             ([CallMarkSeen (str "first")] ++ [CallMarkSeen (str "second")]) in
  IsSeen c 35 (str "second") = true /\ IsSeen c 36 (str "second") = false.
Proof.
  pose proof (MarkSeen_then_IsSeen 1 25 (fun n => Z.of_nat n * 10)
                [CallMarkSeen (str "first")] (str "second")) as Hthm.
  split.
  - rewrite (proj2 (Hthm 35 ltac:(intros n; cbv beta; lia))).
    vm_compute. reflexivity.
  - rewrite (proj2 (Hthm 36 ltac:(intros n; cbv beta; lia))).
    vm_compute. reflexivity.
Defined.

(* ================================================================== *)
(** * The dedupe cache: eviction by capacity *)

Lemma marksFrom_app clock ks1 : forall tick ks2,
  marksFrom clock tick (ks1 ++ ks2)
  = marksFrom clock tick ks1
    ++ marksFrom clock (tick + length ks1) ks2.
Proof.
  induction ks1 as [|k ks1 IH]; intros tick ks2; simpl.
  - rewrite Nat.add_0_r. reflexivity.
  - rewrite IH, <- plus_n_Sm. reflexivity.
Qed.

Lemma marksFrom_length clock ks : forall tick,
  length (marksFrom clock tick ks) = length ks.
Proof. induction ks; intros; simpl; [|rewrite IHks]; reflexivity. Qed.

Lemma marksFrom_keys clock ks : forall tick,
  key <$> marksFrom clock tick ks = ks.
Proof. induction ks; intros; simpl; [|rewrite IHks]; reflexivity. Qed.

Lemma marksFrom_lookup clock ks : forall tick i,
  marksFrom clock tick ks !! i
  = (fun k => mkEntry k (clock (tick + i)%nat)) <$> ks !! i.
Proof.
  induction ks as [|k ks IH]; intros tick i; [destruct i; reflexivity|].
  destruct i as [|i]; simpl.
  - rewrite Nat.add_0_r. reflexivity.
  - rewrite IH. replace (S tick + i)%nat with (tick + S i)%nat by lia.
    reflexivity.
Qed.

(** compact leaves a cache alone that is within capacity and holds no
    expired entry. *)
Lemma compactLoop_stop (cap cutoff : Z) (m : gmap gostring Z)
  (l : list entry) :
  Z.of_nat (size m) <= cap ->
  (forall e, e ∈ l -> cutoff <= ts e) ->
  compactLoop cap cutoff m l = (m, l).
Proof.
  intros Hsize Hfresh. destruct l as [|e l]; [reflexivity|]. simpl.
  pose proof (Hfresh e ltac:(left)) as He.
  destruct (Z.gtb_spec (Z.of_nat (size m)) cap); [lia|].
  destruct (Z.ltb_spec (ts e) cutoff); [lia|]. reflexivity.
Qed.

Lemma entry_pairs_keys (l : list entry) :
  ((fun e => (key e, ts e)) <$> l).*1 = key <$> l.
Proof. rewrite <- list_fmap_compose. reflexivity. Qed.

(** Marking distinct keys inside one ttl window: the history is the last
    [capacity] marks and the map holds exactly their entries. *)
Lemma runCache_latest capacity0 ttl0 clock ks :
  NoDup ks ->
  (forall n, clock n <= clock (S n)) ->
  (forall i, (i < length ks)%nat ->
     clock i - clock 0%nat <= ttl (NewCache capacity0 ttl0)) ->
  let c := runCache clock 0 (NewCache capacity0 ttl0) (CallMarkSeen <$> ks) in
  order c = drop (length ks - Z.to_nat (capacity c)) (marksFrom clock 0 ks)
  /\ items c = list_to_map ((fun e => (key e, ts e)) <$> order c).
Proof.
  intros Hnodup Hmono. cbv zeta.
  induction ks as [|k ks IH] using rev_ind; intros Hwindow.
  { simpl. split; reflexivity. }
  apply NoDup_app in Hnodup as (Hnodup & Hfresh & _).
  destruct (IH Hnodup) as [Horder Hitems]; clear IH.
  { intros i Hi. apply Hwindow. rewrite length_app. lia. }
  rewrite fmap_app. change (CallMarkSeen <$> [k]) with [CallMarkSeen k].
  rewrite runCache_snoc, length_fmap. simpl.
  pose proof (runCache_params clock (CallMarkSeen <$> ks) 0%nat
                (NewCache capacity0 ttl0)) as [Hcap Httl].
  pose proof (NewCache_params capacity0 ttl0) as [Hcap0 _].
  set (c := runCache clock 0 (NewCache capacity0 ttl0) (CallMarkSeen <$> ks))
    in *.
  set (n := length ks) in *. set (now := clock n).
  assert (forall i j, (i <= j)%nat -> clock i <= clock j) as Hle.
  { intros i j Hij. induction Hij as [|j Hij IHle]; [lia|].
    pose proof (Hmono j). lia. }
  assert (forall e, e ∈ order c ++ [mkEntry k now] -> now - ttl c <= ts e)
    as Hyoung.
  { intros e He. rewrite Httl.
    pose proof (Hwindow n ltac:(rewrite length_app; simpl; lia)) as Hw.
    apply elem_of_app in He as [He | He].
    - rewrite Horder in He. apply list_elem_of_lookup in He as [i Hi].
      rewrite lookup_drop, marksFrom_lookup in Hi.
      destruct (ks !! _); [|discriminate]. injection Hi as <-. cbn [ts].
      pose proof (Hle 0%nat (n - Z.to_nat (capacity c) + i)%nat
                    ltac:(lia)). fold now in Hw. lia.
    - apply list_elem_of_singleton in He. subst e. cbn [ts].
      pose proof (Hle 0%nat n ltac:(lia)). fold now in Hw. lia. }
  assert (NoDup (key <$> (order c ++ [mkEntry k now]))) as Hkeys.
  { rewrite fmap_app. simpl. apply NoDup_app.
    assert (key <$> order c = drop (n - Z.to_nat (capacity c)) ks) as Hk.
    { rewrite Horder, fmap_drop, marksFrom_keys. reflexivity. }
    rewrite Hk. split; [|split].
    - eapply sublist_NoDup; [exact Hnodup|apply sublist_drop].
    - intros x Hx. apply Hfresh. exact (subseteq_drop _ _ _ Hx).
    - apply NoDup_singleton. }
  assert (<[k := now]> (items c)
          = list_to_map ((fun e => (key e, ts e))
                           <$> (order c ++ [mkEntry k now]))) as Hitems1.
  { rewrite fmap_app. simpl. rewrite list_to_map_snoc, Hitems; [reflexivity|].
    rewrite entry_pairs_keys. rewrite fmap_app in Hkeys.
    apply NoDup_app in Hkeys as (_ & Hk & _). intros Hin.
    apply (Hk k Hin). simpl. left. }
  assert (length (order c) = Nat.min n (Z.to_nat (capacity c))) as Hlen.
  { rewrite Horder, length_drop, marksFrom_length. fold n. lia. }
  unfold MarkSeen, compact. cbn [items order capacity ttl].
  rewrite Hitems1.
  destruct (decide (n < Z.to_nat (capacity c))%nat) as [Hroom | Hfull].
  - rewrite compactLoop_stop; [| |exact Hyoung].
    + cbn [items order capacity]. split; [|reflexivity].
      rewrite length_app, marksFrom_app. cbn [length marksFrom]. fold n.
      replace (n + 1 - Z.to_nat (capacity c))%nat with 0%nat by lia.
      rewrite Horder.
      replace (n - Z.to_nat (capacity c))%nat with 0%nat by lia.
      reflexivity.
    + rewrite map_size_list_to_map
        by (rewrite entry_pairs_keys; exact Hkeys).
      rewrite length_fmap, length_app, Hlen. simpl. lia.
  - destruct (order c) as [|e0 rest] eqn:Hord; [simpl in Hlen; lia|].
    cbn [length] in Hlen.
    assert (NoDup (key e0 :: (key <$> (rest ++ [mkEntry k now])))) as Hkeys'
      by exact Hkeys.
    apply NoDup_cons in Hkeys' as [Hhead Hrest].
    set (m := list_to_map ((fun e => (key e, ts e))
                             <$> ((e0 :: rest) ++ [mkEntry k now]))
              : gmap gostring Z).
    assert (Z.of_nat (size m) = Z.of_nat (S (S (length rest)))) as Hsize.
    { unfold m. rewrite map_size_list_to_map
        by (rewrite entry_pairs_keys; exact Hkeys).
      rewrite length_fmap, length_app. simpl. lia. }
    assert (m !! key e0 = Some (ts e0)) as Hm0.
    { unfold m. cbn [app fmap list_fmap]. rewrite list_to_map_cons.
      apply lookup_insert_eq. }
    assert (delete (key e0) m
            = list_to_map ((fun e => (key e, ts e))
                             <$> (rest ++ [mkEntry k now]))) as Hdel.
    { unfold m. cbn [app fmap list_fmap].
      rewrite list_to_map_cons, delete_insert_eq. apply delete_id.
      apply not_elem_of_list_to_map_1. rewrite entry_pairs_keys.
      exact Hhead. }
    clearbody m. cbn [app compactLoop].
    destruct (Z.gtb_spec (Z.of_nat (size m)) (capacity c)); [|lia].
    cbn [orb]. rewrite Hm0, Z.eqb_refl, Hdel.
    rewrite compactLoop_stop.
    + cbn [items order capacity]. split; [|reflexivity].
      rewrite length_app, marksFrom_app. cbn [length marksFrom]. fold n.
      replace (n + 1 - Z.to_nat (capacity c))%nat
        with (S (n - Z.to_nat (capacity c)))%nat by lia.
      rewrite drop_app_le by (rewrite marksFrom_length; fold n; lia).
      f_equal.
      assert (marksFrom clock 0 ks !! (n - Z.to_nat (capacity c))%nat
              = Some e0) as Hat.
      { pose proof (lookup_drop (marksFrom clock 0 ks)
                      (n - Z.to_nat (capacity c)) 0) as Hd.
        rewrite <- Horder, Nat.add_0_r in Hd. symmetry. exact Hd. }
      apply drop_S in Hat. rewrite <- Horder in Hat.
      injection Hat as Hat. exact Hat.
    + rewrite map_size_list_to_map
        by (rewrite entry_pairs_keys; exact Hrest).
      rewrite length_fmap, length_app. simpl. lia.
    + intros e He. apply Hyoung. right. exact He.
Qed.

(** X3. Eviction by capacity drops the oldest marks first: when distinct
    keys are marked one after the other on a clock that never runs
    backwards, all inside one ttl window, the cache holds exactly the last
    [capacity] of them, each with the instant of its mark. *)
Theorem MarkSeen_keeps_latest (capacity0 ttl0 : Z) (clock : nat -> Z)
  (ks : list gostring) :
  NoDup ks ->
  (forall n, clock n <= clock (S n)) ->
  (forall i, (i < length ks)%nat ->
     clock i - clock 0%nat <= ttl (NewCache capacity0 ttl0)) ->
  let c := runCache clock 0 (NewCache capacity0 ttl0) (CallMarkSeen <$> ks) in
  Z.of_nat (size (items c)) = Z.min (Z.of_nat (length ks)) (capacity c)
  /\ forall k t,
       items c !! k = Some t
       <-> exists i, ks !! i = Some k /\ t = clock i
                     /\ (length ks <= i + Z.to_nat (capacity c))%nat.
Proof.
  intros Hnodup Hmono Hwindow c.
  destruct (runCache_latest capacity0 ttl0 clock ks Hnodup Hmono Hwindow)
    as [Horder Hitems].
  fold c in Horder, Hitems.
  pose proof (runCache_params clock (CallMarkSeen <$> ks) 0%nat
                (NewCache capacity0 ttl0)) as [Hcap _].
  pose proof (NewCache_params capacity0 ttl0) as [Hcap0 _].
  fold c in Hcap.
  assert (NoDup (key <$> order c)) as Hkeys.
  { rewrite Horder, fmap_drop, marksFrom_keys.
    eapply sublist_NoDup; [exact Hnodup|apply sublist_drop]. }
  split.
  - rewrite Hitems, map_size_list_to_map
      by (rewrite entry_pairs_keys; exact Hkeys).
    rewrite length_fmap, Horder, length_drop, marksFrom_length. lia.
  - intros k t. rewrite Hitems.
    rewrite <- elem_of_list_to_map
      by (rewrite entry_pairs_keys; exact Hkeys).
    rewrite list_elem_of_fmap. split.
    + intros (e & He & Hin). injection He as -> ->.
      rewrite Horder in Hin. apply list_elem_of_lookup in Hin as [i Hi].
      rewrite lookup_drop, marksFrom_lookup in Hi.
      destruct (ks !! _) as [k'|] eqn:Hk; [|discriminate].
      injection Hi as <-. cbn [key ts].
      eexists. split; [exact Hk|]. split; [reflexivity|].
      apply lookup_lt_Some in Hk. lia.
    + intros (i & Hi & -> & Hlate). exists (mkEntry k (clock i)).
      split; [reflexivity|]. rewrite Horder. apply list_elem_of_lookup.
      exists (i - (length ks - Z.to_nat (capacity c)))%nat.
      rewrite lookup_drop, marksFrom_lookup.
      replace (length ks - Z.to_nat (capacity c)
               + (i - (length ks - Z.to_nat (capacity c))))%nat
        with i by lia.
      rewrite Hi. reflexivity.
Qed.

Lemma MarkSeen_keeps_latest_witness :
  let ks := [str "a"; str "b"; str "c"] in
  let c := runCache Z.of_nat 0 (NewCache 2 10) (CallMarkSeen <$> ks) in
  Z.of_nat (size (items c)) = Z.min (Z.of_nat (length ks)) (capacity c)
  /\ forall k t,
       items c !! k = Some t
       <-> exists i, ks !! i = Some k /\ t = Z.of_nat i
                     /\ (length ks <= i + Z.to_nat (capacity c))%nat.
Proof.
  intros ks.
  pose proof (MarkSeen_keeps_latest 2 10 Z.of_nat ks) as Hthm.
  specialize (Hthm ltac:(apply (bool_decide_unpack _); vm_compute;
                         reflexivity)).
  specialize (Hthm ltac:(intros n; lia)).
  specialize (Hthm ltac:(intros i Hi; simpl in Hi; change (ttl (NewCache 2 10))
                         with 10; lia)).
  exact Hthm.
Defined.

(* ================================================================== *)
(** * URLs: extraction and removal *)

Lemma spanLen_split (p : rune -> bool) (s : gostring) :
  s = firstn (spanLen p s) s ++ skipn (spanLen p s) s
  /\ List.Forall (fun c => p c = true) (firstn (spanLen p s) s)
  /\ length (firstn (spanLen p s) s) = spanLen p s.
Proof.
  induction s as [|c t (Hs & Hall & Hlen)]; simpl.
  - repeat split; constructor.
  - destruct (p c) eqn:Hc; simpl.
    + split; [f_equal; exact Hs|]. split; [constructor; assumption|].
      f_equal. exact Hlen.
    + repeat split; constructor.
Qed.

(** What urlRegex matches at the head of a string: a scheme, then a
    non-empty run of code points that are not white space. *)
Lemma urlRegex_Some (x : gostring) (n : nat) :
  urlRegex x = Some n ->
  exists scheme body rest,
    (scheme = str "http://" \/ scheme = str "https://")
    /\ x = scheme ++ body ++ rest /\ body <> []
    /\ List.Forall (fun c => re_space c = false) body
    /\ n = (length scheme + length body)%nat.
Proof.
  unfold urlRegex. intros Hm.
  destruct (stripPrefix (str "http") x) as [r1|] eqn:H1; [|discriminate].
  apply stripPrefix_app in H1.
  set (r2 := match r1 with
             | c :: t => if c =? 115 then t else r1
             | [] => r1
             end) in *.
  destruct (stripPrefix (str "://") r2) as [r3|] eqn:H3; [|discriminate].
  apply stripPrefix_app in H3.
  destruct (spanLen_split (fun c => negb (re_space c)) r3)
    as (Hr3 & Hall & Hlen).
  destruct (spanLen (fun c => negb (re_space c)) r3) as [|k] eqn:Hspan;
    [discriminate|].
  injection Hm as <-.
  assert (exists scheme, (scheme = str "http://" \/ scheme = str "https://")
                         /\ x = scheme ++ r3) as (scheme & Hscheme & Hx).
  { subst r2. destruct r1 as [|c t].
    - exists (str "http://"). split; [left; reflexivity|].
      rewrite H1, H3. reflexivity.
    - destruct (Z.eqb_spec c 115) as [-> | _].
      + exists (str "https://"). split; [right; reflexivity|].
        rewrite H1, H3. reflexivity.
      + exists (str "http://"). split; [left; reflexivity|].
        rewrite H1, H3. reflexivity. }
  exists scheme, (firstn (S k) r3), (skipn (S k) r3).
  split; [exact Hscheme|]. split; [rewrite Hx; f_equal; exact Hr3|].
  split; [intros Hnil; rewrite Hnil in Hlen; discriminate|].
  split.
  - eapply List.Forall_impl; [|exact Hall]. cbv beta. intros c Hc.
    destruct (re_space c); [discriminate|reflexivity].
  - rewrite Hx, length_app, Hlen. lia.
Qed.

Lemma urlRegex_matches (scheme rest : gostring) (d : rune) :
  scheme = str "http://" \/ scheme = str "https://" ->
  re_space d = false ->
  urlRegex (scheme ++ d :: rest) <> None.
Proof.
  intros [-> | ->] Hd; unfold urlRegex; simpl; rewrite Hd; discriminate.
Qed.

(** Every match FindAllString reports is the match of the pattern at
    some position of the input. *)
Lemma findAllFrom_elem (m : matcher) (u : gostring) (s : gostring) :
  forall skip, u ∈ findAllFrom m skip s ->
  exists s1 s2 k, s = s1 ++ s2 /\ m s2 = Some (S k) /\ u = firstn (S k) s2.
Proof.
  induction s as [|c t IH]; intros skip Hu; simpl in Hu; [inversion Hu|].
  assert (forall skip', u ∈ findAllFrom m skip' t ->
            exists s1 s2 k, c :: t = s1 ++ s2 /\ m s2 = Some (S k)
                            /\ u = firstn (S k) s2) as Hlater.
  { intros skip' Hin. destruct (IH skip' Hin) as (s1 & s2 & k & -> & Hm & ->).
    exists (c :: s1), s2, k. repeat split; assumption. }
  destruct skip as [|skip]; [|exact (Hlater _ Hu)].
  destruct (m (c :: t)) as [[|k]|] eqn:Hm; try exact (Hlater _ Hu).
  apply elem_of_cons in Hu as [-> | Hu]; [|exact (Hlater _ Hu)].
  exists [], (c :: t), k. repeat split. exact Hm.
Qed.

Lemma not_seen_union (x u : gostring) (seen : gset gostring) :
  u ∉ {[x]} ∪ seen <-> u <> x /\ u ∉ seen.
Proof. rewrite not_elem_of_union, not_elem_of_singleton. reflexivity. Qed.

Lemma dedupeURLs_elem (matches : list gostring) : forall seen u,
  u ∈ dedupeURLs seen matches <-> u ∈ matches /\ u ∉ seen.
Proof.
  induction matches as [|x rest IH]; intros seen u; simpl.
  - split; [intros Hu; inversion Hu|intros [Hu _]; inversion Hu].
  - destruct (bool_decide_reflect (x ∈ seen)) as [Hx | Hx].
    + rewrite IH, elem_of_cons. split; [tauto|].
      intros [[-> | Hu] Hn]; tauto.
    + rewrite !elem_of_cons, IH. split.
      * intros [-> | [Hu Hn]]; [tauto|]. apply not_seen_union in Hn. tauto.
      * intros [[-> | Hu] Hn]; [tauto|].
        destruct (decide (u = x)); [tauto|]. right. split; [exact Hu|].
        apply not_seen_union. tauto.
Qed.

Lemma dedupeURLs_NoDup (matches : list gostring) : forall seen,
  NoDup (dedupeURLs seen matches).
Proof.
  induction matches as [|x rest IH]; intros seen; simpl; [constructor|].
  destruct (bool_decide (x ∈ seen)); [apply IH|].
  constructor; [|apply IH]. rewrite dedupeURLs_elem, not_seen_union. tauto.
Qed.

Lemma dedupeURLs_prefixes (matches : list gostring) : forall seen n,
  exists k, forall u,
    u ∈ take k (dedupeURLs seen matches) <-> u ∈ take n matches /\ u ∉ seen.
Proof.
  induction matches as [|x rest IH]; intros seen n.
  - exists 0%nat. intros u. rewrite take_nil. simpl. split.
    + intros Hu. inversion Hu.
    + intros [Hu _]. inversion Hu.
  - destruct n as [|n].
    { exists 0%nat. intros u. simpl. split.
      - intros Hu. inversion Hu.
      - intros [Hu _]. inversion Hu. }
    simpl. destruct (bool_decide_reflect (x ∈ seen)) as [Hx | Hx].
    + destruct (IH seen n) as [k Hk]. exists k. intros u.
      rewrite Hk, elem_of_cons. split; [tauto|].
      intros [[-> | Hu] Hn]; tauto.
    + destruct (IH ({[x]} ∪ seen) n) as [k Hk]. exists (S k). intros u.
      simpl. rewrite !elem_of_cons, Hk. split.
      * intros [-> | [Hu Hn]]; [tauto|]. apply not_seen_union in Hn. tauto.
      * intros [[-> | Hu] Hn]; [tauto|].
        destruct (decide (u = x)); [tauto|]. right. split; [exact Hu|].
        apply not_seen_union. tauto.
Qed.

Lemma ExtractURLs_eq (input : gostring) :
  ExtractURLs input = dedupeURLs ∅ (FindAllString urlRegex input).
Proof.
  unfold ExtractURLs. destruct input as [|c t]; [reflexivity|].
  cbn [isEmpty]. destruct (FindAllString urlRegex (c :: t)); reflexivity.
Qed.

(** X4. ExtractURLs lists each URL of the text once, in the order of
    first occurrence: the result has no repetition, holds exactly the
    matches of the URL pattern, and the URLs of every prefix of the
    matches make up a prefix of the result. *)
Theorem ExtractURLs_distinct (input : gostring) :
  let matches := FindAllString urlRegex input in
  NoDup (ExtractURLs input)
  /\ (forall u, u ∈ ExtractURLs input <-> u ∈ matches)
  /\ forall n, exists k, forall u,
       u ∈ take k (ExtractURLs input) <-> u ∈ take n matches.
Proof.
  intros matches. rewrite ExtractURLs_eq. fold matches. split; [|split].
  - apply dedupeURLs_NoDup.
  - intros u. rewrite dedupeURLs_elem.
    pose proof (not_elem_of_empty (C := gset gostring) u). tauto.
  - intros n. destruct (dedupeURLs_prefixes matches ∅ n) as [k Hk].
    exists k. intros u. rewrite Hk.
    pose proof (not_elem_of_empty (C := gset gostring) u). tauto.
Qed.

(** X5. Every URL ExtractURLs returns is a piece of the input that
    starts with http:// or https://, goes on with at least one more code
    point, and holds no white space. *)
Theorem ExtractURLs_wellformed (input u : gostring) :
  u ∈ ExtractURLs input ->
  exists scheme body before after,
    (scheme = str "http://" \/ scheme = str "https://")
    /\ u = scheme ++ body /\ body <> []
    /\ List.Forall (fun c => re_space c = false) u
    /\ input = before ++ u ++ after.
Proof.
  rewrite ExtractURLs_eq, dedupeURLs_elem. intros [Hu _].
  apply findAllFrom_elem in Hu as (s1 & s2 & k & -> & Hm & ->).
  apply urlRegex_Some in Hm
    as (scheme & body & rest & Hscheme & -> & Hbody & Hall & ->).
  assert (firstn (length scheme + length body) (scheme ++ body ++ rest)
          = scheme ++ body) as ->.
  { rewrite app_assoc. apply take_app_length'. rewrite length_app.
    reflexivity. }
  exists scheme, body, s1, rest. split; [exact Hscheme|].
  split; [reflexivity|]. split; [exact Hbody|]. split.
  - apply List.Forall_app. split; [|exact Hall].
    destruct Hscheme as [-> | ->]; repeat constructor.
  - rewrite <- app_assoc. reflexivity.
Qed.

Lemma ExtractURLs_wellformed_witness :
  exists scheme body before after,
    (scheme = str "http://" \/ scheme = str "https://")
    /\ str "https://a.io/x" = scheme ++ body /\ body <> []
    /\ List.Forall (fun c => re_space c = false) (str "https://a.io/x")
    /\ str "see https://a.io/x now" = before ++ str "https://a.io/x" ++ after.
Proof.
  apply (ExtractURLs_wellformed (str "see https://a.io/x now")
           (str "https://a.io/x")).
  vm_compute. left.
Defined.

(** Where the output of a replacement starts with code points that are
    not white space, the input starts with the same code points: each
    replaced match leaves a space. *)
Lemma replaceAllFrom_copied (m : matcher) (p : gostring) :
  List.Forall (fun c => re_space c = false) p ->
  forall t q, replaceAllFrom m (str " ") O t = p ++ q ->
  exists q', t = p ++ q'.
Proof.
  induction 1 as [|a p Ha _ IH]; intros t q Hout; [exists t; reflexivity|].
  destruct t as [|c t]; [discriminate|]. simpl in Hout.
  assert (c :: replaceAllFrom m (str " ") O t = (a :: p) ++ q ->
          exists q', c :: t = (a :: p) ++ q') as Hcopy.
  { intros Heq. injection Heq as -> Heq.
    destruct (IH t q Heq) as [q' ->]. exists q'. reflexivity. }
  destruct (m (c :: t)) as [[|k]|]; try exact (Hcopy Hout).
  injection Hout as <- _. discriminate.
Qed.

(** No URL starts anywhere in what RemoveURLs returns. *)
Lemma RemoveURLs_clean (s : gostring) : forall skip o1 o2,
  replaceAllFrom urlRegex (str " ") skip s = o1 ++ o2 -> urlRegex o2 = None.
Proof.
  induction s as [|c t IH]; intros skip o1 o2 Hout; simpl in Hout.
  { destruct o1; [|discriminate]. simpl in Hout. subst o2. reflexivity. }
  destruct skip as [|skip]; [|exact (IH _ _ _ Hout)].
  destruct (urlRegex (c :: t)) as [[|k]|] eqn:Hm.
  - apply urlRegex_Some in Hm as (scheme & body & rest & Hscheme & _ & _
                                   & _ & Hlen).
    destruct Hscheme as [-> | ->]; discriminate.
  - destruct o1 as [|a o1].
    + simpl in Hout. subst o2. reflexivity.
    + injection Hout as _ Hout. exact (IH _ _ _ Hout).
  - destruct o1 as [|a o1]; [|injection Hout as _ Hout; exact (IH _ _ _ Hout)].
    simpl in Hout. destruct (urlRegex o2) as [n|] eqn:Ho2; [|reflexivity].
    exfalso.
    apply urlRegex_Some in Ho2
      as (scheme & body & rest & Hscheme & Ho2 & Hbody & Hall & _).
    destruct body as [|d body]; [congruence|].
    apply List.Forall_cons_iff in Hall as [Hd _].
    assert (replaceAllFrom urlRegex (str " ") O (c :: t)
            = (scheme ++ [d]) ++ body ++ rest) as Hwhole.
    { simpl. rewrite Hm, Hout, Ho2, <- !app_assoc. reflexivity. }
    apply replaceAllFrom_copied in Hwhole as [q' Hq'].
    + rewrite <- app_assoc in Hq'. simpl in Hq'.
      apply (urlRegex_matches scheme q' d Hscheme Hd). rewrite <- Hq'.
      exact Hm.
    + apply List.Forall_app. split; [|repeat constructor; exact Hd].
      destruct Hscheme as [-> | ->]; repeat constructor.
Qed.

Lemma findAllFrom_none (m : matcher) (s : gostring) :
  (forall s1 s2, s = s1 ++ s2 -> m s2 = None) ->
  findAllFrom m O s = [].
Proof.
  induction s as [|c t IH]; intros Hnone; simpl; [reflexivity|].
  rewrite (Hnone [] (c :: t) eq_refl). apply IH.
  intros s1 s2 ->. apply (Hnone (c :: s1) s2). reflexivity.
Qed.

Lemma findAllFrom_nil_inv (s : gostring) :
  findAllFrom urlRegex O s = [] ->
  forall s1 s2, s = s1 ++ s2 -> urlRegex s2 = None.
Proof.
  induction s as [|c t IH]; intros Hnil s1 s2 Hs.
  { destruct s1; [|discriminate]. simpl in Hs. subst s2. reflexivity. }
  simpl in Hnil. destruct (urlRegex (c :: t)) as [[|k]|] eqn:Hm.
  - apply urlRegex_Some in Hm as (scheme & body & rest & Hscheme & _ & _
                                   & _ & Hlen).
    destruct Hscheme as [-> | ->]; discriminate.
  - discriminate.
  - destruct s1 as [|a s1].
    + simpl in Hs. subst s2. exact Hm.
    + injection Hs as _ Hs. exact (IH Hnil _ _ Hs).
Qed.

(** X6. RemoveURLs leaves no URL behind: ExtractURLs finds nothing in
    its result, removing again changes nothing, and a text comes back
    unchanged exactly when it holds no URL. *)
Theorem RemoveURLs_leaves_no_URL (input : gostring) :
  ExtractURLs (RemoveURLs input) = []
  /\ RemoveURLs (RemoveURLs input) = RemoveURLs input
  /\ (RemoveURLs input = input <-> ExtractURLs input = []).
Proof.
  assert (ExtractURLs (RemoveURLs input) = []) as Hnone.
  { rewrite ExtractURLs_eq. unfold FindAllString.
    rewrite findAllFrom_none; [reflexivity|].
    intros s1 s2 Hs. exact (RemoveURLs_clean input O s1 s2 Hs). }
  split; [exact Hnone|]. split.
  - apply replaceAllFrom_fixed. intros s1 s2 Hs.
    exact (RemoveURLs_clean input O s1 s2 Hs).
  - split.
    + intros Hfixed. rewrite <- Hfixed. exact Hnone.
    + rewrite ExtractURLs_eq. intros Hempty.
      apply replaceAllFrom_fixed, findAllFrom_nil_inv.
      unfold FindAllString in Hempty.
      destruct (findAllFrom urlRegex O input) as [|u rest]; [reflexivity|].
      simpl in Hempty. discriminate.
Qed.

(* ================================================================== *)
(** * What CleanText and GenerateTitleFromText return *)

Lemma singleSpaced_spaces (s : gostring) : forall prev,
  singleSpaced prev s = true ->
  List.Forall (fun c => re_space c = true -> c = 32) s.
Proof.
  induction s as [|c t IH]; intros prev Hs; [constructor|].
  simpl in Hs. destruct (re_space c) eqn:Hc.
  - apply andb_prop in Hs as [Hs Ht]. apply andb_prop in Hs as [Hc32 _].
    constructor; [cbv beta; intros _; apply Z.eqb_eq, Hc32|exact (IH _ Ht)].
  - constructor; [cbv beta; congruence|exact (IH _ Hs)].
Qed.

Section CleanTextOutput.
Context `{GoStdlib}.

(** X7. CleanText returns letters and numbers separated by single
    spaces: every code point of the result is a letter, a number or the
    space, no two white space code points are adjacent, the result is
    trimmed, and no URL is left in it. *)
Theorem CleanText_output (input : gostring) :
  List.Forall (fun c => unicode_IsLetter c = true
                        \/ unicode_IsNumber c = true \/ c = 32)
    (CleanText input)
  /\ singleSpaced false (CleanText input) = true
  /\ TrimSpace (CleanText input) = CleanText input
  /\ ExtractURLs (CleanText input) = [].
Proof.
  destruct (CleanText_shape input) as (Hclass & Hsingle & Htrim).
  pose proof (singleSpaced_spaces _ _ Hsingle) as Hspaces.
  split; [|split; [exact Hsingle|split; [exact Htrim|]]].
  - rewrite List.Forall_forall in *. intros c Hc.
    specialize (Hclass c Hc). specialize (Hspaces c Hc). cbv beta in *.
    unfold isPunct in Hclass.
    destruct (unicode_IsLetter c); [left; reflexivity|].
    destruct (unicode_IsNumber c); [right; left; reflexivity|].
    destruct (re_space c); [|discriminate]. right. right.
    apply Hspaces. reflexivity.
  - rewrite ExtractURLs_eq. unfold FindAllString.
    rewrite findAllFrom_none; [reflexivity|]. intros s1 s2 Hs.
    destruct (urlRegex s2) as [n|] eqn:Hm; [|reflexivity]. exfalso.
    apply urlRegex_colon in Hm.
    rewrite List.Forall_forall in Hclass.
    assert (isPunct 58 = false) as Hcolon.
    { apply Hclass. rewrite Hs. apply in_or_app. right. exact Hm. }
    discriminate.
Qed.

End CleanTextOutput.

(** The fields of a string hold no separator and are not empty. *)
Lemma fieldsFrom_words (f : rune -> bool) (s : gostring) : forall cur,
  List.Forall (fun c => f c = false) cur ->
  List.Forall (fun w => w <> [] /\ List.Forall (fun c => f c = false) w)
    (fieldsFrom f cur s).
Proof.
  induction s as [|c t IH]; intros cur Hcur; simpl.
  - destruct cur as [|a cur]; [constructor|]. constructor; [|constructor].
    split; [|apply List.Forall_rev, Hcur].
    intros Hnil. apply (f_equal (@length _)) in Hnil.
    rewrite length_rev in Hnil. discriminate.
  - destruct (f c) eqn:Hc.
    + destruct cur as [|a cur]; [apply IH; constructor|].
      constructor; [|apply IH; constructor].
      split; [|apply List.Forall_rev, Hcur].
      intros Hnil. apply (f_equal (@length _)) in Hnil.
      rewrite length_rev in Hnil. discriminate.
    + apply IH. constructor; assumption.
Qed.

Lemma fieldsFrom_word (f : rune -> bool) (w : gostring) :
  List.Forall (fun c => f c = false) w ->
  forall cur rest,
  fieldsFrom f cur (w ++ rest) = fieldsFrom f (rev w ++ cur) rest.
Proof.
  induction 1 as [|c w Hc _ IH]; intros cur rest; [reflexivity|].
  simpl. rewrite Hc, IH, <- app_assoc. reflexivity.
Qed.

(** Joining words with single spaces and a tail that holds no separator,
    and splitting again: the tail sticks to the last word. *)
Lemma Fields_Join (init : list gostring) (l tail : gostring) :
  List.Forall (fun w => w <> []
                 /\ List.Forall (fun c => unicode_IsSpace c = false) w)
    (init ++ [l]) ->
  List.Forall (fun c => unicode_IsSpace c = false) tail ->
  Fields (Join (init ++ [l]) (str " ") ++ tail) = init ++ [l ++ tail].
Proof.
  unfold Fields. intros Hwords Htail.
  induction init as [|w init IH].
  - simpl in *. apply List.Forall_cons_iff in Hwords as [[Hl Hfree] _].
    pose proof (fieldsFrom_word unicode_IsSpace (l ++ tail)
                  ltac:(apply List.Forall_app; split; assumption) [] [])
      as Hword.
    rewrite !app_nil_r in Hword. rewrite Hword. simpl.
    destruct (rev (l ++ tail)) as [|a r] eqn:Hrev.
    + apply (f_equal (@length _)) in Hrev.
      rewrite length_rev, length_app in Hrev. destruct l; [congruence|].
      discriminate.
    + rewrite <- Hrev, rev_involutive. reflexivity.
  - apply List.Forall_cons_iff in Hwords as [[Hw Hfree] Hwords].
    specialize (IH Hwords).
    assert (Join ((w :: init) ++ [l]) (str " ")
            = w ++ str " " ++ Join (init ++ [l]) (str " ")) as ->.
    { simpl. destruct (init ++ [l]) eqn:Hl; [|reflexivity].
      destruct init; discriminate. }
    rewrite <- !app_assoc, fieldsFrom_word by exact Hfree.
    rewrite app_nil_r. simpl.
    destruct (rev w) as [|a r] eqn:Hrev.
    + apply (f_equal (@length _)) in Hrev. rewrite length_rev in Hrev.
      destruct w; [congruence|discriminate].
    + rewrite <- Hrev, rev_involutive, IH. reflexivity.
Qed.

Lemma Join_snoc (init : list gostring) (l tail : gostring) :
  Join (init ++ [l ++ tail]) (str " ") = Join (init ++ [l]) (str " ") ++ tail.
Proof.
  induction init as [|w init IH]; [reflexivity|].
  change ((w :: init) ++ [l ++ tail]) with (w :: (init ++ [l ++ tail])).
  change ((w :: init) ++ [l]) with (w :: (init ++ [l])).
  cbn [Join]. rewrite IH.
  destruct (init ++ [l ++ tail]) eqn:H1; [destruct init; discriminate|].
  destruct (init ++ [l]) eqn:H2; [destruct init; discriminate|].
  rewrite <- !app_assoc. reflexivity.
Qed.

(** X8. The title GenerateTitleFromText returns is normalised and
    bounded: its words are separated by single spaces with no white space
    at either end, and for a positive maxWords it has at most maxWords
    words. *)
Theorem GenerateTitleFromText_words (text : gostring) (maxWords : Z) :
  let title := GenerateTitleFromText text maxWords in
  Join (Fields title) (str " ") = title
  /\ (maxWords <= 0 \/ len (Fields title) <= maxWords).
Proof.
  cbv zeta. unfold GenerateTitleFromText.
  destruct (isEmpty text); [split; [reflexivity|change (len (Fields [])) with 0; lia]|].
  set (sentence := if IndexAny (RemoveURLs text) (str ".!?") >? 0
                   then TrimSpace (slicePrefix (RemoveURLs text)
                                     (IndexAny (RemoveURLs text) (str ".!?")))
                   else RemoveURLs text).
  pose proof (fieldsFrom_words unicode_IsSpace sentence []
                ltac:(constructor)) as Hwords.
  fold (Fields sentence) in Hwords.
  set (words := Fields sentence) in *. clearbody words. clear sentence.
  destruct (Z.eqb_spec (len words) 0) as [Hzero | Hsome].
  { split; [reflexivity|change (len (Fields [])) with 0; lia]. }
  assert (forall ws tail,
            ws <> [] ->
            List.Forall (fun w => w <> []
               /\ List.Forall (fun c => unicode_IsSpace c = false) w) ws ->
            List.Forall (fun c => unicode_IsSpace c = false) tail ->
            Join (Fields (Join ws (str " ") ++ tail)) (str " ")
            = Join ws (str " ") ++ tail
            /\ len (Fields (Join ws (str " ") ++ tail)) = len ws) as Hjoin.
  { intros ws tail Hne Hws Htail.
    destruct (exists_last Hne) as (init & l & ->).
    rewrite Fields_Join by assumption. split; [apply Join_snoc|].
    unfold len. rewrite !length_app. reflexivity. }
  destruct (Z.gtb_spec maxWords 0) as [Hpos | Hnonpos]; cbn [andb].
  - destruct (Z.gtb_spec (len words) maxWords) as [Hlong | Hshort].
    + destruct (Hjoin (slicePrefix words maxWords) (str "...")) as [Hj Hl].
      * unfold slicePrefix. intros Hnil.
        destruct (Z.to_nat maxWords) eqn:Hn; [lia|].
        destruct words; [apply Hsome; reflexivity|discriminate].
      * unfold slicePrefix. rewrite <- (take_drop (Z.to_nat maxWords) words)
          in Hwords. apply List.Forall_app in Hwords as [Hwords _].
        exact Hwords.
      * repeat constructor.
      * split; [exact Hj|]. right. rewrite Hl. unfold len, slicePrefix.
        pose proof (firstn_le_length (Z.to_nat maxWords) words) as Hle.
        apply Nat2Z.inj_le in Hle. rewrite Z2Nat.id in Hle by lia.
        exact Hle.
    + destruct (Hjoin words []) as [Hj Hl].
      * intros Hnil. rewrite Hnil in Hsome. apply Hsome. reflexivity.
      * exact Hwords.
      * constructor.
      * rewrite app_nil_r in Hj, Hl. split; [exact Hj|]. right.
        rewrite Hl. exact Hshort.
  - destruct (Hjoin words []) as [Hj Hl].
    + intros Hnil. rewrite Hnil in Hsome. apply Hsome. reflexivity.
    + exact Hwords.
    + constructor.
    + rewrite app_nil_r in Hj, Hl. split; [exact Hj|]. left.
      exact Hnonpos.
Qed.

(* ================================================================== *)
(** * The worker: what reaches the index and the cache *)

Lemma IsSeen_later (c : Cache) (k : gostring) (now now' : Z) :
  now <= now' -> IsSeen c now k = false -> IsSeen c now' k = false.
Proof.
  unfold IsSeen. intros Hle. destruct (items c !! k) as [t|]; [|reflexivity].
  destruct (Z.leb_spec (now - t) (ttl c)); [discriminate|]. intros _.
  destruct (Z.leb_spec (now' - t) (ttl c)); [lia|reflexivity].
Qed.

Section WorkerOutput.
Context `{GoStdlib}.
Context {I : Type} `{newsIndexer I}.
Variable clock : nat -> Z.
Variable uuids : nat -> gostring.

Lemma documentOf_wellformed (cfg : Worker) (payload : rawNews) (now : Z) :
  isBlank payload = false ->
  let doc := documentOf cfg payload now in
  doc_Source doc <> []
  /\ TrimSpace (doc_Source doc) = doc_Source doc
  /\ (doc_Title doc <> [] \/ doc_Text doc <> [])
  /\ TrimSpace (doc_Text doc) = doc_Text doc
  /\ NoDup (doc_URLs doc)
  /\ doc_URLs doc = ExtractURLs (doc_Text doc)
  /\ doc_Keywords doc
     = ExtractKeywords (doc_Title doc ++ str " " ++ CleanText (doc_Text doc))
         (KeywordLimit cfg) (KeywordMinLength cfg).
Proof.
  unfold isBlank, documentOf. intros Hblank. cbv zeta.
  cbn [doc_Source doc_Title doc_Text doc_URLs doc_Keywords].
  split; [|split; [|split; [|split; [|split; [|split]]]]].
  - destruct (TrimSpace (Source payload)); [discriminate|discriminate].
  - destruct (isEmpty (TrimSpace (Source payload)));
      [reflexivity|apply TrimFunc_idempotent].
  - destruct (TrimSpace (Title payload)) as [|c t]; [|left; discriminate].
    destruct (TrimSpace (Text payload)); [discriminate|right; discriminate].
  - apply TrimFunc_idempotent.
  - rewrite ExtractURLs_eq. apply dedupeURLs_NoDup.
  - reflexivity.
  - reflexivity.
Qed.

(** X9. processMessage makes at most one IndexNews call, and what it
    hands over is well formed: the source is not empty and trimmed
    ("unknown" when the payload has none), the title or the text is not
    empty, the text is trimmed, the URLs are those of the text without
    repetition, and the keywords are those of the title and the cleaned
    text under the configured limits. *)
Theorem indexed_document_wellformed (cfg : Worker) (value : list Z)
  (w : World I) :
  let r := processMessage clock uuids cfg value w in
  indexCalls r.2 = indexCalls w
  \/ exists doc,
       indexCalls r.2 = indexCalls w ++ [doc]
       /\ doc_Source doc <> []
       /\ TrimSpace (doc_Source doc) = doc_Source doc
       /\ (doc_Title doc <> [] \/ doc_Text doc <> [])
       /\ TrimSpace (doc_Text doc) = doc_Text doc
       /\ NoDup (doc_URLs doc)
       /\ doc_URLs doc = ExtractURLs (doc_Text doc)
       /\ doc_Keywords doc
          = ExtractKeywords
              (doc_Title doc ++ str " " ++ CleanText (doc_Text doc))
              (KeywordLimit cfg) (KeywordMinLength cfg).
Proof.
  cbv zeta. unfold processMessage.
  destruct (json_Unmarshal value) as [payload|]; [|left; reflexivity].
  rewrite processPayload_run.
  destruct (isBlank payload) eqn:Hblank; [left; reflexivity|]. cbv zeta.
  destruct (IsSeen _ _ _); [left; reflexivity|].
  pose proof (documentOf_wellformed cfg payload (clock (ticks w)) Hblank)
    as Hdoc.
  destruct (IndexNews (es w) _) as [es' [e|]]; right;
    exists (documentOf cfg payload (clock (ticks w)));
    (split; [reflexivity|exact Hdoc]).
Qed.

(** X10. The cache changes only by marking a document that was just
    indexed: a call that returns an error leaves the cache as it was, and
    so does a call that drops a duplicate; otherwise the new cache is the
    old one with the id of the indexed document marked at the last
    reading of the clock. *)
Theorem cache_marks_only_indexed (cfg : Worker) (value : list Z)
  (w : World I) :
  let r := processMessage clock uuids cfg value w in
  (r.1 = None \/ cache r.2 = cache w)
  /\ (cache r.2 = cache w
      \/ exists doc,
           r.1 = None
           /\ indexCalls r.2 = indexCalls w ++ [doc]
           /\ (IndexNews (es w) doc).2 = None
           /\ cache r.2
              = MarkSeen (cache w) (clock (Nat.pred (ticks r.2)))
                  (doc_ID doc)).
Proof.
  cbv zeta. unfold processMessage.
  destruct (json_Unmarshal value) as [payload|];
    [|split; [right|left]; reflexivity].
  rewrite processPayload_run.
  destruct (isBlank payload); [split; [right|left]; reflexivity|]. cbv zeta.
  destruct (IsSeen _ _ _); [split; [right|left]; reflexivity|].
  destruct (IndexNews (es w) _) as [es' [e|]] eqn:Hidx;
    [split; [right|left]; reflexivity|].
  split; [left; reflexivity|]. right.
  exists (documentOf cfg payload (clock (ticks w))).
  cbn [fst snd cache indexCalls ticks Nat.pred]. rewrite Hidx.
  repeat split.
Qed.

(** X11. A message whose IndexNews call failed is not taken for a
    duplicate when it is processed again: with a timestamp that parses
    and a clock that does not run backwards, the failed call returns the
    error, and the next call on the same message hands the same document
    to IndexNews once more. *)
Theorem failed_index_is_retried (cfg : Worker) (value : list Z)
  (payload : rawNews) (w : World I) :
  json_Unmarshal value = Some payload ->
  isBlank payload = false ->
  hasTimestamp payload = true ->
  clock (ticks w) <= clock (S (ticks w)) ->
  IsSeen (cache w) (clock (ticks w)) (doc_ID (documentOf cfg payload 0))
  = false ->
  (IndexNews (es w) (documentOf cfg payload 0)).2 <> None ->
  let r1 := processMessage clock uuids cfg value w in
  let r2 := processMessage clock uuids cfg value r1.2 in
  r1.1 <> None
  /\ cache r1.2 = cache w
  /\ indexCalls r2.2
     = indexCalls w ++ [documentOf cfg payload 0; documentOf cfg payload 0].
Proof.
  intros Hdec Hblank Hts Hclock Hnew Hfail r1 r2. subst r2 r1.
  rewrite (processMessage_decoded clock uuids cfg value payload w Hdec).
  rewrite processPayload_run, Hblank, Hts. cbv zeta.
  rewrite (documentOf_stamped cfg payload _ 0 Hts), Hnew.
  destruct (IndexNews (es w) (documentOf cfg payload 0)) as [es' [e|]];
    [|exfalso; apply Hfail; reflexivity].
  cbn [fst snd].
  rewrite (processMessage_decoded clock uuids cfg value payload _ Hdec).
  rewrite processPayload_run, Hblank, Hts. cbv zeta.
  cbn [ticks cache es indexCalls].
  rewrite (documentOf_stamped cfg payload _ 0 Hts).
  rewrite (IsSeen_later _ _ _ _ Hclock Hnew).
  split; [discriminate|]. split; [reflexivity|].
  destruct (IndexNews es' (documentOf cfg payload 0)) as [es'' [e'|]];
    cbn [snd indexCalls]; rewrite <- app_assoc; reflexivity.
Qed.

End WorkerOutput.

Lemma failed_index_is_retried_witness :
  let run := processMessage (H := sampleStdlib) (H0 := downIndexer)
               microClock (fun _ => []) testConfig
               (sampleMarshal stampedPayload) in
  let r1 := run downWorld in
  let r2 := run r1.2 in
  r1.1 <> None
  /\ cache r1.2 = cache downWorld
  /\ indexCalls r2.2
     = indexCalls downWorld
       ++ [documentOf (H := sampleStdlib) testConfig stampedPayload 0;
           documentOf (H := sampleStdlib) testConfig stampedPayload 0].
Proof.
  pose proof (failed_index_is_retried (H := sampleStdlib) (H0 := downIndexer)
                microClock (fun _ => []) testConfig
                (sampleMarshal stampedPayload) stampedPayload downWorld)
    as Hthm.
  specialize (Hthm ltac:(vm_compute; reflexivity)).
  specialize (Hthm ltac:(vm_compute; reflexivity)).
  specialize (Hthm ltac:(vm_compute; reflexivity)).
  specialize (Hthm ltac:(vm_compute; discriminate)).
  specialize (Hthm ltac:(vm_compute; reflexivity)).
  specialize (Hthm ltac:(vm_compute; discriminate)).
  exact Hthm.
Defined.

(* ================================================================== *)
(** * The worker: the dead-letter queue and the commit *)

Lemma dlqRetry_seq (writeOk cancelled : nat -> bool) (n : nat) : forall s,
  let run := dlqRetry writeOk cancelled (seq s n) in
  let k := length (dlq_sleeps run) in
  dlq_sleeps run
  = map (fun a => Z.shiftl 1 (Z.of_nat a) * Second) (seq s k)
  /\ (forall a, (s <= a < s + k)%nat ->
        writeOk a = false /\ cancelled a = false)
  /\ match dlq_outcome run with
     | DlqDelivered =>
         (k < n)%nat /\ dlq_writes run = S k /\ writeOk (s + k)%nat = true
     | DlqCancelled =>
         (k < n)%nat /\ dlq_writes run = S k
         /\ writeOk (s + k)%nat = false /\ cancelled (s + k)%nat = true
     | DlqExhausted => k = n /\ dlq_writes run = n
     end.
Proof.
  induction n as [|n IH]; intros s; cbv zeta.
  { simpl. split; [reflexivity|]. split; [intros a Ha; lia|].
    split; reflexivity. }
  simpl. destruct (writeOk s) eqn:Hw.
  { simpl. rewrite Nat.add_0_r. split; [reflexivity|].
    split; [intros a Ha; lia|]. split; [lia|]. split; [reflexivity|exact Hw]. }
  destruct (cancelled s) eqn:Hc.
  { simpl. rewrite Nat.add_0_r. split; [reflexivity|].
    split; [intros a Ha; lia|]. split; [lia|]. repeat split; assumption. }
  specialize (IH (S s)). cbv zeta in IH.
  destruct IH as (Hsleeps & Hfailed & Hout). simpl.
  split; [f_equal; exact Hsleeps|]. split.
  - intros a Ha. destruct (decide (a = s)) as [-> | Hne]; [split; assumption|].
    apply Hfailed. lia.
  - replace (s + S (length (dlq_sleeps (dlqRetry writeOk cancelled
                                          (seq (S s) n)))))%nat
      with (S s + length (dlq_sleeps (dlqRetry writeOk cancelled
                                        (seq (S s) n))))%nat by lia.
    destruct (dlq_outcome _).
    + destruct Hout as (Hk & Hwrites & Hok). repeat split; [lia|lia|exact Hok].
    + destruct Hout as (Hk & Hwrites). split; lia.
    + destruct Hout as (Hk & Hwrites & Hok & Hcan).
      repeat split; [lia|lia|exact Hok|exact Hcan].
Qed.

(** X12. The dead-letter write is tried at most five times with waits of
    1, 2, 4, 8 and 16 seconds after the failures: the waits made are a
    prefix of that list, each after a failed write with no cancellation;
    the run ends with the first write that succeeds, with the first
    cancellation during a wait, or after the fifth failure and its wait. *)
Theorem dlqRetry_backoff (writeOk cancelled : nat -> bool) :
  let run := dlqRetry writeOk cancelled (seq 0 5) in
  let k := length (dlq_sleeps run) in
  dlq_sleeps run
  = take k [1 * Second; 2 * Second; 4 * Second; 8 * Second; 16 * Second]
  /\ (forall a, (a < k)%nat -> writeOk a = false /\ cancelled a = false)
  /\ match dlq_outcome run with
     | DlqDelivered =>
         (k < 5)%nat /\ dlq_writes run = S k /\ writeOk k = true
     | DlqCancelled =>
         (k < 5)%nat /\ dlq_writes run = S k
         /\ writeOk k = false /\ cancelled k = true
     | DlqExhausted => k = 5%nat /\ dlq_writes run = 5%nat
     end.
Proof.
  intros run k.
  pose proof (dlqRetry_seq writeOk cancelled 5 0) as (Hsleeps & Hfailed & Hout).
  fold run in Hsleeps, Hfailed, Hout. fold k in Hsleeps, Hfailed, Hout.
  split; [|split].
  - rewrite Hsleeps.
    assert (k <= 5)%nat as Hk by (destruct (dlq_outcome run); lia).
    clear -Hk.
    do 6 (destruct k as [|k]; [reflexivity|]). lia.
  - intros a Ha. apply Hfailed. lia.
  - exact Hout.
Qed.

Section Commit.
Context `{GoStdlib}.
Context {I : Type} `{newsIndexer I}.
Variable clock : nat -> Z.
Variable uuids : nat -> gostring.
Variable errorText : error -> gostring.

(** A turn on a fetched message: when it is committed, when it leaves
    the loop, what it leaves untouched and what it hands to the
    dead-letter writer. *)
Lemma consumerTurn_fetched (cfg : Worker) (msg : Message)
  (writeOk cancelled : nat -> bool) (w : World I) :
  let p := processMessage clock uuids cfg (msg_Value msg) w in
  let r := consumerTurn clock uuids errorText cfg (Fetched msg) writeOk
             cancelled w in
  (turn_commit r.1 = true
   <-> p.1 = None
       \/ exists k, (k < 5)%nat /\ writeOk k = true
            /\ forall a, (a < k)%nat ->
                 writeOk a = false /\ cancelled a = false)
  /\ (turn_continue r.1 = false
      <-> p.1 <> None
          /\ exists k, (k < 5)%nat /\ writeOk k = false /\ cancelled k = true
               /\ forall a, (a < k)%nat ->
                    writeOk a = false /\ cancelled a = false)
  /\ cache r.2 = cache p.2 /\ es r.2 = es p.2
  /\ indexCalls r.2 = indexCalls p.2
  /\ match p.1 with
     | None => turn_dlq r.1 = None
     | Some e =>
         exists dlqMsg run extra,
           turn_dlq r.1 = Some (dlqMsg, run)
           /\ msg_Value dlqMsg = msg_Value msg
           /\ msg_Headers dlqMsg = msg_Headers msg ++ extra
           /\ map hdr_Key extra
              = [str "original_partition"; str "original_offset";
                 str "error"; str "timestamp"]
           /\ extra !! 2%nat
              = Some (mkHeader (str "error") (utf8_encode (errorText e)))
     end.
Proof.
  cbv zeta. unfold consumerTurn, bind.
  destruct (processMessage clock uuids cfg (msg_Value msg) w) as [[e|] w'].
  2:{ cbn [fst snd ret turn_commit turn_continue turn_dlq].
      split; [split; [intros _; left; reflexivity|reflexivity]|].
      split; [split; [discriminate|intros [Hne _]; congruence]|].
      repeat split. }
  cbn [fst snd time_Now].
  pose proof (dlqRetry_seq writeOk cancelled 5 0) as Hseq.
  cbv zeta in Hseq. revert Hseq.
  set (run := dlqRetry writeOk cancelled (seq 0 5)).
  generalize (length (dlq_sleeps run)). intros k (_ & Hfailed0 & Hout).
  cbn [Nat.add] in Hout.
  assert (forall a, (a < k)%nat -> writeOk a = false /\ cancelled a = false)
    as Hfailed by (intros a Ha; apply Hfailed0; lia).
  split; [|split].
  - split.
    + intros Hcommit. right. destruct (dlq_outcome run);
        cbn [fst ret turn_commit] in Hcommit; try discriminate.
      destruct Hout as (Hk & _ & Hok). exists k. repeat split; trivial;
        apply Hfailed; assumption.
    + intros [Hnone | (k' & Hk' & Hok' & Hbefore)]; [discriminate|].
      destruct (dlq_outcome run); cbn [fst ret turn_commit];
        [reflexivity|exfalso|exfalso].
      * destruct Hout as (Hk & _).
        destruct (Hfailed k' ltac:(lia)) as [Hw _]. congruence.
      * destruct Hout as (Hk & _ & Hw & Hc).
        destruct (lt_eq_lt_dec k k') as [[Hlt | Heq] | Hgt].
        -- destruct (Hbefore k Hlt) as [_ Hc']. congruence.
        -- subst k'. congruence.
        -- destruct (Hfailed k' Hgt) as [Hw' _]. congruence.
  - split.
    + intros Hstop. split; [discriminate|]. destruct (dlq_outcome run);
        cbn [fst ret turn_continue] in Hstop; try discriminate.
      destruct Hout as (Hk & _ & Hw & Hc). exists k.
      repeat split; trivial; apply Hfailed; assumption.
    + intros (_ & k' & Hk' & Hw' & Hc' & Hbefore).
      destruct (dlq_outcome run); cbn [fst ret turn_continue];
        [exfalso|exfalso|reflexivity].
      * destruct Hout as (Hk & _ & Hok).
        destruct (lt_eq_lt_dec k k') as [[Hlt | Heq] | Hgt].
        -- destruct (Hbefore k Hlt) as [Hw _]. congruence.
        -- subst k'. congruence.
        -- destruct (Hfailed k' Hgt) as [_ Hc]. congruence.
      * destruct Hout as (Hk & _).
        destruct (Hfailed k' ltac:(lia)) as [_ Hc]. congruence.
  - assert (exists dlqMsg extra,
              dlqMsg = dlqMessage msg (errorText e) (clock (ticks w'))
              /\ msg_Value dlqMsg = msg_Value msg
              /\ msg_Headers dlqMsg = msg_Headers msg ++ extra
              /\ map hdr_Key extra
                 = [str "original_partition"; str "original_offset";
                    str "error"; str "timestamp"]
              /\ extra !! 2%nat
                 = Some (mkHeader (str "error") (utf8_encode (errorText e))))
      as (dlqMsg & extra & Hmsg & Hrest).
    { eexists. eexists. split; [reflexivity|]. unfold dlqMessage.
      cbn [msg_Value msg_Headers]. split; [reflexivity|].
      split; [reflexivity|]. split; reflexivity. }
    destruct (dlq_outcome run); cbn [fst snd ret cache es indexCalls turn_dlq];
      (split; [reflexivity|]); (split; [reflexivity|]);
      (split; [reflexivity|]);
      exists dlqMsg, run, extra; rewrite Hmsg; (split; [reflexivity|]);
      rewrite <- Hmsg; exact Hrest.
Qed.

(** X13. One turn of the consumer loop. A message is committed exactly
    when it was fetched and either processed without error or handed to
    the dead-letter queue by one of the five writes. The loop is left in
    exactly two cases: FetchMessage returns context.Canceled, or the
    context is cancelled during a wait between dead-letter writes of a
    message that failed; any other fetch error only starts the next
    turn. A turn without a message changes nothing; handling a failure
    changes neither the cache nor the index; and what is written to the
    dead-letter queue carries the value and the headers of the message,
    in front of the four headers that describe the failure. *)
Theorem consumerTurn_commit (cfg : Worker) (fetch : fetched)
  (writeOk cancelled : nat -> bool) (w : World I) :
  let r := consumerTurn clock uuids errorText cfg fetch writeOk cancelled w in
  let failed msg := (processMessage clock uuids cfg (msg_Value msg) w).1 in
  (turn_commit r.1 = true
   <-> exists msg, fetch = Fetched msg
         /\ (failed msg = None
             \/ exists k, (k < 5)%nat /\ writeOk k = true
                  /\ forall a, (a < k)%nat ->
                       writeOk a = false /\ cancelled a = false))
  /\ (turn_continue r.1 = false
      <-> fetch = FetchCanceled
          \/ exists msg, fetch = Fetched msg /\ failed msg <> None
                /\ exists k, (k < 5)%nat /\ writeOk k = false
                     /\ cancelled k = true
                     /\ forall a, (a < k)%nat ->
                          writeOk a = false /\ cancelled a = false)
  /\ match fetch with
     | Fetched msg =>
         let p := processMessage clock uuids cfg (msg_Value msg) w in
         cache r.2 = cache p.2 /\ es r.2 = es p.2
         /\ indexCalls r.2 = indexCalls p.2
         /\ match p.1 with
            | None => turn_dlq r.1 = None
            | Some e =>
                exists dlqMsg run extra,
                  turn_dlq r.1 = Some (dlqMsg, run)
                  /\ msg_Value dlqMsg = msg_Value msg
                  /\ msg_Headers dlqMsg = msg_Headers msg ++ extra
                  /\ map hdr_Key extra
                     = [str "original_partition"; str "original_offset";
                        str "error"; str "timestamp"]
                  /\ extra !! 2%nat
                     = Some (mkHeader (str "error")
                               (utf8_encode (errorText e)))
            end
     | FetchCanceled | FetchFailed => r.2 = w /\ turn_dlq r.1 = None
     end.
Proof.
  destruct fetch as [msg | |]; cbv zeta.
  - pose proof (consumerTurn_fetched cfg msg writeOk cancelled w)
      as (Hcommit & Hleave & Hframe).
    cbv zeta in Hcommit, Hleave, Hframe. split; [|split; [|exact Hframe]].
    + rewrite Hcommit. split.
      * intros Hwhy. exists msg. split; [reflexivity|exact Hwhy].
      * intros (msg' & Hmsg & Hwhy). injection Hmsg as <-. exact Hwhy.
    + rewrite Hleave. split.
      * intros Hwhy. right. exists msg. split; [reflexivity|exact Hwhy].
      * intros [Hfetch | (msg' & Hmsg & Hwhy)]; [discriminate|].
        injection Hmsg as <-. exact Hwhy.
  - cbn [consumerTurn ret fst snd turn_commit turn_continue turn_dlq].
    split; [|split; [|split; reflexivity]].
    + split; [discriminate|]. intros (msg & Hmsg & _). discriminate.
    + split; [intros _; left; reflexivity|reflexivity].
  - cbn [consumerTurn ret fst snd turn_commit turn_continue turn_dlq].
    split; [|split; [|split; reflexivity]].
    + split; [discriminate|]. intros (msg & Hmsg & _). discriminate.
    + split; [discriminate|].
      intros [Hfetch | (msg & Hmsg & _)]; discriminate.
Qed.

End Commit.

(* ================================================================== *)
(** * The search endpoint: lists and page bounds *)

Lemma elem_of_rev_inv (x : rune) (l : gostring) : x ∈ rev l -> x ∈ l.
Proof. rewrite !list_elem_of_In, <- in_rev. tauto. Qed.

Lemma splitFrom_no_sep (sep : rune) (s : gostring) : forall cur,
  sep ∉ cur ->
  List.Forall (fun part => sep ∉ part) (splitFrom sep cur s).
Proof.
  induction s as [|c t IH]; intros cur Hcur; simpl.
  - constructor; [|constructor]. intros Hin. apply Hcur.
    apply elem_of_rev_inv. exact Hin.
  - destruct (Z.eqb_spec c sep) as [-> | Hne].
    + constructor; [|apply IH; apply not_elem_of_nil].
      intros Hin. apply Hcur. apply elem_of_rev_inv. exact Hin.
    + apply IH. intros Hin. apply elem_of_cons in Hin as [-> | Hin];
        [apply Hne; reflexivity|exact (Hcur Hin)].
Qed.

Lemma splitFrom_piece (sep : rune) (w : gostring) :
  sep ∉ w ->
  forall cur rest,
  splitFrom sep cur (w ++ rest) = splitFrom sep (rev w ++ cur) rest.
Proof.
  induction w as [|c w IH]; intros Hw cur rest; [reflexivity|].
  simpl. destruct (Z.eqb_spec c sep) as [-> | Hne].
  - exfalso. apply Hw. left.
  - rewrite IH, <- app_assoc; [reflexivity|].
    intros Hin. apply Hw. right. exact Hin.
Qed.

Lemma Split_Join (ks : list gostring) (sep : rune) :
  ks <> [] -> List.Forall (fun e => sep ∉ e) ks ->
  Split (Join ks [sep]) sep = ks.
Proof.
  unfold Split. intros Hne Hall.
  induction Hall as [|k ks Hk Hall IH]; [congruence|].
  destruct ks as [|k' ks].
  - simpl. pose proof (splitFrom_piece sep k Hk [] []) as Hp.
    rewrite !app_nil_r in Hp. rewrite Hp. simpl.
    rewrite rev_involutive. reflexivity.
  - change (Join (k :: k' :: ks) [sep])
      with (k ++ [sep] ++ Join (k' :: ks) [sep]).
    rewrite splitFrom_piece by exact Hk. simpl.
    rewrite Z.eqb_refl, app_nil_r, rev_involutive. f_equal.
    apply IH. discriminate.
Qed.

Lemma keepTrimmed_elements (parts : list gostring) :
  List.Forall (fun part => 44 ∉ part) parts ->
  List.Forall (fun e => e <> [] /\ TrimSpace e = e /\ 44 ∉ e)
    (keepTrimmed parts).
Proof.
  induction 1 as [|part parts Hpart _ IH]; simpl; [constructor|].
  destruct (TrimSpace part) as [|c t] eqn:Htrim; [exact IH|].
  cbn [isEmpty negb]. constructor; [|exact IH].
  split; [discriminate|]. rewrite <- Htrim.
  split; [apply TrimFunc_idempotent|].
  destruct (TrimFunc_split unicode_IsSpace part) as (s1 & s2 & Hs).
  fold (TrimSpace part) in Hs. intros Hin. apply Hpart. rewrite Hs.
  apply elem_of_app. right. apply elem_of_app. left. exact Hin.
Qed.

Lemma keepTrimmed_fixed (ks : list gostring) :
  List.Forall (fun e => e <> [] /\ TrimSpace e = e /\ 44 ∉ e) ks ->
  keepTrimmed ks = ks.
Proof.
  induction 1 as [|k ks (Hne & Htrim & _) _ IH]; [reflexivity|].
  simpl. rewrite Htrim, IH. destruct k; [congruence|reflexivity].
Qed.

(** X14. parseCSV returns the comma-separated values of its input that
    are not blank: every element is non-empty, trimmed and free of commas;
    every list of such elements comes back from its comma-joined form;
    and splitAndTrim of package config computes the same list. *)
Theorem parseCSV_elements (raw : gostring) :
  List.Forall (fun e => e <> [] /\ TrimSpace e = e /\ 44 ∉ e) (parseCSV raw)
  /\ (forall ks,
        List.Forall (fun e => e <> [] /\ TrimSpace e = e /\ 44 ∉ e) ks ->
        parseCSV (Join ks (str ",")) = ks)
  /\ splitAndTrim raw = parseCSV raw.
Proof.
  split; [|split].
  - unfold parseCSV. destruct (isEmpty raw); [constructor|].
    apply keepTrimmed_elements, splitFrom_no_sep, not_elem_of_nil.
  - intros ks Hks. unfold parseCSV.
    destruct (isEmpty (Join ks (str ","))) eqn:Hempty.
    + destruct ks as [|k ks]; [reflexivity|]. exfalso.
      apply List.Forall_cons_iff in Hks as [[Hne _] _].
      destruct k; [congruence|]. destruct ks; discriminate.
    + destruct ks as [|k ks]; [discriminate|].
      change (str ",") with [44]. rewrite Split_Join.
      * apply keepTrimmed_fixed, Hks.
      * discriminate.
      * eapply List.Forall_impl; [|exact Hks]. cbv beta. tauto.
  - unfold splitAndTrim, parseCSV. destruct raw; reflexivity.
Qed.

Lemma clampInt_range (raw : gostring) (fallback max : Z) :
  1 <= max ->
  clampInt raw fallback max = fallback
  \/ 1 <= clampInt raw fallback max <= max.
Proof.
  intros Hmax. unfold clampInt. destruct (isEmpty raw); [left; reflexivity|].
  destruct (Atoi raw) as [v|]; [|left; reflexivity].
  destruct (Z.leb_spec v 0); [left; reflexivity|]. right.
  destruct (Z.gtb_spec v max); lia.
Qed.

(** X15. Under a configuration that LoadAPI accepts, whatever the query
    string holds, the search runs with 0 <= from <= 10000 and with
    1 <= size <= API_MAX_PAGE_SIZE, and the size sent to the index is
    that size cut at 200. *)
Theorem LoadAPI_page_bounds `{GoStdlib} (env : environ) (cfg : API)
  (query : list (gostring * gostring)) :
  LoadAPI env = inr cfg ->
  let params := searchParams cfg query in
  0 <= From params <= 10000
  /\ 1 <= Size params <= MaxPage cfg
  /\ searchBody params !! str "size"
     = Some (AInt (Z.min (Size params) 200))
  /\ searchBody params !! str "from" = Some (AInt (From params)).
Proof.
  unfold LoadAPI. cbn [DefaultPage MaxPage].
  destruct (Z.leb_spec (getInt env (str "API_PAGE_SIZE") 20) 0) as [|Hpage];
    [discriminate|].
  destruct (Z.leb_spec (getInt env (str "API_MAX_PAGE_SIZE") 100) 0)
    as [|Hmax]; [discriminate|].
  destruct (Z.gtb_spec (getInt env (str "API_PAGE_SIZE") 20)
              (getInt env (str "API_MAX_PAGE_SIZE") 100)) as [|Hle];
    [discriminate|].
  intros Hcfg. injection Hcfg as <-. cbv zeta.
  unfold searchParams. cbn [From Size DefaultPage MaxPage].
  set (from := clampInt (Get query (str "from")) 0 10000).
  set (size := clampInt (Get query (str "size")) _ _).
  assert (0 <= from <= 10000) as Hfrom.
  { destruct (clampInt_range (Get query (str "from")) 0 10000 ltac:(lia))
      as [Hf | Hf];
      fold from in Hf; lia. }
  assert (1 <= size <= getInt env (str "API_MAX_PAGE_SIZE") 100) as Hsize.
  { destruct (clampInt_range (Get query (str "size"))
                (getInt env (str "API_PAGE_SIZE") 20)
                (getInt env (str "API_MAX_PAGE_SIZE") 100) ltac:(lia))
      as [Hs | Hs];
      fold size in Hs; lia. }
  split; [exact Hfrom|]. split; [exact Hsize|].
  unfold searchBody. cbn [From Size]. split.
  - lookup_key. unfold normSize.
    destruct (Z.leb_spec size 0); [lia|].
    destruct (Z.gtb_spec size 200); do 2 f_equal; lia.
  - lookup_key. unfold normFrom.
    destruct (Z.ltb_spec from 0); [lia|reflexivity].
Qed.

Lemma LoadAPI_page_bounds_witness :
  let params := searchParams (H := sampleStdlib) (mkAPI 20 100)
                  [(str "size", str "500"); (str "from", str "-3")] in
  0 <= From params <= 10000
  /\ 1 <= Size params <= MaxPage (mkAPI 20 100)
  /\ searchBody params !! str "size"
     = Some (AInt (Z.min (Size params) 200))
  /\ searchBody params !! str "from" = Some (AInt (From params)).
Proof.
  pose proof (LoadAPI_page_bounds (H := sampleStdlib) (fun _ => None)
                (mkAPI 20 100)
                [(str "size", str "500"); (str "from", str "-3")]) as Hthm.
  specialize (Hthm ltac:(vm_compute; reflexivity)).
  exact Hthm.
Defined.

(* ================================================================== *)
(** * Retention: DeleteOlderThan *)

Lemma int64_range (z : Z) : isInt64 (int64 z).
Proof.
  unfold isInt64, int64.
  pose proof (Z.mod_pos_bound (z + 2 ^ 63) (2 ^ 64) ltac:(lia)). lia.
Qed.

Lemma int64_id (z : Z) : isInt64 z -> int64 z = z.
Proof.
  unfold isInt64, int64. intros Hz.
  rewrite Z.mod_small by lia. lia.
Qed.

Lemma int64_add_l (a b : Z) : int64 (int64 a + b) = int64 (a + b).
Proof.
  unfold int64. f_equal.
  replace (a + 2 ^ 63) with (a + 2 ^ 63 + 0) at 1 by lia.
  replace ((a + 2 ^ 63 + 0) mod 2 ^ 64 - 2 ^ 63 + b + 2 ^ 63)
    with ((a + 2 ^ 63) mod 2 ^ 64 + b) by (rewrite Z.add_0_r; lia).
  rewrite Zplus_mod_idemp_l. f_equal. lia.
Qed.

(** On the values of the type the negation of a duration is the int64
    negation. *)
Lemma negDuration_int64 (d : Z) : isInt64 d -> negDuration d = int64 (- d).
Proof.
  unfold negDuration, isInt64. intros Hd.
  destruct (Z.eqb_spec d (- 2 ^ 63)) as [-> | Hne].
  - reflexivity.
  - symmetry. apply int64_id. unfold isInt64. lia.
Qed.

Section DeleteFacts.
Variable es_DeleteByQuery : nat -> gmap gostring any -> Z -> deleteReply.

Lemma deleteLoop_rounds (cutoff : gostring) (batchSize : Z) (j : nat) :
  let reply i := es_DeleteByQuery i (deleteBody cutoff) batchSize in
  forall fuel round total,
  isInt64 total ->
  (forall i, (i < j)%nat -> fullBatch batchSize (reply (round + i)%nat) = true) ->
  fullBatch batchSize (reply (round + j)%nat) = false ->
  (j < fuel)%nat ->
  deleteLoop es_DeleteByQuery fuel cutoff batchSize round total
  = Some (mkDeleteResult (int64 (total + deletedIn reply round (S j)))
            (failureOf (reply (round + j)%nat)) (S (round + j))).
Proof.
  intros reply.
  induction j as [|j IH]; intros fuel round total Htotal Hfull Hlast Hfuel.
  - destruct fuel as [|fuel]; [lia|]. rewrite Nat.add_0_r in *.
    cbn [deleteLoop deletedIn]. fold (reply round).
    destruct (reply round) as [| body | | n]; cbn [deletedCount failureOf];
      rewrite ?Z.add_0_r, ?(int64_id total Htotal); try reflexivity.
    cbn [fullBatch] in Hlast. destruct (n <? batchSize); [|discriminate].
    reflexivity.
  - destruct fuel as [|fuel]; [lia|].
    pose proof (Hfull 0%nat ltac:(lia)) as Hfirst.
    rewrite Nat.add_0_r in Hfirst.
    cbn [deleteLoop]. fold (reply round).
    destruct (reply round) as [| body | | n] eqn:Hreply;
      cbn [fullBatch] in Hfirst; try discriminate.
    destruct (n <? batchSize); [discriminate|].
    rewrite (IH fuel (S round) (int64 (total + n))).
    + cbn [deletedIn]. rewrite Hreply. cbn [deletedCount].
      replace (S round + j)%nat with (round + S j)%nat by lia.
      rewrite int64_add_l. do 3 f_equal. lia.
    + apply int64_range.
    + intros i Hi. replace (S round + i)%nat with (round + S i)%nat by lia.
      apply Hfull. lia.
    + replace (S round + j)%nat with (round + S j)%nat by lia. exact Hlast.
    + lia.
Qed.

Lemma deleteLoop_endless (cutoff : gostring) (batchSize : Z) :
  let reply i := es_DeleteByQuery i (deleteBody cutoff) batchSize in
  (forall i, fullBatch batchSize (reply i) = true) ->
  forall fuel round total,
  deleteLoop es_DeleteByQuery fuel cutoff batchSize round total = None.
Proof.
  intros reply Hfull. induction fuel as [|fuel IH]; intros round total;
    [reflexivity|].
  cbn [deleteLoop]. specialize (Hfull round). unfold reply in Hfull.
  destruct (es_DeleteByQuery round (deleteBody cutoff) batchSize)
    as [| body | | n]; cbn [fullBatch] in Hfull; try discriminate.
  destruct (n <? batchSize); [discriminate|]. apply IH.
Qed.

(** X16. DeleteOlderThan goes round by round until the first round that
    is not a full batch: when the rounds before round j each delete at
    least batchSize documents and round j deletes fewer or fails, exactly
    j + 1 requests are made and the result is the total of all documents
    deleted, as the int64 it is summed in (it wraps beyond 2^63 - 1),
    together with the failure of round j if it failed. A batchSize that
    is not positive stands for 1000, and every request asks for the
    documents up to now + (-maxAge), the negation taken in int64. The
    arguments and the counts the responses decode to are values of their
    Go types. *)
Theorem DeleteOlderThan_total (fuel : nat) (now maxAge batchSize : Z)
  (j : nat) :
  let size := if batchSize <=? 0 then 1000 else batchSize in
  let cutoff :=
    Format_RFC3339 (Time_UTC (mkTime (now + int64 (- maxAge)) 0)) in
  let reply i := es_DeleteByQuery i (deleteBody cutoff) size in
  isInt64 maxAge -> isInt64 batchSize ->
  (forall i, (i <= j)%nat -> isInt64 (deletedCount (reply i))) ->
  (forall i, (i < j)%nat -> fullBatch size (reply i) = true) ->
  fullBatch size (reply j) = false ->
  (j < fuel)%nat ->
  DeleteOlderThan es_DeleteByQuery fuel now maxAge batchSize
  = Some (mkDeleteResult (int64 (deletedIn reply 0 (S j)))
            (failureOf (reply j)) (S j)).
Proof.
  intros size cutoff reply Hage _ _ Hfull Hlast Hfuel.
  unfold DeleteOlderThan, deleteCutoff. fold size. cbv zeta.
  rewrite (negDuration_int64 maxAge Hage). fold cutoff.
  rewrite (deleteLoop_rounds cutoff size j fuel 0%nat 0); try assumption.
  - reflexivity.
  - unfold isInt64. lia.
Qed.

(** X17. DeleteOlderThan sets no bound of its own on the number of
    rounds: as long as every round reports a full batch it does not
    return, whatever number of rounds it is given. *)
Theorem DeleteOlderThan_endless (now maxAge batchSize : Z) :
  let size := if batchSize <=? 0 then 1000 else batchSize in
  let cutoff := deleteCutoff now maxAge in
  (forall i, fullBatch size (es_DeleteByQuery i (deleteBody cutoff) size)
             = true) ->
  forall fuel,
  DeleteOlderThan es_DeleteByQuery fuel now maxAge batchSize = None.
Proof.
  intros size cutoff Hfull fuel. unfold DeleteOlderThan.
  apply (deleteLoop_endless cutoff size Hfull).
Qed.

End DeleteFacts.

Lemma DeleteOlderThan_total_witness :
  DeleteOlderThan
    (fun i _ size => Deleted (if (i <? 2)%nat then size else 0))
    5 (1704207845 * Second) (168 * Hour) (2 ^ 62)
  = Some (mkDeleteResult (- 2 ^ 63) None 3).
Proof.
  pose proof (DeleteOlderThan_total
                (fun i _ size => Deleted (if (i <? 2)%nat then size else 0))
                5 (1704207845 * Second) (168 * Hour) (2 ^ 62) 2) as Hthm.
  cbv zeta in Hthm.
  specialize (Hthm ltac:(vm_compute; split; [discriminate|reflexivity])).
  specialize (Hthm ltac:(vm_compute; split; [discriminate|reflexivity])).
  specialize (Hthm ltac:(intros [|[|[|i]]] Hi;
                         [vm_compute; split; [discriminate|reflexivity] ..
                         |lia])).
  specialize (Hthm ltac:(intros [|[|i]] Hi; [reflexivity|reflexivity|lia])).
  specialize (Hthm ltac:(reflexivity)).
  specialize (Hthm ltac:(lia)).
  exact Hthm.
Defined.

Lemma DeleteOlderThan_endless_witness :
  DeleteOlderThan (fun _ _ size => Deleted size) 50
    (1704207845 * Second) (168 * Hour) 500 = None.
Proof.
  pose proof (DeleteOlderThan_endless (fun _ _ size => Deleted size)
                (1704207845 * Second) (168 * Hour) 500) as Hthm.
  cbv zeta in Hthm.
  specialize (Hthm ltac:(intros i; reflexivity)).
  exact (Hthm 50%nat).
Defined.

(* ================================================================== *)
(** * package config: what the loaders accept *)

Lemma keepTrimmed_nil_inv (parts : list gostring) :
  (len (keepTrimmed parts) =? 0) = false -> keepTrimmed parts <> [].
Proof. intros Hlen Hnil. rewrite Hnil in Hlen. discriminate. Qed.

Section Loaders.
Context `{GoStdlib}.
Variable time_ParseDuration : gostring -> option Z.

(** X18. A worker configuration that LoadWorker accepts names at least
    one broker, each broker non-empty, trimmed and free of commas; its
    batch size, dedupe capacity and keyword limit are positive and its
    minimal keyword length is not negative; so the dedupe cache is
    created with exactly the configured capacity, and no document carries
    more keywords than the configured limit. The dedupe ttl is not
    checked: one that is not positive is replaced by an hour when the
    cache is created. *)
Theorem LoadWorker_accepted (env : environ) (c : WorkerSettings) :
  LoadWorker time_ParseDuration env = Some (inr c) ->
  KafkaBrokers c <> []
  /\ List.Forall (fun b => b <> [] /\ TrimSpace b = b /\ 44 ∉ b)
       (KafkaBrokers c)
  /\ 0 < BatchSize c /\ 0 < DedupeCapacity c
  /\ 0 < KeywordLimit (processing c)
  /\ 0 <= KeywordMinLength (processing c)
  /\ capacity (NewCache (DedupeCapacity c) (DedupeTTL c)) = DedupeCapacity c
  /\ ttl (NewCache (DedupeCapacity c) (DedupeTTL c))
     = (if DedupeTTL c <=? 0 then Hour else DedupeTTL c)
  /\ forall text,
       len (ExtractKeywords text (KeywordLimit (processing c))
              (KeywordMinLength (processing c)))
       <= KeywordLimit (processing c).
Proof.
  unfold LoadWorker.
  destruct (getDuration _ env (str "WORKER_DEDUPE_TTL") _) as [ttl0|];
    [|discriminate].
  destruct (getDuration _ env (str "WORKER_COMMIT_INTERVAL") _) as [commit|];
    [|discriminate].
  cbn [mbind option_bind KafkaBrokers BatchSize DedupeCapacity processing
       KeywordLimit KeywordMinLength].
  set (brokers := splitAndTrim _).
  destruct (len brokers =? 0) eqn:Hbrokers; [discriminate|].
  destruct (Z.leb_spec (getInt env (str "WORKER_BATCH_SIZE") 10) 0)
    as [|Hbatch]; [discriminate|].
  destruct (Z.leb_spec (getInt env (str "WORKER_DEDUPE_CAPACITY") 20000) 0)
    as [|Hcap]; [discriminate|].
  destruct (Z.leb_spec (getInt env (str "WORKER_KEYWORD_LIMIT") 8) 0)
    as [|Hlimit]; [discriminate|].
  destruct (Z.ltb_spec (getInt env (str "WORKER_KEYWORD_MIN_LEN") 4) 0)
    as [|Hmin]; [discriminate|].
  intros Hc. injection Hc as <-.
  cbn [KafkaBrokers BatchSize DedupeCapacity DedupeTTL processing
       KeywordLimit KeywordMinLength].
  split; [apply keepTrimmed_nil_inv, Hbrokers|].
  split; [apply keepTrimmed_elements, splitFrom_no_sep, not_elem_of_nil|].
  repeat (split; [assumption|]).
  split; [|split; [reflexivity|]].
  - unfold NewCache. cbn [capacity].
    destruct (Z.leb_spec (getInt env (str "WORKER_DEDUPE_CAPACITY") 20000) 0);
      [lia|reflexivity].
  - intros text. rewrite ExtractKeywords_eq. cbv zeta.
    set (pairs := merge_sort kvOrder _).
    set (limit := getInt env (str "WORKER_KEYWORD_LIMIT") 8) in *.
    destruct (Z.leb_spec limit 0); [lia|]. cbn [orb].
    destruct (Z.gtb_spec limit (len pairs)) as [Hfew | Hmany];
      unfold len at 1; unfold slicePrefix; rewrite length_map.
    + pose proof (firstn_le_length (Z.to_nat (len pairs)) pairs) as Hle.
      apply Nat2Z.inj_le in Hle.
      rewrite Z2Nat.id in Hle by apply Nat2Z.is_nonneg.
      eapply Z.le_trans; [exact Hle|]. apply Z.lt_le_incl, Hfew.
    + pose proof (firstn_le_length (Z.to_nat limit) pairs) as Hle.
      apply Nat2Z.inj_le in Hle. rewrite Z2Nat.id in Hle by lia. exact Hle.
Qed.

(** X19. A retention configuration that LoadRetention accepts has a
    positive interval, maximal age and batch size; so a retention run
    asks for exactly the configured batch size, never for the default of
    1000, with a cutoff that lies before the instant of the run. *)
Theorem LoadRetention_accepted (env : environ) (c : Retention) :
  LoadRetention time_ParseDuration env = Some (inr c) ->
  0 < Interval c /\ 0 < MaxAge c /\ 0 < RetentionBatchSize c
  /\ forall es_DeleteByQuery fuel now,
       now - MaxAge c < now
       /\ DeleteOlderThan es_DeleteByQuery fuel now (MaxAge c)
            (RetentionBatchSize c)
          = deleteLoop es_DeleteByQuery fuel
              (Format_RFC3339 (Time_UTC (mkTime (now - MaxAge c) 0)))
              (RetentionBatchSize c) 0 0.
Proof.
  unfold LoadRetention.
  destruct (getDuration _ env (str "RETENTION_CRON") _) as [interval|];
    [|discriminate].
  destruct (getDuration _ env (str "RETENTION_MAX_AGE") _) as [maxAge|];
    [|discriminate].
  cbn [mbind option_bind Interval MaxAge RetentionBatchSize].
  destruct (Z.leb_spec maxAge 0) as [|Hage]; [discriminate|].
  destruct (Z.leb_spec interval 0) as [|Hint]; [discriminate|].
  destruct (Z.leb_spec (getInt env (str "RETENTION_BATCH_SIZE") 500) 0)
    as [|Hbatch]; [discriminate|].
  intros Hc. injection Hc as <-. cbn [Interval MaxAge RetentionBatchSize].
  repeat (split; [assumption|]).
  intros es_DeleteByQuery fuel now. split; [lia|].
  unfold DeleteOlderThan, deleteCutoff, negDuration.
  destruct (Z.leb_spec (getInt env (str "RETENTION_BATCH_SIZE") 500) 0);
    [lia|].
  destruct (Z.eqb_spec maxAge (- 2 ^ 63)); [lia|reflexivity].
Qed.

(** X20. The loaders do not panic as long as the built-in defaults of
    the durations parse: a duration in the environment that does not
    parse is replaced by its default, and LoadWorker and LoadRetention
    return a configuration or an error. *)
Theorem loaders_do_not_panic (env : environ) :
  time_ParseDuration (str "24h") <> None ->
  time_ParseDuration (str "2s") <> None ->
  time_ParseDuration (str "168h") <> None ->
  LoadWorker time_ParseDuration env <> None
  /\ LoadRetention time_ParseDuration env <> None
  /\ forall key fallback,
       time_ParseDuration (getEnv env key fallback) = None ->
       getDuration time_ParseDuration env key fallback
       = time_ParseDuration fallback.
Proof.
  intros Hday Hsec Hweek.
  assert (forall key fallback,
            time_ParseDuration fallback <> None ->
            getDuration time_ParseDuration env key fallback <> None) as Hsome.
  { intros key fallback Hfb. unfold getDuration.
    destruct (time_ParseDuration (getEnv env key fallback));
      [discriminate|exact Hfb]. }
  split; [|split].
  - unfold LoadWorker.
    pose proof (Hsome (str "WORKER_DEDUPE_TTL") _ Hday) as H1.
    pose proof (Hsome (str "WORKER_COMMIT_INTERVAL") _ Hsec) as H2.
    destruct (getDuration _ env (str "WORKER_DEDUPE_TTL") _); [|congruence].
    destruct (getDuration _ env (str "WORKER_COMMIT_INTERVAL") _);
      [|congruence].
    discriminate.
  - unfold LoadRetention.
    pose proof (Hsome (str "RETENTION_CRON") _ Hday) as H1.
    pose proof (Hsome (str "RETENTION_MAX_AGE") _ Hweek) as H2.
    destruct (getDuration _ env (str "RETENTION_CRON") _); [|congruence].
    destruct (getDuration _ env (str "RETENTION_MAX_AGE") _); [|congruence].
    discriminate.
  - intros key fallback Hbad. unfold getDuration. rewrite Hbad. reflexivity.
Qed.

End Loaders.

Lemma LoadWorker_accepted_witness :
  let c := defaultWorkerSettings in
  KafkaBrokers c <> []
  /\ List.Forall (fun b => b <> [] /\ TrimSpace b = b /\ 44 ∉ b)
       (KafkaBrokers c)
  /\ 0 < BatchSize c /\ 0 < DedupeCapacity c
  /\ 0 < KeywordLimit (processing c)
  /\ 0 <= KeywordMinLength (processing c)
  /\ capacity (NewCache (DedupeCapacity c) (DedupeTTL c)) = DedupeCapacity c
  /\ ttl (NewCache (DedupeCapacity c) (DedupeTTL c))
     = (if DedupeTTL c <=? 0 then Hour else DedupeTTL c)
  /\ forall text,
       len (ExtractKeywords (H := sampleStdlib) text
              (KeywordLimit (processing c))
              (KeywordMinLength (processing c)))
       <= KeywordLimit (processing c).
Proof.
  pose proof (LoadWorker_accepted (H := sampleStdlib) sample_ParseDuration
                emptyEnv defaultWorkerSettings) as Hthm.
  specialize (Hthm ltac:(vm_compute; reflexivity)).
  exact Hthm.
Defined.

Lemma LoadRetention_accepted_witness :
  let c := defaultRetention in
  0 < Interval c /\ 0 < MaxAge c /\ 0 < RetentionBatchSize c
  /\ forall es_DeleteByQuery fuel now,
       now - MaxAge c < now
       /\ DeleteOlderThan es_DeleteByQuery fuel now (MaxAge c)
            (RetentionBatchSize c)
          = deleteLoop es_DeleteByQuery fuel
              (Format_RFC3339 (Time_UTC (mkTime (now - MaxAge c) 0)))
              (RetentionBatchSize c) 0 0.
Proof.
  pose proof (LoadRetention_accepted sample_ParseDuration emptyEnv
                defaultRetention) as Hthm.
  specialize (Hthm ltac:(vm_compute; reflexivity)).
  exact Hthm.
Defined.

Lemma loaders_do_not_panic_witness :
  let env : environ := fun key =>
    if strEq key (str "RETENTION_CRON") then Some (str "daily") else None in
  LoadWorker sample_ParseDuration env <> None
  /\ LoadRetention sample_ParseDuration env <> None
  /\ forall key fallback,
       sample_ParseDuration (getEnv env key fallback) = None ->
       getDuration sample_ParseDuration env key fallback
       = sample_ParseDuration fallback.
Proof.
  intros env.
  pose proof (loaders_do_not_panic sample_ParseDuration env) as Hthm.
  specialize (Hthm ltac:(vm_compute; discriminate)).
  specialize (Hthm ltac:(vm_compute; discriminate)).
  specialize (Hthm ltac:(vm_compute; discriminate)).
  exact Hthm.
Defined.

(* ================================================================== *)
(** * The retention service: connecting at startup *)

Lemma connectLoop_seq (newOk pingOk cancelled : nat -> bool) (n : nat) :
  forall s d client,
  let run := connectLoop newOk pingOk cancelled (seq s n) d client in
  let k := length (conn_sleeps run) in
  conn_sleeps run = backoffs d k
  /\ (forall a, (s <= a < s + k)%nat ->
        newOk a && pingOk a = false /\ cancelled a = false)
  /\ ((conn_client run = None /\ (k < n)%nat /\ conn_attempts run = S k
       /\ newOk (s + k)%nat && pingOk (s + k)%nat = false
       /\ cancelled (s + k)%nat = true)
      \/ (conn_client run = Some true /\ (k < n)%nat
          /\ conn_attempts run = S k
          /\ newOk (s + k)%nat && pingOk (s + k)%nat = true)
      \/ (conn_client run
          = Some (match n with O => client | S n' => newOk (s + n')%nat end)
          /\ k = n /\ conn_attempts run = n)).
Proof.
  induction n as [|n IH]; intros s d client; cbv zeta.
  { simpl. split; [reflexivity|]. split; [intros a Ha; lia|].
    right. right. repeat split. }
  simpl seq. cbn [connectLoop].
  destruct (newOk s && pingOk s) eqn:Hok.
  { cbn [conn_sleeps conn_client conn_attempts length backoffs].
    rewrite Nat.add_0_r. split; [reflexivity|]. split; [intros a Ha; lia|].
    right. left. repeat split; [lia|exact Hok]. }
  destruct (cancelled s) eqn:Hc.
  { cbn [conn_sleeps conn_client conn_attempts length backoffs].
    rewrite Nat.add_0_r. split; [reflexivity|]. split; [intros a Ha; lia|].
    left. repeat split; [lia|exact Hok|exact Hc]. }
  set (next := if d * 2 >? 30 * Second then 30 * Second else d * 2).
  assert (next = Z.min (d * 2) (30 * Second)) as Hnext.
  { unfold next. destruct (Z.gtb_spec (d * 2) (30 * Second)); lia. }
  specialize (IH (S s) next (newOk s)). cbv zeta in IH.
  destruct IH as (Hsleeps & Hfailed & Hend).
  cbn [conn_sleeps conn_client conn_attempts length backoffs].
  set (run := connectLoop newOk pingOk cancelled (seq (S s) n) next
                (newOk s)) in *.
  replace (s + S (length (conn_sleeps run)))%nat
    with (S s + length (conn_sleeps run))%nat by lia.
  split; [rewrite <- Hnext; f_equal; exact Hsleeps|]. split.
  - intros a Ha. destruct (decide (a = s)) as [-> | Hne]; [split; assumption|].
    apply Hfailed. lia.
  - destruct Hend as [(Hcl & Hk & Hatt & Hrest) | [(Hcl & Hk & Hatt & Hrest)
                                                   | (Hcl & Hk & Hatt)]].
    + left. repeat split; [exact Hcl|lia|lia|apply Hrest|apply Hrest].
    + right. left. repeat split; [exact Hcl|lia|lia|exact Hrest].
    + right. right. split; [|split; lia]. rewrite Hcl. f_equal.
      destruct n as [|n']; [rewrite Nat.add_0_r; reflexivity|].
      f_equal. lia.
Qed.

Lemma backoffs_startup (k : nat) :
  (k <= 10)%nat ->
  backoffs (2 * Second) k
  = take k [2 * Second; 4 * Second; 8 * Second; 16 * Second; 30 * Second;
            30 * Second; 30 * Second; 30 * Second; 30 * Second; 30 * Second].
Proof.
  intros Hk.
  do 11 (destruct k as [|k]; [reflexivity|]). lia.
Qed.

(** X21. The retention service tries to reach Elasticsearch at most ten
    times, waiting 2, 4, 8, 16 and then 30 seconds after each failed
    attempt, the tenth included: the waits made are a prefix of that
    list. It exits on the shutdown signal exactly when the signal arrives
    during such a wait, and it goes on to run exactly when the final
    check succeeds and either one of the attempts succeeded or, all ten
    having failed, the tenth at least created a client. *)
Theorem connect_backoff (newOk pingOk cancelled : nat -> bool)
  (finalPingOk : bool) :
  let r := connect newOk pingOk cancelled finalPingOk in
  let k := length (conn_sleeps r.1) in
  conn_sleeps r.1
  = take k [2 * Second; 4 * Second; 8 * Second; 16 * Second; 30 * Second;
            30 * Second; 30 * Second; 30 * Second; 30 * Second; 30 * Second]
  /\ (k <= 10)%nat /\ (conn_attempts r.1 <= 10)%nat
  /\ (forall a, (a < k)%nat ->
        newOk a && pingOk a = false /\ cancelled a = false)
  /\ (r.2 = ExitShutdown
      <-> (k < 10)%nat /\ newOk k && pingOk k = false /\ cancelled k = true)
  /\ (r.2 = Connected
      <-> finalPingOk = true
          /\ (((k < 10)%nat /\ newOk k && pingOk k = true)
              \/ (k = 10%nat /\ newOk 9%nat = true))).
Proof.
  unfold connect. cbn [fst snd].
  pose proof (connectLoop_seq newOk pingOk cancelled 10 0 (2 * Second) false)
    as Hrun.
  cbv zeta in Hrun. revert Hrun.
  generalize (connectLoop newOk pingOk cancelled (seq 0 10) (2 * Second)
                false).
  intros run. generalize (length (conn_sleeps run)).
  intros k Hrun. cbn [Nat.add] in Hrun.
  destruct Hrun as (Hsleeps & Hfailed & Hend).
  assert (k <= 10)%nat as Hk by (destruct Hend as [H|[H|H]]; lia).
  split; [|split; [exact Hk|split; [|split]]].
  - rewrite Hsleeps. apply backoffs_startup, Hk.
  - destruct Hend as [H|[H|H]]; lia.
  - intros a Ha. apply Hfailed. lia.
  - destruct Hend as [(Hcl & Hlt & _ & Hbad & Hcan)
                     | [(Hcl & Hlt & _ & Hok) | (Hcl & Hten & _)]];
      rewrite Hcl.
    + split.
      * split; [intros _; repeat split; assumption|reflexivity].
      * split; [discriminate|].
        intros [_ [[_ Hok] | [Hten _]]]; [congruence|lia].
    + cbn [negb orb]. split.
      * split; [destruct finalPingOk; discriminate|].
        intros (_ & Hbad & _). congruence.
      * split; [|intros [-> _]; reflexivity].
        destruct finalPingOk; [|discriminate]. intros _.
        split; [reflexivity|]. left. split; assumption.
    + split.
      * split; [destruct (negb (newOk 9%nat) || negb finalPingOk);
                discriminate|]. intros (Hlt & _). lia.
      * destruct (newOk 9%nat), finalPingOk; cbn [negb orb].
        -- split; [|reflexivity]. intros _. split; [reflexivity|].
           right. split; [exact Hten|reflexivity].
        -- split; [discriminate|]. intros [Hf _]. discriminate.
        -- split; [discriminate|].
           intros [_ [[Hlt _] | [_ Hn]]]; [lia|discriminate].
        -- split; [discriminate|]. intros [Hf _]. discriminate.
Qed.

(* ================================================================== *)
(** * The query compiler: the sort descriptor *)

(** X22. The sort parameter is read as field:order. With a field and an
    order that hold no colon, and whatever follows a second colon, the
    search sorts by that field in that order; an empty field stands for
    timestamp and an empty or missing order for desc. The order is not
    checked against asc and desc. *)
Theorem sortDescriptor_parts (field order : gostring)
  (more : list gostring) :
  58 ∉ field -> 58 ∉ order -> List.Forall (fun part => 58 ∉ part) more ->
  let descriptor (f o : gostring) : gmap gostring any :=
    {[ (if isEmpty f then str "timestamp" else f) :=
         AMap {[ str "order" :=
                   AString (if isEmpty o then str "desc" else o) ]} ]} in
  sortDescriptor (Join (field :: order :: more) (str ":"))
  = descriptor field order
  /\ sortDescriptor field = descriptor field [].
Proof.
  intros Hfield Horder Hmore descriptor. split.
  - unfold sortDescriptor.
    assert (isEmpty (Join (field :: order :: more) (str ":")) = false) as ->.
    { change (Join (field :: order :: more) (str ":"))
        with (field ++ str ":" ++ Join (order :: more) (str ":")).
      destruct field; reflexivity. }
    change (str ":") with [58]. rewrite Split_Join; [|discriminate|].
    + cbn [nth]. unfold descriptor.
      assert ((len (field :: order :: more) >? 1) = true) as ->.
      { unfold len. cbn [length]. rewrite Z.gtb_ltb. apply Z.ltb_lt. lia. }
      cbn [andb]. destruct (isEmpty order); reflexivity.
    + repeat (constructor; [assumption|]). exact Hmore.
  - unfold sortDescriptor. destruct field as [|c field]; [reflexivity|].
    cbn [isEmpty].
    pose proof (Split_Join [c :: field] 58 ltac:(discriminate)
                  ltac:(repeat constructor; exact Hfield)) as Hsplit.
    cbn [Join] in Hsplit. rewrite Hsplit. reflexivity.
Qed.

Lemma sortDescriptor_parts_witness :
  let descriptor (f o : gostring) : gmap gostring any :=
    {[ (if isEmpty f then str "timestamp" else f) :=
         AMap {[ str "order" :=
                   AString (if isEmpty o then str "desc" else o) ]} ]} in
  sortDescriptor (Join (str "title" :: str "asc" :: [str "x"]) (str ":"))
  = descriptor (str "title") (str "asc")
  /\ sortDescriptor (str "title") = descriptor (str "title") [].
Proof.
  pose proof (sortDescriptor_parts (str "title") (str "asc") [str "x"])
    as Hthm.
  specialize (Hthm ltac:(apply (bool_decide_unpack _); vm_compute;
                         reflexivity)).
  specialize (Hthm ltac:(apply (bool_decide_unpack _); vm_compute;
                         reflexivity)).
  specialize (Hthm ltac:(repeat constructor; apply (bool_decide_unpack _);
                         vm_compute; reflexivity)).
  exact Hthm.
Defined.
